(** * django-tenant-authx: tenant resolution and permission evaluation

    A shallow embedding of the authorization core of [tenant_authx]
    ([models.py], [utils.py], [permissions.py], [resolvers.py],
    [middleware.py]) together with the properties of that core.

    Conventions of the embedding:
    - Python [str] values are [string]s, one character per code point:
      the text of the embedding is the text whose code points are below
      256, which is what WSGI hands over for hosts and headers.
      [str.lower] is Python's on that range (A-Z and the accented capitals
      of Latin-1); [str.upper] is only applied to the header name, an HTTP
      field name, and is the ASCII one.
    - The database is a record of tables, each a list of rows; many-to-many
      relations are lists of primary-key pairs.
    - Code that queries the database, writes to the audit logger or calls
      into the rest of the request pipeline runs in the monad [M]: a state
      monad over the [World] (store and event log) that can raise. *)

From Stdlib Require Import Ascii String.
From stdpp Require Import gmap strings list.

(** ** Python string operations used by the source *)

Module Str.

(** [c.lower()] on one character below U+0100: A-Z and the capitals
    U+00C0-U+00DE, the multiplication sign U+00D7 apart, move up by 32;
    every other character is its own lower case. *)
Definition lower_char (c : ascii) : ascii :=
  let n := nat_of_ascii c in
  if ((65 <=? n)%nat && (n <=? 90)%nat)
     || ((192 <=? n)%nat && (n <=? 222)%nat && negb (n =? 215)%nat)
  then ascii_of_nat (n + 32) else c.

(** [s.lower()] *)
Fixpoint lower (s : string) : string :=
  match s with
  | EmptyString => EmptyString
  | String c s' => String (lower_char c) (lower s')
  end.

(** [c.upper()] on one character of an HTTP field name. *)
Definition upper_ascii (c : ascii) : ascii :=
  let n := nat_of_ascii c in
  if (97 <=? n)%nat && (n <=? 122)%nat then ascii_of_nat (n - 32) else c.

(** [s.upper()] *)
Fixpoint upper (s : string) : string :=
  match s with
  | EmptyString => EmptyString
  | String c s' => String (upper_ascii c) (upper s')
  end.

(** [s.replace(a, b)] for one-character [a] and [b]. *)
Fixpoint replace (a b : ascii) (s : string) : string :=
  match s with
  | EmptyString => EmptyString
  | String c s' => String (if Ascii.eqb c a then b else c) (replace a b s')
  end.

(** [c in s] for a one-character [c]. *)
Fixpoint contains (c : ascii) (s : string) : bool :=
  match s with
  | EmptyString => false
  | String a s' => if Ascii.eqb a c then true else contains c s'
  end.

(** [s.split(c)[0]]: everything before the first occurrence of [c]. *)
Fixpoint split_head (c : ascii) (s : string) : string :=
  match s with
  | EmptyString => EmptyString
  | String a s' => if Ascii.eqb a c then EmptyString else String a (split_head c s')
  end.

(** [s[:n]] and [s[n:]] for a non-negative [n]. *)
Fixpoint take (n : nat) (s : string) : string :=
  match n, s with
  | S n', String a s' => String a (take n' s')
  | _, _ => EmptyString
  end.

Fixpoint drop (n : nat) (s : string) : string :=
  match n, s with
  | S n', String _ s' => drop n' s'
  | _, _ => s
  end.

(** [s[:-n]] for a positive [n]: all but the last [n] characters, the
    empty string when [s] has at most [n] characters. *)
Definition slice_to_neg (s : string) (n : nat) : string :=
  take (String.length s - n) s.

(** [s.endswith(suffix)] *)
Definition endswith (s suffix : string) : bool :=
  String.eqb (drop (String.length s - String.length suffix) s) suffix.

(** Truthiness of a [str]: non-empty. *)
Definition truthy (s : string) : bool :=
  match s with EmptyString => false | _ => true end.

End Str.

(** ** Domain model ([models.py]) *)

(** Primary keys: UUIDs for the library's models, the integer key of the
    user model. *)
Definition uuid := N.

Record User := {
  u_pk : Z;
  u_username : string;
  u_is_authenticated : bool;
  u_is_superuser : bool;
}.

Record Tenant := {
  t_id : uuid;
  t_name : string;
  t_slug : string;
  t_domain : option string;
  t_is_active : bool;
}.

Record TenantMembership := {
  m_id : uuid;
  m_user_id : Z;
  m_tenant_id : uuid;
  m_is_active : bool;
}.

Record Role := {
  r_id : uuid;
  r_tenant_id : uuid;
  r_name : string;
  r_is_active : bool;
}.

Record Permission := {
  p_id : uuid;
  p_tenant_id : uuid;
  p_codename : string;
  p_name : string;
}.

Global Instance User_eq_dec : EqDecision User.
Proof. solve_decision. Defined.
Global Instance Tenant_eq_dec : EqDecision Tenant.
Proof. solve_decision. Defined.
Global Instance TenantMembership_eq_dec : EqDecision TenantMembership.
Proof. solve_decision. Defined.
Global Instance Role_eq_dec : EqDecision Role.
Proof. solve_decision. Defined.
Global Instance Permission_eq_dec : EqDecision Permission.
Proof. solve_decision. Defined.

(** The store: one list of rows per table, and the two through tables
    [membership.roles] (membership id, role id) and [role.permissions]
    (role id, permission id). *)
Record Store := {
  tenants : list Tenant;
  memberships : list TenantMembership;
  roles : list Role;
  permissions : list Permission;
  membership_roles : list (uuid * uuid);
  role_permissions : list (uuid * uuid);
}.

(** [unique_together = [["user", "tenant"]]] on [TenantMembership]. *)
Definition membership_unique (st : Store) : Prop :=
  NoDup ((λ m, (m_user_id m, m_tenant_id m)) <$> memberships st).

Global Instance membership_unique_dec st : Decision (membership_unique st).
Proof. unfold membership_unique. apply _. Defined.

(** ** Configuration ([conf.py]) *)

Record Settings := {
  TENANT_RESOLUTION_STRATEGY : string;
  TENANT_PATH_PATTERN : string;
  TENANT_HEADER_NAME : string;
  TENANT_NOT_FOUND_HANDLER : string;
  SUPERUSER_BYPASS : bool;
  AUDIT_ENABLED : bool;
  TENANT_EXEMPT_URLS : list string;
  BASE_DOMAIN : option string;
}.

Definition TENANT_AUTHX_DEFAULTS : Settings := {|
  TENANT_RESOLUTION_STRATEGY := "domain";
  TENANT_PATH_PATTERN := "^/(?P<tenant_slug>[\w-]+)/";
  TENANT_HEADER_NAME := "X-Tenant-Slug";
  TENANT_NOT_FOUND_HANDLER := "tenant_authx.handlers.default_tenant_not_found";
  SUPERUSER_BYPASS := true;
  AUDIT_ENABLED := true;
  TENANT_EXEMPT_URLS := [];
  BASE_DOMAIN := None;
|}.

(** ** Requests, exceptions and events *)

Record HttpResponse := {
  status_code : nat;
  content : string;
}.

(** The request as the core sees it: [get_host()], [path], the [META]
    headers, the authenticated user and the [tenant] slot. *)
Record HttpRequest := {
  req_host : string;
  req_path : string;
  req_META : gmap string string;
  req_user : option User;
  req_tenant : option Tenant;
}.

Definition set_tenant (request : HttpRequest) (t : option Tenant) : HttpRequest :=
  {| req_host := req_host request; req_path := req_path request;
     req_META := req_META request; req_user := req_user request;
     req_tenant := t |}.

(** Exceptions ([exceptions.py], Django's ORM and validation errors, and
    whatever a view or a custom handler may raise).  Messages are not
    carried; [TenantNotFoundError] keeps its [identifier] and
    [TenantInactiveError] its [tenant]. *)
Inductive exn :=
  | DoesNotExist
  | MultipleObjectsReturned
  | IntegrityError
  | ValidationError
  | InvalidTenantContextError
  | TenantNotFoundError (identifier : option string)
  | TenantInactiveError (tenant : Tenant)
  | ValueError
  | ImportError
  | Http404
  | OtherError (name : string).

Inductive result (A : Type) :=
  | Ok (a : A)
  | Raise (e : exn).
Arguments Ok {A} a.
Arguments Raise {A} e.

(** Read queries sent to the store. *)
Inductive Query :=
  | QMembershipGet (user_pk : Z) (tenant_pk : option uuid)
  | QMembershipHasPermission (membership_pk : uuid) (codename : string)
  | QMembershipPermissions (membership_pk : uuid)
  | QTenantPermissions (tenant_pk : option uuid)
  | QTenantBySlug (slug : string)
  | QTenantByDomain (domain : string).

Inductive LogLevel := INFO | WARNING.

(** The [audit_data] handed to the audit logger by [audit_log]: the keys
    [event], [success], [user_id]/[username]/[is_superuser],
    [tenant_id]/[tenant_slug], [permission], [path] and the [extra]
    identifier.  The timestamp and the client address are not carried. *)
Record AuditData := {
  a_level : LogLevel;
  a_event : string;
  a_success : bool;
  a_user : option (Z * string * bool);
  a_tenant : option (uuid * string);
  a_permission : option string;
  a_path : option string;
  a_identifier : option (option string);
}.

(** What the modelled code does to its surroundings, in order: store
    queries, records written to the audit logger, invocations of the
    configured resolver, of the not-found handler and of the next stage of
    the pipeline. *)
Inductive Event :=
  | EvQuery (q : Query)
  | EvAudit (a : AuditData)
  | EvResolve (request : HttpRequest)
  | EvHandler (request : HttpRequest) (e : exn)
  | EvGetResponse (request : HttpRequest).

Definition audit_events (l : list Event) : list AuditData :=
  omap (λ ev, match ev with EvAudit a => Some a | _ => None end) l.
Definition resolver_calls (l : list Event) : list HttpRequest :=
  omap (λ ev, match ev with EvResolve r => Some r | _ => None end) l.

(** ** The monad of store-reading, logging, raising computations *)

Record World := {
  store : Store;
  log : list Event;
}.

Definition M (A : Type) : Type := World → result A * World.

Global Instance M_ret : MRet M := λ A a w, (Ok a, w).
Global Instance M_bind : MBind M := λ A B f m w,
  match m w with
  | (Ok a, w') => f a w'
  | (Raise e, w') => (Raise e, w')
  end.

Definition raise {A} (e : exn) : M A := λ w, (Raise e, w).

(** [try: m except <any>: h] *)
Definition try_except {A} (m : M A) (h : exn → M A) : M A := λ w,
  match m w with
  | (Ok a, w') => (Ok a, w')
  | (Raise e, w') => h e w'
  end.

Definition emit (ev : Event) : M unit := λ w,
  (Ok (), {| store := store w; log := log w ++ [ev] |}).

Definition get_store : M Store := λ w, (Ok (store w), w).

Definition put_store (st : Store) : M unit := λ w,
  (Ok (), {| store := st; log := log w |}).

Definition lift {A} (r : result A) : M A := λ w, (r, w).

(** A read query: logged, then answered from the current store. *)
Definition run_query {A} (q : Query) (answer : Store → result A) : M A :=
  _ ← emit (EvQuery q); st ← get_store; lift (answer st).

(** A call into code outside the model (the rest of the pipeline, a custom
    handler): it may change the store; what it logs on its own is not part
    of the log of the modelled code. *)
Definition call_out {A} (f : Store → result A * Store) : M A := λ w,
  let '(r, st) := f (store w) in (r, {| store := st; log := log w |}).

(** The events a computation appended to the log. *)
Definition emitted {A} (m : M A) (w : World) : list Event :=
  drop (length (log w)) (log (m w).2).

(** ** The ORM operations the source relies on *)

(** [Manager.get(...)] on the rows matching the lookup. *)
Definition objects_get {A} (rows : list A) : result A :=
  match rows with
  | [] => Raise DoesNotExist
  | [x] => Ok x
  | _ => Raise MultipleObjectsReturned
  end.

(** [related.add(obj)] on a through table: no second row for a pair that
    is already related. *)
Definition m2m_add (pair : uuid * uuid) (table : list (uuid * uuid)) : list (uuid * uuid) :=
  if decide (pair ∈ table) then table else table ++ [pair].

(** [related.remove(obj)] *)
Definition m2m_remove (pair : uuid * uuid) (table : list (uuid * uuid)) : list (uuid * uuid) :=
  filter (λ x, x ≠ pair) table.

(** Rows of [TenantMembership.objects.filter(user=, tenant=, is_active=True)].
    The tenant column is not nullable: a [None] tenant matches no row. *)
Definition active_memberships (st : Store) (user_pk : Z) (tenant_pk : option uuid)
    : list TenantMembership :=
  filter (λ m, m_user_id m = user_pk ∧ Some (m_tenant_id m) = tenant_pk
               ∧ m_is_active m = true) (memberships st).

(** [membership.roles]: the roles joined through [membership_roles]. *)
Definition roles_of (st : Store) (membership_pk : uuid) : list Role :=
  filter (λ r, (membership_pk, r_id r) ∈ membership_roles st) (roles st).

(** [role.permissions]: the permissions joined through [role_permissions]. *)
Definition permissions_of (st : Store) (role_pk : uuid) : list Permission :=
  filter (λ p, (role_pk, p_id p) ∈ role_permissions st) (permissions st).

(** [roles.values_list("permissions__codename", flat=True)]: a left outer
    join, one [None] for a role without permissions. *)
Definition values_list_permissions_codename (st : Store) (rs : list Role)
    : list (option string) :=
  r ← rs;
  match permissions_of st (r_id r) with
  | [] => [None]
  | ps => (λ p, Some (p_codename p)) <$> ps
  end.

Definition set_membership_roles (st : Store) (table : list (uuid * uuid)) : Store :=
  {| tenants := tenants st; memberships := memberships st; roles := roles st;
     permissions := permissions st; membership_roles := table;
     role_permissions := role_permissions st |}.

Definition set_role_permissions (st : Store) (table : list (uuid * uuid)) : Store :=
  {| tenants := tenants st; memberships := memberships st; roles := roles st;
     permissions := permissions st; membership_roles := membership_roles st;
     role_permissions := table |}.

Definition set_tenants (st : Store) (rows : list Tenant) : Store :=
  {| tenants := rows; memberships := memberships st; roles := roles st;
     permissions := permissions st; membership_roles := membership_roles st;
     role_permissions := role_permissions st |}.

(** [TenantMembership.objects.get(user=user, tenant=tenant, is_active=True)] *)
Definition get_active_membership (user : User) (tenant : option Tenant)
    : M TenantMembership :=
  run_query (QMembershipGet (u_pk user) (t_id <$> tenant))
    (λ st, objects_get (active_memberships st (u_pk user) (t_id <$> tenant))).

(** [try: ...get(...) except TenantMembership.DoesNotExist: <None>] *)
Definition find_active_membership (user : User) (tenant : option Tenant)
    : M (option TenantMembership) :=
  try_except (m ← get_active_membership user tenant; mret (Some m))
    (λ e, match e with DoesNotExist => mret None | _ => raise e end).

(** ** [models.py] *)

Module Tenant.

(** [Tenant.clean]: lower-cases a non-empty slug and a non-empty domain. *)
Definition clean (self : Tenant) : Tenant :=
  {| t_id := t_id self;
     t_name := t_name self;
     t_slug := if Str.truthy (t_slug self) then Str.lower (t_slug self) else t_slug self;
     t_domain := match t_domain self with
                 | Some d => if Str.truthy d then Some (Str.lower d) else Some d
                 | None => None
                 end;
     t_is_active := t_is_active self |}.

(** [Tenant.save]: the class does not override it, so this is
    [models.Model.save]: the row is written as it stands (insert, or update
    of the row with the same primary key), the unique constraints on
    [slug] and [domain] being enforced by the database.  [clean] is not
    called. *)
Definition save (self : Tenant) : M unit :=
  st ← get_store;
  let others := filter (λ t, t_id t ≠ t_id self) (tenants st) in
  if decide (Exists (λ t, t_slug t = t_slug self
                          ∨ (is_Some (t_domain self) ∧ t_domain t = t_domain self))
               others)
  then raise IntegrityError
  else put_store (set_tenants st (others ++ [self])).

End Tenant.

Module TenantMembership.

(** [TenantMembership.get_permissions] *)
Definition get_permissions (self : TenantMembership) : M (gset string) :=
  run_query (QMembershipPermissions (m_id self))
    (λ st,
       let rows := values_list_permissions_codename st
                     (filter (λ r, r_is_active r = true) (roles_of st (m_id self))) in
       Ok (set_omap id ((list_to_set rows : gset (option string)) ∖ {[None]}))).

(** [TenantMembership.has_permission] *)
Definition has_permission (self : TenantMembership) (permission_codename : string)
    : M bool :=
  run_query (QMembershipHasPermission (m_id self) permission_codename)
    (λ st,
       let rows := filter (λ r, r_is_active r = true
                                ∧ Exists (λ p, p_codename p = permission_codename)
                                    (permissions_of st (r_id r)))
                     (roles_of st (m_id self)) in
       Ok (bool_decide (rows ≠ []))).

(** [TenantMembership.add_role].  [self.roles.add(role)] leaves a pair that
    is related already alone; a new through row carries two foreign keys,
    and the database refuses it when the membership or the role is in no
    table. *)
Definition add_role (self : TenantMembership) (role : Role) : M unit :=
  if decide (r_tenant_id role ≠ m_tenant_id self) then raise ValidationError
  else
    st ← get_store;
    if decide ((m_id self, r_id role) ∈ membership_roles st) then mret ()
    else if decide (m_id self ∈ m_id <$> memberships st ∧ r_id role ∈ r_id <$> roles st)
    then put_store (set_membership_roles st
                      (m2m_add (m_id self, r_id role) (membership_roles st)))
    else raise IntegrityError.

(** [TenantMembership.remove_role] *)
Definition remove_role (self : TenantMembership) (role : Role) : M unit :=
  st ← get_store;
  put_store (set_membership_roles st
               (m2m_remove (m_id self, r_id role) (membership_roles st))).

End TenantMembership.

Module Role.

(** [Role.get_permissions] *)
Definition get_permissions (self : Role) : Store → gset string :=
  λ st, list_to_set (p_codename <$> permissions_of st (r_id self)).

(** [Role.add_permission], with the foreign keys of the through row as in
    [add_role]. *)
Definition add_permission (self : Role) (permission : Permission) : M unit :=
  if decide (p_tenant_id permission ≠ r_tenant_id self) then raise ValidationError
  else
    st ← get_store;
    if decide ((r_id self, p_id permission) ∈ role_permissions st) then mret ()
    else if decide (r_id self ∈ r_id <$> roles st
                    ∧ p_id permission ∈ p_id <$> permissions st)
    then put_store (set_role_permissions st
                      (m2m_add (r_id self, p_id permission) (role_permissions st)))
    else raise IntegrityError.

End Role.

(** ** [utils.py] *)

(** [validate_tenant_context] *)
Definition validate_tenant_context (tenant : option Tenant) : result Tenant :=
  match tenant with
  | None => Raise InvalidTenantContextError
  | Some t => if negb (t_is_active t) then Raise InvalidTenantContextError else Ok t
  end.

Section Audit.
Context (cfg : Settings).

(** [audit_log]: nothing when auditing is disabled; otherwise one record,
    at level INFO on success and WARNING on failure.  The [permission]
    key is present only for a non-empty codename. *)
Definition audit_log (event : string) (user : option User) (tenant : option Tenant)
    (permission : option string) (success : bool)
    (request : option HttpRequest) (extra : option (option string)) : M unit :=
  if negb (AUDIT_ENABLED cfg) then mret ()
  else
    emit (EvAudit {|
      a_level := if success then INFO else WARNING;
      a_event := event;
      a_success := success;
      a_user := (λ u, (u_pk u, u_username u, u_is_superuser u)) <$> user;
      a_tenant := (λ t, (t_id t, t_slug t)) <$> tenant;
      a_permission := match permission with
                      | Some p => if Str.truthy p then Some p else None
                      | None => None
                      end;
      a_path := req_path <$> request;
      a_identifier := extra |}).

End Audit.

(** ** [permissions.py] *)

Module PermissionChecker.
Section WithSettings.
Context (cfg : Settings).

(** [PermissionChecker.check_permission] *)
Definition check_permission (user : User) (tenant : option Tenant)
    (permission_codename : string) (membership : option TenantMembership) : M bool :=
  (* Superuser bypass *)
  if SUPERUSER_BYPASS cfg && u_is_superuser user then mret true
  else
    (* Validate tenant context *)
    match validate_tenant_context tenant with
    | Raise _ => mret false
    | Ok _ =>
        (* Get membership if not provided *)
        found ← match membership with
                | Some m => mret (Some m)
                | None => find_active_membership user tenant
                end;
        match found with
        | None => mret false
        | Some m => TenantMembership.has_permission m permission_codename
        end
    end.

(** [PermissionChecker.get_user_permissions] *)
Definition get_user_permissions (user : User) (tenant : option Tenant)
    (membership : option TenantMembership) : M (gset string) :=
  (* Superuser gets all permissions *)
  if SUPERUSER_BYPASS cfg && u_is_superuser user then
    run_query (QTenantPermissions (t_id <$> tenant))
      (λ st, Ok (list_to_set
                   (p_codename <$>
                      filter (λ p, Some (p_tenant_id p) = t_id <$> tenant)
                        (permissions st))))
  else
    found ← match membership with
            | Some m => mret (Some m)
            | None => find_active_membership user tenant
            end;
    match found with
    | None => mret ∅
    | Some m => TenantMembership.get_permissions m
    end.

(** [PermissionChecker.has_any_permission] *)
Fixpoint has_any_permission (user : User) (tenant : option Tenant)
    (permissions : list string) (membership : option TenantMembership) : M bool :=
  match permissions with
  | [] => mret false
  | perm :: rest =>
      granted ← check_permission user tenant perm membership;
      if granted : bool then mret true
      else has_any_permission user tenant rest membership
  end.

(** [PermissionChecker.has_all_permissions] *)
Fixpoint has_all_permissions (user : User) (tenant : option Tenant)
    (permissions : list string) (membership : option TenantMembership) : M bool :=
  match permissions with
  | [] => mret true
  | perm :: rest =>
      granted ← check_permission user tenant perm membership;
      if negb granted then mret false
      else has_all_permissions user tenant rest membership
  end.

End WithSettings.
End PermissionChecker.

(** The identity context: a user, a tenant and three cache slots.  Methods
    that may fill a slot return the instance along with their result. *)
Record TenantUser := {
  tu_user : User;
  tu_tenant : option Tenant;
  _permission_cache : option (gset string);
  _membership_cache : option TenantMembership;
  _is_member_cache : option bool;
}.

Module TenantUser.

(** [TenantUser.__init__] *)
Definition __init__ (user : User) (tenant : option Tenant) : TenantUser :=
  {| tu_user := user; tu_tenant := tenant;
     _permission_cache := None; _membership_cache := None;
     _is_member_cache := None |}.

Definition set_membership_cache (self : TenantUser) (m : option TenantMembership)
    : TenantUser :=
  {| tu_user := tu_user self; tu_tenant := tu_tenant self;
     _permission_cache := _permission_cache self; _membership_cache := m;
     _is_member_cache := _is_member_cache self |}.

Definition set_permission_cache (self : TenantUser) (ps : option (gset string))
    : TenantUser :=
  {| tu_user := tu_user self; tu_tenant := tu_tenant self;
     _permission_cache := ps; _membership_cache := _membership_cache self;
     _is_member_cache := _is_member_cache self |}.

Definition set_is_member_cache (self : TenantUser) (b : option bool) : TenantUser :=
  {| tu_user := tu_user self; tu_tenant := tu_tenant self;
     _permission_cache := _permission_cache self;
     _membership_cache := _membership_cache self; _is_member_cache := b |}.

(** [TenantUser._get_membership] *)
Definition _get_membership (self : TenantUser) : M (option TenantMembership) :=
  find_active_membership (tu_user self) (tu_tenant self).

(** The [membership] property: fetched while the slot holds [None]. *)
Definition membership (self : TenantUser) : M (option TenantMembership * TenantUser) :=
  match _membership_cache self with
  | Some m => mret (Some m, self)
  | None =>
      m ← _get_membership self;
      mret (m, set_membership_cache self m)
  end.

(** [TenantUser.is_member] *)
Definition is_member (self : TenantUser) : M (bool * TenantUser) :=
  match _is_member_cache self with
  | Some b => mret (b, self)
  | None =>
      '(m, self) ← membership self;
      let b := bool_decide (is_Some m) in
      mret (b, set_is_member_cache self (Some b))
  end.

Section WithSettings.
Context (cfg : Settings).

(** [TenantUser.has_perm] *)
Definition has_perm (self : TenantUser) (perm : string) : M (bool * TenantUser) :=
  '(m, self) ← membership self;
  result ← PermissionChecker.check_permission cfg (tu_user self) (tu_tenant self) perm m;
  (* Log permission check *)
  _ ← audit_log cfg "permission_check" (Some (tu_user self)) (tu_tenant self)
        (Some perm) result None None;
  mret (result, self).

(** [TenantUser.has_perms]: [all(self.has_perm(perm) for perm in perm_list)] *)
Fixpoint has_perms (self : TenantUser) (perm_list : list string)
    : M (bool * TenantUser) :=
  match perm_list with
  | [] => mret (true, self)
  | perm :: rest =>
      '(granted, self) ← has_perm self perm;
      if granted : bool then has_perms self rest else mret (false, self)
  end.

(** [TenantUser.get_all_permissions] *)
Definition get_all_permissions (self : TenantUser) : M (gset string * TenantUser) :=
  match _permission_cache self with
  | Some ps => mret (ps, self)
  | None =>
      '(m, self) ← membership self;
      ps ← PermissionChecker.get_user_permissions cfg (tu_user self) (tu_tenant self) m;
      mret (ps, set_permission_cache self (Some ps))
  end.

End WithSettings.
End TenantUser.

(** ** [resolvers.py] *)

(** [BaseTenantResolver.get_tenant_by_slug] *)
Definition get_tenant_by_slug (slug : string) : M Tenant :=
  tenant ← try_except
              (run_query (QTenantBySlug (Str.lower slug))
                 (λ st, objects_get (filter (λ t, t_slug t = Str.lower slug) (tenants st))))
              (λ e, match e with
                    | DoesNotExist => raise (TenantNotFoundError (Some slug))
                    | _ => raise e
                    end);
  if negb (t_is_active tenant) then raise (TenantInactiveError tenant)
  else mret tenant.

(** [BaseTenantResolver.get_tenant_by_domain] *)
Definition get_tenant_by_domain (domain : string) : M Tenant :=
  tenant ← try_except
              (run_query (QTenantByDomain (Str.lower domain))
                 (λ st, objects_get
                          (filter (λ t, t_domain t = Some (Str.lower domain)) (tenants st))))
              (λ e, match e with
                    | DoesNotExist => raise (TenantNotFoundError (Some domain))
                    | _ => raise e
                    end);
  if negb (t_is_active tenant) then raise (TenantInactiveError tenant)
  else mret tenant.

(** [if ":" in host: host = host.split(":")[0]] *)
Definition strip_port (host : string) : string :=
  if Str.contains ":" host then Str.split_head ":" host else host.

(** [SubdomainTenantResolver._extract_subdomain] *)
Definition _extract_subdomain (base_domain host : string) : option string :=
  let base := Str.lower base_domain in
  let host := Str.lower host in
  if negb (Str.endswith host ("." +:+ base)) then None
  else
    (* Remove the base domain to get the subdomain *)
    let subdomain := Str.slice_to_neg host (String.length base + 1) in
    (* Handle nested subdomains (take the first part) *)
    let subdomain :=
      if Str.contains "." subdomain then Str.split_head "." subdomain else subdomain in
    if Str.truthy subdomain then Some subdomain else None.

Section Resolvers.
(** Python's [re]: compiled patterns, [re.compile] (which may fail) and
    [pattern.match], which gives the named groups of a match. *)
Context {Pattern : Type}.
Context (re_compile : string → result Pattern).
Context (re_match : Pattern → string → option (gmap string (option string))).
Context (cfg : Settings).

(** The four resolver classes with their instance attributes. *)
Inductive Resolver :=
  | DomainTenantResolver
  | SubdomainTenantResolver (base_domain : string)
  | PathTenantResolver (pattern : Pattern)
  | HeaderTenantResolver (header_key : string).

(** [SubdomainTenantResolver.__init__] *)
Definition SubdomainTenantResolver__init__ : result Resolver :=
  match BASE_DOMAIN cfg with
  | Some base => if Str.truthy base then Ok (SubdomainTenantResolver base)
                 else Raise ValueError
  | None => Raise ValueError
  end.

(** [PathTenantResolver.__init__] *)
Definition PathTenantResolver__init__ : result Resolver :=
  match re_compile (TENANT_PATH_PATTERN cfg) with
  | Ok p => Ok (PathTenantResolver p)
  | Raise e => Raise e
  end.

(** [HeaderTenantResolver.__init__] *)
Definition HeaderTenantResolver__init__ : result Resolver :=
  Ok (HeaderTenantResolver
        ("HTTP_" +:+ Str.replace "-" "_" (Str.upper (TENANT_HEADER_NAME cfg)))).

(** [resolve] of each class. *)
Definition resolve (self : Resolver) (request : HttpRequest) : M Tenant :=
  match self with
  | DomainTenantResolver =>
      let host := strip_port (req_host request) in
      get_tenant_by_domain host
  | SubdomainTenantResolver base_domain =>
      let host := strip_port (req_host request) in
      match _extract_subdomain base_domain host with
      | None => raise (TenantNotFoundError (Some host))
      | Some subdomain =>
          if negb (Str.truthy subdomain) then raise (TenantNotFoundError (Some host))
          else get_tenant_by_slug subdomain
      end
  | PathTenantResolver pattern =>
      let path := req_path request in
      match re_match pattern path with
      | None => raise (TenantNotFoundError (Some path))
      | Some groups =>
          match groups !! "tenant_slug" with
          | None => raise (TenantNotFoundError (Some path))
          | Some None => raise (OtherError "AttributeError")
          | Some (Some slug) => get_tenant_by_slug slug
          end
      end
  | HeaderTenantResolver header_key =>
      match req_META request !! header_key with
      | None => raise (TenantNotFoundError None)
      | Some slug =>
          if negb (Str.truthy slug) then raise (TenantNotFoundError None)
          else get_tenant_by_slug slug
      end
  end.

(** [get_resolver]: [RESOLVER_REGISTRY[strategy]()]. *)
Definition get_resolver (strategy : option string) : result Resolver :=
  let strategy := match strategy with
                  | Some s => s
                  | None => TENANT_RESOLUTION_STRATEGY cfg
                  end in
  let strategy := Str.lower strategy in
  if decide (strategy = "domain") then Ok DomainTenantResolver
  else if decide (strategy = "subdomain") then SubdomainTenantResolver__init__
  else if decide (strategy = "path") then PathTenantResolver__init__
  else if decide (strategy = "header") then HeaderTenantResolver__init__
  else Raise ValueError.

(** ** [middleware.py] *)

(** What a not-found handler hands back: a response, or a value for the
    tenant slot. *)
Inductive HandlerResult :=
  | HResponse (response : HttpResponse)
  | HValue (tenant : option Tenant).

Definition Handler : Type :=
  HttpRequest → exn → Store → result HandlerResult * Store.

(** [handlers.py].  [default_tenant_not_found] reads
    [exception.identifier], which only [TenantNotFoundError] has. *)
Definition default_tenant_not_found : Handler :=
  λ request exception st,
    match exception with
    | TenantNotFoundError _ => (Raise Http404, st)
    | _ => (Raise (OtherError "AttributeError"), st)
    end.

Definition return_none_on_tenant_not_found : Handler :=
  λ request exception st, (Ok (HValue None), st).

(** The rest of the pipeline and Django's [import_string]. *)
Context (get_response : HttpRequest → Store → result HttpResponse * Store).
Context (import_string : string → result Handler).

Record TenantResolutionMiddleware := {
  _resolver : option Resolver;
  _exempt_patterns : list Pattern;
}.

(** Calling out of the stage: the call is logged, the callee works on the
    store. *)
Definition call_get_response (request : HttpRequest) : M HttpResponse :=
  _ ← emit (EvGetResponse request);
  call_out (get_response request).

Definition call_handler (handler : Handler) (request : HttpRequest) (e : exn)
    : M HandlerResult :=
  _ ← emit (EvHandler request e);
  call_out (handler request e).

Definition call_resolve (r : Resolver) (request : HttpRequest) : M Tenant :=
  _ ← emit (EvResolve request);
  resolve r request.

(** [TenantResolutionMiddleware.__init__]: the exemption patterns are
    compiled once. *)
Definition _compile_exempt_patterns : result (list Pattern) :=
  foldr (λ pattern acc,
           match re_compile pattern, acc with
           | Ok p, Ok ps => Ok (p :: ps)
           | Raise e, _ => Raise e
           | _, Raise e => Raise e
           end) (Ok []) (TENANT_EXEMPT_URLS cfg).

Definition __init__ : result TenantResolutionMiddleware :=
  match _compile_exempt_patterns with
  | Ok ps => Ok {| _resolver := None; _exempt_patterns := ps |}
  | Raise e => Raise e
  end.

(** The lazily loaded [resolver] property. *)
Definition resolver (self : TenantResolutionMiddleware)
    : M (Resolver * TenantResolutionMiddleware) :=
  match _resolver self with
  | Some r => mret (r, self)
  | None =>
      r ← lift (get_resolver None);
      mret (r, {| _resolver := Some r; _exempt_patterns := _exempt_patterns self |})
  end.

(** [TenantResolutionMiddleware._is_exempt] *)
Definition _is_exempt (self : TenantResolutionMiddleware) (path : string) : bool :=
  existsb (λ pattern, bool_decide (is_Some (re_match pattern path)))
    (_exempt_patterns self).

(** [TenantResolutionMiddleware._get_handler] *)
Definition _get_handler : result (option Handler) :=
  let handler_path := TENANT_NOT_FOUND_HANDLER cfg in
  if decide (handler_path = "raise") then Ok None
  else if decide (handler_path = "none") then
    Ok (Some (λ req exc st, (Ok (HValue None), st)))
  else
    match import_string handler_path with
    | Ok h => Ok (Some h)
    | Raise e => Raise e
    end.

(** [TenantResolutionMiddleware.__call__].  The [try] block yields the
    request to pass on, the [except] block that or the handler's
    response. *)
Definition __call__ (self : TenantResolutionMiddleware) (request : HttpRequest)
    : M (HttpResponse * TenantResolutionMiddleware) :=
  (* Initialize tenant as None *)
  let request := set_tenant request None in
  (* Skip tenant resolution for exempt URLs *)
  if _is_exempt self (req_path request) then
    response ← call_get_response request;
    mret (response, self)
  else
    '(r, self) ← resolver self;
    outcome ← try_except
      (tenant ← call_resolve r request;
       let request := set_tenant request (Some tenant) in
       _ ← audit_log cfg "tenant_resolved" (req_user request) (req_tenant request)
             None true (Some request) None;
       mret (inl request))
      (λ e,
         match e with
         | TenantNotFoundError _ | TenantInactiveError _ =>
             _ ← audit_log cfg "tenant_resolution_failed" (req_user request) None
                   None false (Some request)
                   (Some (match e with
                          | TenantNotFoundError identifier => identifier
                          | _ => None
                          end));
             handler ← lift _get_handler;
             match handler with
             | None => raise e
             | Some handler =>
                 result ← call_handler handler request e;
                 match result with
                 | HResponse response => mret (inr response)
                 | HValue v => mret (inl (set_tenant request v))
                 end
             end
         | _ => raise e
         end);
    match outcome with
    | inr response => mret (response, self)
    | inl request =>
        response ← call_get_response request;
        mret (response, self)
    end.

End Resolvers.

(** ** The authorization rule in the specification's words *)

(** The tenant is present and active. *)
Definition tenant_present_and_active (tenant : option Tenant) : Prop :=
  ∃ t, tenant = Some t ∧ t_is_active t = true.

(** [m] is an active membership row for (user, tenant). *)
Definition is_active_membership (st : Store) (user : User) (tenant : option Tenant)
    (m : TenantMembership) : Prop :=
  m ∈ memberships st ∧ m_user_id m = u_pk user
  ∧ Some (m_tenant_id m) = t_id <$> tenant ∧ m_is_active m = true.

(** One of the membership's roles is active and is assigned a permission
    with exactly this codename. *)
Definition active_role_grants (st : Store) (m : TenantMembership) (codename : string)
    : Prop :=
  ∃ r p, r ∈ roles st ∧ (m_id m, r_id r) ∈ membership_roles st
         ∧ r_is_active r = true
         ∧ p ∈ permissions st ∧ (r_id r, p_id p) ∈ role_permissions st
         ∧ p_codename p = codename.

(** The tenant owns a permission with this codename. *)
Definition tenant_owns (st : Store) (tenant : option Tenant) (codename : string) : Prop :=
  ∃ t p, tenant = Some t ∧ p ∈ permissions st ∧ p_tenant_id p = t_id t
         ∧ p_codename p = codename.

(** ** Audit records and event bookkeeping *)

(** The record of one permission check: event [permission_check], tagged
    with the user, the tenant, the checked codename and the outcome. *)
Definition permission_check_record (user : User) (tenant : option Tenant)
    (perm : string) (outcome : bool) : AuditData := {|
  a_level := if outcome then INFO else WARNING;
  a_event := "permission_check";
  a_success := outcome;
  a_user := Some (u_pk user, u_username user, u_is_superuser user);
  a_tenant := (λ t, (t_id t, t_slug t)) <$> tenant;
  a_permission := if Str.truthy perm then Some perm else None;
  a_path := None;
  a_identifier := None;
|}.

(** What reaches the audit logger under the configuration. *)
Definition audited (cfg : Settings) (records : list AuditData) : list AuditData :=
  if AUDIT_ENABLED cfg then records else [].

(** [m] only appends to the log, and what it appends satisfies [P]. *)
Definition appends (P : list Event → Prop) {A} (m : M A) : Prop :=
  ∀ w, ∃ evs, log (m w).2 = log w ++ evs ∧ P evs.

Definition no_audit (evs : list Event) : Prop := audit_events evs = [].
Definition no_resolve (evs : list Event) : Prop := resolver_calls evs = [].

(** ** A small deployment, used in the examples *)

Definition acme : Tenant :=
  {| t_id := 1%N; t_name := "Acme"; t_slug := "acme"; t_domain := None;
     t_is_active := true |}.
Definition globex : Tenant :=
  {| t_id := 2%N; t_name := "Globex"; t_slug := "globex";
     t_domain := Some "globex.com"; t_is_active := false |}.

Definition alice : User :=
  {| u_pk := 1%Z; u_username := "alice"; u_is_authenticated := true;
     u_is_superuser := false |}.
Definition root : User :=
  {| u_pk := 2%Z; u_username := "root"; u_is_authenticated := true;
     u_is_superuser := true |}.

Definition alice_at_acme : TenantMembership :=
  {| m_id := 10%N; m_user_id := 1%Z%N; m_tenant_id := 1%N; m_is_active := true |}.

Definition manager : Role :=
  {| r_id := 20%N; r_tenant_id := 1%N; r_name := "Manager"; r_is_active := true |}.
Definition legacy : Role :=
  {| r_id := 21%N; r_tenant_id := 1%N; r_name := "Legacy"; r_is_active := false |}.
Definition intern : Role :=
  {| r_id := 22%N; r_tenant_id := 1%N; r_name := "Intern"; r_is_active := true |}.
Definition globex_admin : Role :=
  {| r_id := 23%N; r_tenant_id := 2%N; r_name := "Admin"; r_is_active := true |}.

Definition view_order : Permission :=
  {| p_id := 30%N; p_tenant_id := 1%N; p_codename := "orders.view_order";
     p_name := "Can view order" |}.
Definition delete_order : Permission :=
  {| p_id := 31%N; p_tenant_id := 1%N; p_codename := "orders.delete_order";
     p_name := "Can delete order" |}.
Definition globex_all : Permission :=
  {| p_id := 32%N; p_tenant_id := 2%N; p_codename := "admin.all";
     p_name := "Everything" |}.

(** Alice is a member of Acme with the roles Manager (view), Legacy
    (delete, but deactivated) and Intern (no permission). *)
Definition demo_store : Store := {|
  tenants := [acme; globex];
  memberships := [alice_at_acme];
  roles := [manager; legacy; intern; globex_admin];
  permissions := [view_order; delete_order; globex_all];
  membership_roles := [(10, 20); (10, 21); (10, 22)]%N;
  role_permissions := [(20, 30); (21, 31); (23, 32)]%N;
|}.

Definition demo_world : World := {| store := demo_store; log := [] |}.

Definition empty_store : Store := {|
  tenants := []; memberships := []; roles := []; permissions := [];
  membership_roles := []; role_permissions := [];
|}.

(** A stand-in for [re] in the examples: a pattern is a literal prefix and
    a match has no named group. *)
Definition prefix_match (pattern path : string)
    : option (gmap string (option string)) :=
  if String.prefix pattern path then Some ∅ else None.

Definition demo_settings : Settings := {|
  TENANT_RESOLUTION_STRATEGY := "subdomain";
  TENANT_PATH_PATTERN := "/t/";
  TENANT_HEADER_NAME := "X-Tenant-Slug";
  TENANT_NOT_FOUND_HANDLER := "none";
  SUPERUSER_BYPASS := true;
  AUDIT_ENABLED := true;
  TENANT_EXEMPT_URLS := ["/admin/"; "/health"];
  BASE_DOMAIN := Some "example.com";
|}.

Definition demo_middleware : @TenantResolutionMiddleware string :=
  {| _resolver := None; _exempt_patterns := ["/admin/"; "/health"] |}.

Definition demo_get_response (request : HttpRequest) (st : Store)
    : result HttpResponse * Store :=
  (Ok {| status_code := 200; content := "" |}, st).

Definition demo_import_string (path : string) : result Handler :=
  if decide (path = "tenant_authx.handlers.default_tenant_not_found")
  then Ok default_tenant_not_found
  else if decide (path = "tenant_authx.handlers.return_none_on_tenant_not_found")
  then Ok return_none_on_tenant_not_found
  else Raise ImportError.

Definition demo_request (host path : string) : HttpRequest :=
  {| req_host := host; req_path := path; req_META := ∅;
     req_user := Some alice; req_tenant := Some globex |}.

(** ** More of [utils.py] *)

(** [is_valid_tenant_context] *)
Definition is_valid_tenant_context (tenant : option Tenant) : bool :=
  match tenant with
  | None => false
  | Some t => if negb (t_is_active t) then false else true
  end.

(** The character classes of the codename pattern. *)
Definition is_lower_letter (c : ascii) : bool :=
  let n := nat_of_ascii c in (97 <=? n)%nat && (n <=? 122)%nat.

Definition is_word_char (c : ascii) : bool :=
  let n := nat_of_ascii c in
  is_lower_letter c || ((48 <=? n)%nat && (n <=? 57)%nat) || Ascii.eqb c "_".

(** [[a-z0-9_]*]: what follows it in the pattern (a dot, the end) is outside
    the class, so the only way to match is to consume the whole run. *)
Fixpoint skip_word_chars (s : string) : string :=
  match s with
  | String c s' => if is_word_char c then skip_word_chars s' else s
  | EmptyString => EmptyString
  end.

(** [[a-z][a-z0-9_]*] at the head of [s]: the rest of [s], if it matches. *)
Definition match_segment (s : string) : option string :=
  match s with
  | String c s' => if is_lower_letter c then Some (skip_word_chars s') else None
  | EmptyString => None
  end.

(** [$] without [re.MULTILINE]: the end of the string, or just before a
    newline that ends the string. *)
Definition at_dollar (s : string) : bool :=
  match s with
  | EmptyString => true
  | String c EmptyString => Ascii.eqb c "010"
  | _ => false
  end.

(** [PERMISSION_CODENAME_PATTERN.match(codename)] for the pattern
    [^[a-z][a-z0-9_]*\.[a-z][a-z0-9_]*$] of [utils.py] and [models.py]. *)
Definition PERMISSION_CODENAME_PATTERN_match (codename : string) : bool :=
  match match_segment codename with
  | Some (String c rest) =>
      if Ascii.eqb c "." then
        match match_segment rest with
        | Some tail => at_dollar tail
        | None => false
        end
      else false
  | _ => false
  end.

(** [validate_permission_codename] (its [InvalidPermissionFormat] is an
    [OtherError]). *)
Definition validate_permission_codename (codename : string) : result string :=
  if negb (Str.truthy codename) then Raise (OtherError "InvalidPermissionFormat")
  else if negb (PERMISSION_CODENAME_PATTERN_match codename)
  then Raise (OtherError "InvalidPermissionFormat")
  else Ok codename.

(** [is_valid_permission_codename] *)
Definition is_valid_permission_codename (codename : string) : bool :=
  if negb (Str.truthy codename) then false
  else PERMISSION_CODENAME_PATTERN_match codename.

(** [normalize_permission_list]: a single string or an iterable of them. *)
Definition normalize_permission_list (perms : string + list string) : list string :=
  match perms with
  | inl perm => [perm]
  | inr perm_list => perm_list
  end.

(** ** More of [models.py]

    The reads of these operations have no event of their own in the log. *)

Module Permission.

(** [Permission.clean]: only a non-empty codename is matched against the
    pattern. *)
Definition clean (self : Permission) : result unit :=
  if Str.truthy (p_codename self)
     && negb (PERMISSION_CODENAME_PATTERN_match (p_codename self))
  then Raise ValidationError
  else Ok ().

End Permission.

Definition set_memberships (st : Store) (rows : list TenantMembership) : Store :=
  {| tenants := tenants st; memberships := rows; roles := roles st;
     permissions := permissions st; membership_roles := membership_roles st;
     role_permissions := role_permissions st |}.

(** [related.set(objs)] on a through table, for the owner [owner]: rows of
    the owner to objects outside [targets] are removed, the missing ones are
    added. *)
Definition m2m_set (owner : uuid) (targets : list uuid) (table : list (uuid * uuid))
    : list (uuid * uuid) :=
  foldl (λ tbl target, m2m_add (owner, target) tbl)
    (filter (λ row, row.1 ≠ owner ∨ row.2 ∈ targets) table) targets.

Module TenantOps.

(** [Tenant.get_membership]: the membership of the user, active or not. *)
Definition get_membership (self : Tenant) (user : User) : M (option TenantMembership) :=
  st ← get_store;
  match objects_get (filter (λ m, m_tenant_id m = t_id self ∧ m_user_id m = u_pk user)
                       (memberships st)) with
  | Ok m => mret (Some m)
  | Raise DoesNotExist => mret None
  | Raise e => raise e
  end.

(** [Tenant.add_member].  [new_id] is the [uuid4] drawn for the new row.
    [get_or_create] looks the pair (user, tenant) up and creates the row
    when there is none; the database refuses a row whose primary key is
    taken or whose tenant does not exist, and a through row to a role that
    does not exist (the user table is outside the store).  The membership
    is written before the roles are set. *)
Definition add_member (new_id : uuid) (self : Tenant) (user : User)
    (role_list : list Role) (is_active : bool) : M TenantMembership :=
  st ← get_store;
  match filter (λ m, m_user_id m = u_pk user ∧ m_tenant_id m = t_id self)
          (memberships st) with
  | [] =>
      let membership := {| m_id := new_id; m_user_id := u_pk user;
                           m_tenant_id := t_id self; m_is_active := is_active |} in
      if decide (new_id ∈ m_id <$> memberships st) then raise IntegrityError
      else if decide (t_id self ∉ t_id <$> tenants st) then raise IntegrityError
      else
        _ ← put_store (set_memberships st (memberships st ++ [membership]));
        match role_list with
        | [] => mret membership
        | _ =>
            if decide (Forall (λ r, r_id r ∈ r_id <$> roles st) role_list) then
              st' ← get_store;
              _ ← put_store (set_membership_roles st'
                               (m2m_set new_id (r_id <$> role_list)
                                  (membership_roles st')));
              mret membership
            else raise IntegrityError
        end
  | [_] => raise ValidationError
  | _ => raise MultipleObjectsReturned
  end.

End TenantOps.

(** ** More of [permissions.py] *)

Module TenantUserOps.

(** [TenantUser.get_roles]: [self.membership] is read twice. *)
Definition get_roles (self : TenantUser) : M (list Role * TenantUser) :=
  '(m, self) ← TenantUser.membership self;
  match m with
  | None => mret ([], self)
  | Some _ =>
      '(m, self) ← TenantUser.membership self;
      match m with
      | None => raise (OtherError "AttributeError")
      | Some m =>
          st ← get_store;
          mret (filter (λ r, r_is_active r = true) (roles_of st (m_id m)), self)
      end
  end.

(** [any(tenant_user.has_perm(p) for p in perm_list)], as the guards
    write it. *)
Fixpoint any_has_perm (cfg : Settings) (self : TenantUser) (perm_list : list string)
    : M (bool * TenantUser) :=
  match perm_list with
  | [] => mret (false, self)
  | perm :: rest =>
      '(granted, self) ← TenantUser.has_perm cfg self perm;
      if granted : bool then mret (true, self) else any_has_perm cfg self rest
  end.

End TenantUserOps.

(** ** [backends.py] *)

(** [TenantAwareAuthBackend._verify_tenant_membership].  The [reason] of
    its audit records is not carried by [AuditData]. *)
Definition _verify_tenant_membership (cfg : Settings) (user : User) (tenant : Tenant)
    (request : option HttpRequest) : M bool :=
  (* Superusers can access any tenant *)
  if u_is_superuser user then mret true
  else
    st ← get_store;
    let has_membership :=
      bool_decide (active_memberships st (u_pk user) (Some (t_id tenant)) ≠ []) in
    if negb has_membership then
      _ ← audit_log cfg "authentication_failed" (Some user) (Some tenant) None false
            request None;
      mret false
    else if negb (t_is_active tenant) then
      _ ← audit_log cfg "authentication_failed" (Some user) (Some tenant) None false
            request None;
      mret false
    else mret true.

(** ** [decorators.py] and [drf/permissions.py] *)

Section Guards.
(** The configuration, the wrapped view, Django's [redirect_to_login],
    [request.build_absolute_uri], [settings.LOGIN_URL] and Python's [str]
    on a list of codenames. *)
Context (cfg : Settings).
Context (view_func : HttpRequest → Store → result HttpResponse * Store).
Context (redirect_to_login : string → string → string → HttpResponse).
Context (build_absolute_uri : HttpRequest → string).
Context (LOGIN_URL : string).
Context (str_of_list : list string → string).

(** [login_url or default] *)
Definition login_url_or (login_url : option string) (default : string) : string :=
  match login_url with
  | Some url => if Str.truthy url then url else default
  | None => default
  end.

(** [getattr(request, "tenant_user", None)], or a new [TenantUser]. *)
Definition get_or_create_tenant_user (slot : option TenantUser) (user : User)
    (tenant : Tenant) : TenantUser :=
  match slot with
  | Some tenant_user => tenant_user
  | None => TenantUser.__init__ user (Some tenant)
  end.

(** The wrapped view of [tenant_login_required].  [tenant_user] is the
    request's [tenant_user] slot; the [reason] of the audit records is not
    carried. *)
Definition tenant_login_required (redirect_field_name : string)
    (login_url : option string) (request : HttpRequest)
    (tenant_user : option TenantUser) : M HttpResponse :=
  match req_user request with
  | None => raise (OtherError "AttributeError")
  | Some user =>
      (* Check authentication *)
      if negb (u_is_authenticated user) then
        mret (redirect_to_login (build_absolute_uri request)
                (login_url_or login_url LOGIN_URL) redirect_field_name)
      else
        (* Check tenant exists *)
        match req_tenant request with
        | None =>
            _ ← audit_log cfg "access_denied" (Some user) None None false
                  (Some request) None;
            raise (OtherError "PermissionDenied")
        | Some tenant =>
            let tenant_user := get_or_create_tenant_user tenant_user user tenant in
            (* Allow superusers to bypass membership check *)
            if SUPERUSER_BYPASS cfg && u_is_superuser user then
              call_get_response view_func request
            else
              '(member, tenant_user) ← TenantUser.is_member tenant_user;
              if negb member then
                _ ← audit_log cfg "access_denied" (Some user) (Some tenant) None false
                      (Some request) None;
                raise (OtherError "PermissionDenied")
              else
                (* All checks passed *)
                call_get_response view_func request
        end
  end.

(** [str(perm)] *)
Definition str_of_perm (perm : string + list string) : string :=
  match perm with
  | inl p => p
  | inr l => str_of_list l
  end.

(** The wrapped view of [tenant_permission_required]. *)
Definition tenant_permission_required (perm : string + list string)
    (redirect_field_name : string) (login_url : option string)
    (raise_exception require_all : bool) (request : HttpRequest)
    (tenant_user : option TenantUser) : M HttpResponse :=
  match req_user request with
  | None => raise (OtherError "AttributeError")
  | Some user =>
      if negb (u_is_authenticated user) then
        mret (redirect_to_login (build_absolute_uri request)
                (login_url_or login_url LOGIN_URL) redirect_field_name)
      else
        match req_tenant request with
        | None =>
            if raise_exception then raise (OtherError "PermissionDenied")
            else mret (redirect_to_login (build_absolute_uri request)
                         (login_url_or login_url LOGIN_URL) redirect_field_name)
        | Some tenant =>
            (* Get or create TenantUser *)
            let tenant_user := get_or_create_tenant_user tenant_user user tenant in
            (* Allow superusers to bypass all checks *)
            if SUPERUSER_BYPASS cfg && u_is_superuser user then
              call_get_response view_func request
            else
              (* Check membership *)
              '(member, tenant_user) ← TenantUser.is_member tenant_user;
              if negb member then
                _ ← audit_log cfg "access_denied" (Some user) (Some tenant) None false
                      (Some request) None;
                if raise_exception then raise (OtherError "PermissionDenied")
                else mret (redirect_to_login (build_absolute_uri request)
                             (login_url_or login_url LOGIN_URL) redirect_field_name)
              else
                (* Check permissions *)
                let perm_list := normalize_permission_list perm in
                '(has_perms, tenant_user) ←
                  (if require_all then TenantUser.has_perms cfg tenant_user perm_list
                   else TenantUserOps.any_has_perm cfg tenant_user perm_list);
                if negb has_perms then
                  _ ← audit_log cfg "access_denied" (Some user) (Some tenant)
                        (Some (str_of_perm perm)) false (Some request) None;
                  if raise_exception then raise (OtherError "PermissionDenied")
                  else mret (redirect_to_login (build_absolute_uri request)
                               (login_url_or login_url "/permission-denied/")
                               redirect_field_name)
                else
                  (* All checks passed *)
                  call_get_response view_func request
        end
  end.

(** [IsTenantMember.has_permission] *)
Definition IsTenantMember_has_permission (request : HttpRequest)
    (tenant_user : option TenantUser) : M bool :=
  match req_user request with
  | None => mret false
  | Some user =>
      (* Must be authenticated *)
      if negb (u_is_authenticated user) then mret false
      else
        (* Must have tenant context *)
        match req_tenant request with
        | None => mret false
        | Some tenant =>
            (* Superusers pass *)
            if u_is_superuser user then mret true
            else
              let tenant_user := get_or_create_tenant_user tenant_user user tenant in
              '(is_member, tenant_user) ← TenantUser.is_member tenant_user;
              _ ← (if negb is_member then
                     audit_log cfg "api_permission_denied" (Some user) (Some tenant)
                       None false None None
                   else mret ());
              mret is_member
        end
  end.

(** [TenantPermission.get_required_permissions]: the view's attribute when
    it is set and non-empty, the class attribute otherwise. *)
Definition get_required_permissions (required_permissions : list string)
    (view_perms : option (list string)) : list string :=
  match view_perms with
  | Some (p :: ps) => p :: ps
  | _ => required_permissions
  end.

(** [TenantPermission.has_permission] *)
Definition TenantPermission_has_permission (required_permissions : list string)
    (require_all : bool) (view_perms : option (list string))
    (request : HttpRequest) (tenant_user : option TenantUser) : M bool :=
  match req_user request with
  | None => mret false
  | Some user =>
      if negb (u_is_authenticated user) then mret false
      else
        match req_tenant request with
        | None => mret false
        | Some tenant =>
            if u_is_superuser user then mret true
            else
              let tenant_user := get_or_create_tenant_user tenant_user user tenant in
              (* Check membership first *)
              '(member, tenant_user) ← TenantUser.is_member tenant_user;
              if negb member then mret false
              else
                let perms := get_required_permissions required_permissions view_perms in
                match perms with
                | [] => mret true
                | _ =>
                    '(has_perms, tenant_user) ←
                      (if require_all then TenantUser.has_perms cfg tenant_user perms
                       else TenantUserOps.any_has_perm cfg tenant_user perms);
                    _ ← (if negb has_perms then
                           audit_log cfg "api_permission_denied" (Some user)
                             (Some tenant) (Some (str_of_list perms)) false None None
                         else mret ());
                    mret has_perms
                end
        end
  end.

End Guards.

(** The same things in the specification's words. *)

(** The caches of an identity context agree with the store: a cached
    membership is the active membership of its (user, tenant), a cached
    membership flag says whether there is one. *)
Definition caches_agree (st : Store) (self : TenantUser) : Prop :=
  (∀ m, _membership_cache self = Some m →
        is_active_membership st (tu_user self) (tu_tenant self) m)
  ∧ (∀ b, _is_member_cache self = Some b →
          (b = true ↔ ∃ m, is_active_membership st (tu_user self) (tu_tenant self) m)).

(** The [tenant_user] slot of a request holds nothing, or an identity
    context for (user, tenant) whose caches agree with the store (the new
    context that [TenantUserMiddleware] builds is one). *)
Definition slot_agrees (st : Store) (user : User) (tenant : Tenant)
    (slot : option TenantUser) : Prop :=
  ∀ tenant_user, slot = Some tenant_user →
    tu_user tenant_user = user ∧ tu_tenant tenant_user = Some tenant
    ∧ caches_agree st tenant_user.

(** What [check_permission] decides without the bypass (C2). *)
Definition granted (st : Store) (user : User) (tenant : option Tenant)
    (codename : string) : Prop :=
  tenant_present_and_active tenant
  ∧ ∃ m, is_active_membership st user tenant m ∧ active_role_grants st m codename.

(** The codenames a guard asks for are allowed: all of them, or one. *)
Definition perms_granted (st : Store) (user : User) (tenant : Tenant)
    (require_all : bool) (perm_list : list string) : Prop :=
  if require_all
  then ∀ p, p ∈ perm_list → granted st user (Some tenant) p
  else ∃ p, p ∈ perm_list ∧ granted st user (Some tenant) p.

(** What [check_permission] decides: the bypass, or the rule. *)
Definition allowed (cfg : Settings) (st : Store) (user : User)
    (tenant : option Tenant) (codename : string) : Prop :=
  SUPERUSER_BYPASS cfg && u_is_superuser user = true
  ∨ granted st user tenant codename.

(** The unique constraints of the tenant table: primary key, [slug],
    [domain] (where set). *)
Definition tenants_unique (st : Store) : Prop :=
  NoDup (t_id <$> tenants st) ∧ NoDup (t_slug <$> tenants st)
  ∧ NoDup (omap t_domain (tenants st)).

(** Events of the permission engine: store queries and audit records. *)
Definition engine_events (l : list Event) : Prop :=
  Forall (λ ev, match ev with EvQuery _ | EvAudit _ => True | _ => False end) l.

(** The view was called. *)
Definition view_calls (l : list Event) : list HttpRequest :=
  omap (λ ev, match ev with EvGetResponse r => Some r | _ => None end) l.



(** [[a-z][a-z0-9_]*]: a lower-case letter followed by letters, digits and
    underscores. *)
Fixpoint all_chars (P : ascii → bool) (s : string) : bool :=
  match s with
  | EmptyString => true
  | String c s' => P c && all_chars P s'
  end.

Definition is_segment (s : string) : Prop :=
  ∃ c rest, s = String c rest ∧ is_lower_letter c = true
            ∧ all_chars is_word_char rest = true.

(** The number of occurrences of a character. *)
Fixpoint count_char (c : ascii) (s : string) : nat :=
  match s with
  | EmptyString => 0
  | String a s' => (if Ascii.eqb a c then 1 else 0) + count_char c s'
  end.

(** More example data: a role of Acme that nobody holds, a tenant that is
    not saved yet, a request in Acme, and Django's redirect. *)
Definition auditor : Role :=
  {| r_id := 24%N; r_tenant_id := 1%N; r_name := "Auditor"; r_is_active := true |}.

(** The example store with that role saved. *)
Definition demo_store_with_auditor : Store := {|
  tenants := tenants demo_store;
  memberships := memberships demo_store;
  roles := roles demo_store ++ [auditor];
  permissions := permissions demo_store;
  membership_roles := membership_roles demo_store;
  role_permissions := role_permissions demo_store;
|}.

(** A tenant whose slug ends in U+00E9, and the example store with it. *)
Definition cafe : Tenant :=
  {| t_id := 4%N; t_name := "Cafe"; t_slug := "caf" +:+ String "233" "";
     t_domain := None; t_is_active := true |}.

Definition cafe_store : Store := {|
  tenants := tenants demo_store ++ [cafe];
  memberships := memberships demo_store;
  roles := roles demo_store;
  permissions := permissions demo_store;
  membership_roles := membership_roles demo_store;
  role_permissions := role_permissions demo_store;
|}.

Definition initech : Tenant :=
  {| t_id := 3%N; t_name := "Initech"; t_slug := "IniTech";
     t_domain := Some "Initech.COM"; t_is_active := true |}.

Definition acme_request : HttpRequest :=
  {| req_host := "acme.example.com"; req_path := "/orders/"; req_META := ∅;
     req_user := Some alice; req_tenant := Some acme |}.

Definition demo_redirect_to_login (next login_url redirect_field_name : string)
    : HttpResponse :=
  {| status_code := 302; content := login_url +:+ "?" +:+ redirect_field_name +:+ "="
                                    +:+ next |}.


(** The example settings with the base domain left out: the subdomain
    resolver cannot be built. *)
Definition settings_without_base_domain : Settings := {|
  TENANT_RESOLUTION_STRATEGY := "subdomain";
  TENANT_PATH_PATTERN := "/t/";
  TENANT_HEADER_NAME := "X-Tenant-Slug";
  TENANT_NOT_FOUND_HANDLER := "none";
  SUPERUSER_BYPASS := true;
  AUDIT_ENABLED := true;
  TENANT_EXEMPT_URLS := ["/admin/"; "/health"];
  BASE_DOMAIN := None;
|}.


(** A capital letter below U+0100: A-Z, or one of U+00C0-U+00DE other
    than the multiplication sign. *)
Definition is_capital (c : ascii) : bool :=
  let n := nat_of_ascii c in
  ((65 <=? n)%nat && (n <=? 90)%nat)
  || ((192 <=? n)%nat && (n <=? 214)%nat)
  || ((216 <=? n)%nat && (n <=? 222)%nat).

Definition no_capital (s : string) : Prop :=
  all_chars (λ c, negb (is_capital c)) s = true.

(** * Properties *)

(** ** Running computations *)

Ltac unfold_M :=
  unfold mbind, M_bind, mret, M_ret, raise, try_except, emit, get_store,
    put_store, lift, run_query, call_out in *.

Lemma run_ret {A} (a : A) (w : World) : (mret a : M A) w = (Ok a, w).
Proof. reflexivity. Qed.

Lemma run_bind {A B} (m : M A) (f : A → M B) (w : World) :
  (m ≫= f) w = match m w with
               | (Ok a, w') => f a w'
               | (Raise e, w') => (Raise e, w')
               end.
Proof. reflexivity. Qed.

Lemma emitted_app {A} (m : M A) (w : World) (evs : list Event) :
  log (m w).2 = log w ++ evs → emitted m w = evs.
Proof. intros H. unfold emitted. rewrite H. apply drop_app_length. Qed.

(** ** Superuser bypass *)

(** C1: with the bypass enabled, [check_permission] answers [True] for a
    superuser whatever the tenant (active, inactive or [None]), the codename
    and the membership argument; the world is left as it was, so no
    membership was looked up and nothing was logged. *)
Theorem check_permission_superuser_bypass
    (cfg : Settings) (user : User) (tenant : option Tenant)
    (permission_codename : string) (membership : option TenantMembership) (w : World) :
  SUPERUSER_BYPASS cfg = true →
  u_is_superuser user = true →
  PermissionChecker.check_permission cfg user tenant permission_codename membership w
  = (Ok true, w).
Proof.
  intros Hbypass Hsuper. unfold PermissionChecker.check_permission.
  by rewrite Hbypass, Hsuper.
Qed.

(** ** Membership lookup *)

Lemma filter_unique_key {A K} (f : A → K) (k : K) (P : A → Prop)
    `{!∀ x, Decision (P x)} (l : list A) :
  NoDup (f <$> l) → (∀ x, P x → f x = k) → length (filter P l) ≤ 1.
Proof.
  intros Hnd Hkey. induction l as [|a l IH]; simpl; [lia|].
  rewrite fmap_cons in Hnd. apply NoDup_cons in Hnd as [Hnotin Hnd].
  rewrite filter_cons. case_decide as Ha; [|by apply IH].
  assert (filter P l = []) as ->; [|simpl; lia].
  apply elem_of_nil_inv. intros x [Hx Hin]%list_elem_of_filter.
  apply Hnotin. rewrite (Hkey a Ha), <- (Hkey x Hx).
  by apply list_elem_of_fmap_2.
Qed.

Lemma active_memberships_option (st : Store) (user_pk : Z) (tenant_pk : option uuid) :
  membership_unique st →
  ∃ found, active_memberships st user_pk tenant_pk = option_list found.
Proof.
  intros Hu. destruct tenant_pk as [tid|].
  - pose proof (filter_unique_key (λ m, (m_user_id m, m_tenant_id m)) (user_pk, tid)
      (λ m, m_user_id m = user_pk ∧ Some (m_tenant_id m) = Some tid
            ∧ m_is_active m = true) (memberships st) Hu) as Hlen.
    unfold active_memberships.
    destruct (filter _ (memberships st)) as [|m [|m' l]] eqn:E.
    + by exists None.
    + by exists (Some m).
    + exfalso. simpl in Hlen. cut (S (S (length l)) ≤ 1); [lia|].
      apply Hlen. intros x (-> & [= ->] & _). done.
  - exists None. unfold active_memberships.
    apply elem_of_nil_inv. intros x [(_ & ? & _) _]%list_elem_of_filter. done.
Qed.

Lemma active_memberships_spec (st : Store) (user : User) (tenant : option Tenant)
    (m : TenantMembership) :
  m ∈ active_memberships st (u_pk user) (t_id <$> tenant)
  ↔ is_active_membership st user tenant m.
Proof.
  unfold active_memberships, is_active_membership.
  rewrite list_elem_of_filter. tauto.
Qed.

(** Under the uniqueness constraint the lookup never raises: it logs its
    query and finds the active membership or nothing. *)
Lemma find_active_membership_run (st : Store) (lg : list Event) (user : User)
    (tenant : option Tenant) :
  membership_unique st →
  ∃ found,
    find_active_membership user tenant {| store := st; log := lg |}
    = (Ok found, {| store := st;
                    log := lg ++ [EvQuery (QMembershipGet (u_pk user) (t_id <$> tenant))] |})
    ∧ active_memberships st (u_pk user) (t_id <$> tenant) = option_list found.
Proof.
  intros Hu.
  destruct (active_memberships_option st (u_pk user) (t_id <$> tenant) Hu)
    as [found Hfound].
  exists found. split; [|done].
  unfold find_active_membership, get_active_membership. unfold_M. simpl.
  rewrite Hfound. by destruct found.
Qed.

Lemma option_list_elem_of {A} (o : option A) (x : A) :
  x ∈ option_list o ↔ o = Some x.
Proof.
  destruct o; simpl.
  - rewrite list_elem_of_singleton. naive_solver.
  - rewrite elem_of_nil. naive_solver.
Qed.

Lemma has_permission_run (st : Store) (lg : list Event) (m : TenantMembership)
    (codename : string) :
  ∃ b,
    TenantMembership.has_permission m codename {| store := st; log := lg |}
    = (Ok b, {| store := st;
                log := lg ++ [EvQuery (QMembershipHasPermission (m_id m) codename)] |})
    ∧ (b = true ↔ active_role_grants st m codename).
Proof.
  eexists. split; [reflexivity|]. simpl.
  rewrite bool_decide_eq_true. unfold active_role_grants. split.
  - intros Hne.
    destruct (filter _ (roles_of st (m_id m))) as [|r l] eqn:E; [done|].
    assert (r ∈ r :: l) as Hin by left. rewrite <- E in Hin.
    apply list_elem_of_filter in Hin as [[Hact Hex] Hr].
    apply list_elem_of_filter in Hr as [Hjoin Hr].
    apply Exists_exists in Hex as (p & Hp & Hc).
    apply list_elem_of_filter in Hp as [Hpj Hp].
    exists r, p. done.
  - intros (r & p & Hr & Hjoin & Hact & Hp & Hpj & Hc) Hnil.
    assert (r ∈ filter (λ r, r_is_active r = true
                             ∧ Exists (λ p, p_codename p = codename)
                                 (permissions_of st (r_id r)))
                  (roles_of st (m_id m))) as Hin.
    { apply list_elem_of_filter. split; [split; [done|]|].
      - apply Exists_exists. exists p. split; [|done].
        apply list_elem_of_filter. done.
      - apply list_elem_of_filter. done. }
    rewrite Hnil in Hin. by apply elem_of_nil in Hin.
Qed.

(** ** Permission evaluation *)

(** C2: without the bypass (the user is no superuser, or the bypass is
    disabled), [check_permission] returns, and returns [True] exactly when
    the tenant is present and active, an active membership row exists for
    (user, tenant), and one of that membership's roles is active and holds
    a permission with exactly that codename.  The membership argument is
    [None] or the pre-fetched active membership of (user, tenant). *)
Theorem check_permission_iff
    (cfg : Settings) (st : Store) (lg : list Event) (user : User)
    (tenant : option Tenant) (codename : string)
    (membership : option TenantMembership) :
  SUPERUSER_BYPASS cfg = false ∨ u_is_superuser user = false →
  membership_unique st →
  (∀ m, membership = Some m → is_active_membership st user tenant m) →
  ∃ b w',
    PermissionChecker.check_permission cfg user tenant codename membership
      {| store := st; log := lg |} = (Ok b, w')
    ∧ store w' = st
    ∧ (b = true ↔
       tenant_present_and_active tenant
       ∧ ∃ m, is_active_membership st user tenant m ∧ active_role_grants st m codename).
Proof.
  intros Hnb Hu Hpre. unfold PermissionChecker.check_permission.
  assert (SUPERUSER_BYPASS cfg && u_is_superuser user = false) as ->.
  { destruct Hnb as [-> | ->]; [done|]. apply andb_false_r. }
  unfold validate_tenant_context, tenant_present_and_active.
  destruct tenant as [t|]; [destruct (t_is_active t) eqn:Hact|]; simpl.
  - (* active tenant *)
    assert (∃ found lg',
      (match membership with
       | Some m => mret (Some m)
       | None => find_active_membership user (Some t)
       end) {| store := st; log := lg |} = (Ok found, {| store := st; log := lg' |})
      ∧ (∀ m, found = Some m ↔ is_active_membership st user (Some t) m))
      as (found & lg' & Hrun & Hfound).
    { destruct membership as [m|].
      - exists (Some m), lg. split; [done|]. intros m'. split.
        + intros [= <-]. by apply Hpre.
        + intros Hm'. f_equal.
          destruct (active_memberships_option st (u_pk user) (Some (t_id t)) Hu)
            as [o Ho].
          pose proof (Hpre m eq_refl) as Hm.
          apply (active_memberships_spec st user (Some t)) in Hm, Hm'. simpl in *.
          rewrite Ho in Hm, Hm'. apply option_list_elem_of in Hm, Hm'. congruence.
      - destruct (find_active_membership_run st lg user (Some t) Hu) as (found & Hr & Hl).
        eexists found, _. split; [exact Hr|]. intros m.
        rewrite <- active_memberships_spec. simpl in *. rewrite Hl.
        by rewrite option_list_elem_of. }
    rewrite run_bind, Hrun. destruct found as [m|].
    + destruct (has_permission_run st lg' m codename) as (b & Hb & Hiff).
      exists b. eexists. split; [exact Hb|]. split; [done|].
      rewrite Hiff. split.
      * intros Hg. split; [by exists t|]. exists m. split; [by apply Hfound|done].
      * intros (_ & m' & Hm' & Hg). apply Hfound in Hm'. by simplify_eq.
    + exists false. eexists. split; [reflexivity|]. split; [done|]. split; [done|].
      intros (_ & m & Hm & _). apply Hfound in Hm. done.
  - exists false. eexists. split; [reflexivity|]. split; [done|]. split; [done|].
    intros ((t' & [= <-] & Hact') & _). congruence.
  - exists false. eexists. split; [reflexivity|]. split; [done|]. split; [done|].
    intros ((t' & ? & _) & _). done.
Qed.

Lemma values_list_permissions_codename_spec (st : Store) (rs : list Role) (c : string) :
  Some c ∈ values_list_permissions_codename st rs
  ↔ ∃ r p, r ∈ rs ∧ p ∈ permissions_of st (r_id r) ∧ p_codename p = c.
Proof.
  unfold values_list_permissions_codename. rewrite list_elem_of_bind. split.
  - intros (r & Hc & Hr). exists r.
    destruct (permissions_of st (r_id r)) as [|p0 ps] eqn:E.
    + apply list_elem_of_singleton in Hc. done.
    + apply list_elem_of_fmap in Hc as (p & [= ->] & Hp). by exists p.
  - intros (r & p & Hr & Hp & Hc). exists r. split; [|done].
    destruct (permissions_of st (r_id r)) as [|p0 ps] eqn:E.
    + by apply elem_of_nil in Hp.
    + apply list_elem_of_fmap. exists p. by rewrite Hc.
Qed.

Lemma get_permissions_run (st : Store) (lg : list Event) (m : TenantMembership) :
  ∃ ps,
    TenantMembership.get_permissions m {| store := st; log := lg |}
    = (Ok ps, {| store := st;
                 log := lg ++ [EvQuery (QMembershipPermissions (m_id m))] |})
    ∧ (∀ c, c ∈ ps ↔ active_role_grants st m c).
Proof.
  eexists. split; [reflexivity|]. simpl. intros c.
  rewrite elem_of_set_omap. unfold active_role_grants. split.
  - intros (x & Hx & Hid). simpl in Hid. subst x.
    apply elem_of_difference in Hx as [Hx _].
    apply elem_of_list_to_set in Hx.
    apply values_list_permissions_codename_spec in Hx as (r & p & Hr & Hp & Hc).
    apply list_elem_of_filter in Hr as [Hact Hr].
    apply list_elem_of_filter in Hr as [Hjoin Hr].
    apply list_elem_of_filter in Hp as [Hpj Hp].
    exists r, p. done.
  - intros (r & p & Hr & Hjoin & Hact & Hp & Hpj & Hc).
    exists (Some c). split; [|done].
    apply elem_of_difference. split.
    + apply elem_of_list_to_set, values_list_permissions_codename_spec.
      exists r, p. split; [|split; [|done]].
      * apply list_elem_of_filter. split; [done|].
        apply list_elem_of_filter. done.
      * apply list_elem_of_filter. done.
    + rewrite elem_of_singleton. done.
Qed.

(** C3: [get_user_permissions] returns a set of codenames.  Under the
    bypass it is exactly the set of codenames of the permissions owned by
    the tenant; otherwise it is exactly the set of codenames granted by the
    active roles of the active membership of (user, tenant), which is empty
    when there is no such membership.  The result is a finite set, so
    duplicates have collapsed and no null entry is in it. *)
Theorem get_user_permissions_spec
    (cfg : Settings) (st : Store) (lg : list Event) (user : User)
    (tenant : option Tenant) (membership : option TenantMembership) :
  (SUPERUSER_BYPASS cfg && u_is_superuser user = false →
   membership_unique st
   ∧ ∀ m, membership = Some m → is_active_membership st user tenant m) →
  ∃ (ps : gset string) w',
    PermissionChecker.get_user_permissions cfg user tenant membership
      {| store := st; log := lg |} = (Ok ps, w')
    ∧ store w' = st
    ∧ (SUPERUSER_BYPASS cfg && u_is_superuser user = true →
       ∀ c, c ∈ ps ↔ tenant_owns st tenant c)
    ∧ (SUPERUSER_BYPASS cfg && u_is_superuser user = false →
       (∀ c, c ∈ ps ↔
          ∃ m, is_active_membership st user tenant m ∧ active_role_grants st m c)
       ∧ ((¬ ∃ m, is_active_membership st user tenant m) → ps = ∅)).
Proof.
  intros Hyp. unfold PermissionChecker.get_user_permissions.
  destruct (SUPERUSER_BYPASS cfg && u_is_superuser user) eqn:Hb.
  - eexists. eexists. split; [reflexivity|]. split; [done|]. split; [|done].
    intros _ c. simpl. rewrite elem_of_list_to_set, list_elem_of_fmap.
    unfold tenant_owns. split.
    + intros (p & -> & Hp). apply list_elem_of_filter in Hp as [Hown Hp].
      destruct tenant as [t|]; [|done]. simpl in Hown.
      exists t, p. by simplify_eq.
    + intros (t & p & -> & Hp & Hown & Hc). exists p. split; [done|].
      apply list_elem_of_filter. split; [|done]. simpl. by rewrite Hown.
  - destruct (Hyp eq_refl) as [Hu Hpre].
    assert (∃ found lg',
      (match membership with
       | Some m => mret (Some m)
       | None => find_active_membership user tenant
       end) {| store := st; log := lg |} = (Ok found, {| store := st; log := lg' |})
      ∧ (∀ m, found = Some m ↔ is_active_membership st user tenant m))
      as (found & lg' & Hrun & Hfound).
    { destruct membership as [m|].
      - exists (Some m), lg. split; [done|]. intros m'. split.
        + intros [= <-]. by apply Hpre.
        + intros Hm'. f_equal.
          destruct (active_memberships_option st (u_pk user) (t_id <$> tenant) Hu)
            as [o Ho].
          pose proof (Hpre m eq_refl) as Hm.
          apply active_memberships_spec in Hm, Hm'.
          rewrite Ho in Hm, Hm'. apply option_list_elem_of in Hm, Hm'. congruence.
      - destruct (find_active_membership_run st lg user tenant Hu) as (found & Hr & Hl).
        eexists found, _. split; [exact Hr|]. intros m.
        rewrite <- active_memberships_spec. rewrite Hl.
        by rewrite option_list_elem_of. }
    rewrite run_bind, Hrun. destruct found as [m|].
    + destruct (get_permissions_run st lg' m) as (ps & Hps & Hiff).
      exists ps. eexists. split; [exact Hps|]. split; [done|]. split; [done|].
      intros _. split.
      * intros c. rewrite Hiff. split.
        -- intros Hg. exists m. split; [by apply Hfound|done].
        -- intros (m' & Hm' & Hg). apply Hfound in Hm'. by simplify_eq.
      * intros Hno. exfalso. apply Hno. exists m. by apply Hfound.
    + exists ∅. eexists. split; [reflexivity|]. split; [done|]. split; [done|].
      intros _. split; [|done]. intros c. split.
      * intros Hc. by apply not_elem_of_empty in Hc.
      * intros (m & Hm & _). apply Hfound in Hm. done.
Qed.

(** ** Cross-tenant assignment *)

(** C4: adding a role of another tenant to a membership, and adding a
    permission of another tenant to a role, both raise [ValidationError]
    and leave the world, hence every role and permission set, as it was. *)
Theorem cross_tenant_assignment_rejected :
  (∀ (self : TenantMembership) (role : Role) (w : World),
     r_tenant_id role ≠ m_tenant_id self →
     TenantMembership.add_role self role w = (Raise ValidationError, w))
  ∧ (∀ (self : Role) (permission : Permission) (w : World),
       p_tenant_id permission ≠ r_tenant_id self →
       Role.add_permission self permission w = (Raise ValidationError, w)).
Proof.
  split.
  - intros self role w Hne. unfold TenantMembership.add_role.
    by rewrite decide_True.
  - intros self permission w Hne. unfold Role.add_permission.
    by rewrite decide_True.
Qed.

(** ** Empty codename lists *)

(** C10: on an empty list the all-mode queries ([TenantUser.has_perms],
    [PermissionChecker.has_all_permissions]) return [True] and the any-mode
    query returns [False], for every user, tenant and membership, without
    touching the world. *)
Theorem empty_permission_list (cfg : Settings) :
  (∀ (self : TenantUser) (w : World),
     TenantUser.has_perms cfg self [] w = (Ok (true, self), w))
  ∧ (∀ (user : User) (tenant : option Tenant) (membership : option TenantMembership)
       (w : World),
       PermissionChecker.has_all_permissions cfg user tenant [] membership w
       = (Ok true, w))
  ∧ (∀ (user : User) (tenant : option Tenant) (membership : option TenantMembership)
       (w : World),
       PermissionChecker.has_any_permission cfg user tenant [] membership w
       = (Ok false, w)).
Proof. repeat split. Qed.

(** ** The identity context and its caches *)

Lemma option_list_inj {A} (o1 o2 : option A) :
  option_list o1 = option_list o2 → o1 = o2.
Proof. destruct o1, o2; simpl; congruence. Qed.

(** What the engine computes from a pre-fetched lookup result is what it
    computes when it looks the membership up itself. *)
Lemma get_user_permissions_prefetched (cfg : Settings) (st : Store)
    (lg lg' : list Event) (user : User) (tenant : option Tenant)
    (found : option TenantMembership) :
  membership_unique st →
  active_memberships st (u_pk user) (t_id <$> tenant) = option_list found →
  ∃ ps w',
    PermissionChecker.get_user_permissions cfg user tenant found
      {| store := st; log := lg |} = (Ok ps, w')
    ∧ store w' = st
    ∧ (PermissionChecker.get_user_permissions cfg user tenant None
         {| store := st; log := lg' |}).1 = Ok ps.
Proof.
  intros Hu Hfound. unfold PermissionChecker.get_user_permissions.
  destruct (SUPERUSER_BYPASS cfg && u_is_superuser user).
  { eexists. eexists. split; [reflexivity|]. done. }
  destruct (find_active_membership_run st lg' user tenant Hu) as (found' & Hrun' & Hl').
  assert (found' = found) as -> by (apply option_list_inj; congruence).
  rewrite (run_bind (find_active_membership user tenant)), Hrun'.
  destruct found as [m|].
  - rewrite run_bind, run_ret.
    destruct (get_permissions_run st lg m) as (ps & Hps & Hiff).
    exists ps. eexists. split; [exact Hps|]. split; [done|].
    destruct (get_permissions_run st
                (lg' ++ [EvQuery (QMembershipGet (u_pk user) (t_id <$> tenant))]) m)
      as (ps2 & Hps2 & Hiff2).
    rewrite Hps2. simpl. f_equal. apply set_eq. intros c.
    by rewrite Hiff, Hiff2.
  - destruct (find_active_membership_run st lg user tenant Hu) as (found & Hrun & Hl).
    assert (found = None) as -> by (apply option_list_inj; congruence).
    rewrite run_bind, Hrun. eexists. eexists. split; [reflexivity|]. done.
Qed.

(** C9: once [get_all_permissions] has returned on an instance, every
    later call on that instance returns the very same set, in any world
    (whatever became of the store) and without a query; and the first call
    on a freshly constructed instance returns what the engine computes
    from the store as it is then. *)
Theorem get_all_permissions_memoized (cfg : Settings) :
  (∀ (self self1 : TenantUser) (ps : gset string) (w1 w1' : World),
     TenantUser.get_all_permissions cfg self w1 = (Ok (ps, self1), w1') →
     ∀ w2 : World,
       TenantUser.get_all_permissions cfg self1 w2 = (Ok (ps, self1), w2))
  ∧ (∀ (user : User) (tenant : option Tenant) (st : Store) (lg : list Event),
       membership_unique st →
       ∃ ps self1 w',
         TenantUser.get_all_permissions cfg (TenantUser.__init__ user tenant)
           {| store := st; log := lg |} = (Ok (ps, self1), w')
         ∧ store w' = st
         ∧ ∀ lg',
             (PermissionChecker.get_user_permissions cfg user tenant None
                {| store := st; log := lg' |}).1 = Ok ps).
Proof.
  split.
  - intros self self1 ps w1 w1' Hfirst w2.
    unfold TenantUser.get_all_permissions in Hfirst.
    destruct (_permission_cache self) as [ps0|] eqn:Hcache.
    + injection Hfirst as <- <- <-.
      unfold TenantUser.get_all_permissions. by rewrite Hcache.
    + rewrite run_bind in Hfirst.
      destruct (TenantUser.membership self w1) as [[[m s1]|e] wa]; [|done].
      rewrite run_bind in Hfirst.
      destruct (PermissionChecker.get_user_permissions cfg (tu_user s1)
                  (tu_tenant s1) m wa) as [[ps'|e] wb]; [|done].
      injection Hfirst as <- <- <-. reflexivity.
  - intros user tenant st lg Hu.
    unfold TenantUser.get_all_permissions, TenantUser.__init__. simpl.
    unfold TenantUser.membership, TenantUser._get_membership. simpl.
    destruct (find_active_membership_run st lg user tenant Hu) as (found & Hrun & Hl).
    rewrite !run_bind, Hrun. simpl.
    destruct (get_user_permissions_prefetched cfg st
                (lg ++ [EvQuery (QMembershipGet (u_pk user) (t_id <$> tenant))])
                [] user tenant found Hu Hl) as (ps & w' & Hps & Hst & _).
    rewrite run_bind, Hps. simpl.
    exists ps. eexists. eexists. split; [reflexivity|]. split; [done|].
    intros lg'.
    destruct (get_user_permissions_prefetched cfg st
                (lg ++ [EvQuery (QMembershipGet (u_pk user) (t_id <$> tenant))])
                lg' user tenant found Hu Hl) as (ps2 & w2 & Hps2 & _ & Heq).
    rewrite Hps in Hps2. by injection Hps2 as <- _.
Qed.

(** ** Computations that only append to the log *)

Section Appends.
Context (P : list Event → Prop).
Context (P_nil : P []).
Context (P_app : ∀ l1 l2, P l1 → P l2 → P (l1 ++ l2)).

Lemma appends_ret {A} (a : A) : appends P (mret a : M A).
Proof using P_nil. intros w. exists []. by rewrite app_nil_r. Qed.

Lemma appends_raise {A} (e : exn) : appends P (raise e : M A).
Proof using P_nil. intros w. exists []. by rewrite app_nil_r. Qed.

Lemma appends_lift {A} (r : result A) : appends P (lift r).
Proof using P_nil. intros w. exists []. by rewrite app_nil_r. Qed.

Lemma appends_get_store : appends P get_store.
Proof using P_nil. intros w. exists []. by rewrite app_nil_r. Qed.

Lemma appends_put_store (st : Store) : appends P (put_store st).
Proof using P_nil. intros w. exists []. by rewrite app_nil_r. Qed.

Lemma appends_call_out {A} (f : Store → result A * Store) : appends P (call_out f).
Proof using P_nil.
  intros w. exists []. unfold call_out. destruct (f (store w)). by rewrite app_nil_r.
Qed.

Lemma appends_emit (ev : Event) : P [ev] → appends P (emit ev).
Proof. intros Hev w. by exists [ev]. Qed.

Lemma appends_bind {A B} (m : M A) (f : A → M B) :
  appends P m → (∀ a, appends P (f a)) → appends P (m ≫= f).
Proof using P_app.
  intros Hm Hf w. rewrite run_bind. destruct (Hm w) as (evs1 & Hlog1 & HP1).
  destruct (m w) as [[a|e] w1]; simpl in *.
  - destruct (Hf a w1) as (evs2 & Hlog2 & HP2).
    exists (evs1 ++ evs2). split; [|by apply P_app].
    by rewrite Hlog2, Hlog1, app_assoc.
  - by exists evs1.
Qed.

Lemma appends_try_except {A} (m : M A) (h : exn → M A) :
  appends P m → (∀ e, appends P (h e)) → appends P (try_except m h).
Proof using P_app.
  intros Hm Hh w. unfold try_except. destruct (Hm w) as (evs1 & Hlog1 & HP1).
  destruct (m w) as [[a|e] w1]; simpl in *.
  - by exists evs1.
  - destruct (Hh e w1) as (evs2 & Hlog2 & HP2).
    exists (evs1 ++ evs2). split; [|by apply P_app].
    by rewrite Hlog2, Hlog1, app_assoc.
Qed.

Lemma appends_run_query {A} (q : Query) (answer : Store → result A) :
  P [EvQuery q] → appends P (run_query q answer).
Proof using P_nil P_app.
  intros Hq. unfold run_query.
  apply appends_bind; [by apply appends_emit|]. intros _.
  apply appends_bind; [apply appends_get_store|]. intros st.
  apply appends_lift.
Qed.

Lemma appends_emitted {A} (m : M A) (w : World) : appends P m → P (emitted m w).
Proof. intros Hm. destruct (Hm w) as (evs & Hlog & HP). by rewrite (emitted_app m w evs). Qed.

End Appends.

Lemma no_audit_nil : no_audit [].
Proof. reflexivity. Qed.

Lemma no_audit_app (l1 l2 : list Event) : no_audit l1 → no_audit l2 → no_audit (l1 ++ l2).
Proof. unfold no_audit, audit_events. intros H1 H2. by rewrite omap_app, H1, H2. Qed.

Lemma no_resolve_nil : no_resolve [].
Proof. reflexivity. Qed.

Lemma no_resolve_app (l1 l2 : list Event) :
  no_resolve l1 → no_resolve l2 → no_resolve (l1 ++ l2).
Proof. unfold no_resolve, resolver_calls. intros H1 H2. by rewrite omap_app, H1, H2. Qed.

Create HintDb quiet discriminated.

#[local] Hint Resolve no_audit_nil no_audit_app no_resolve_nil no_resolve_app : quiet.
#[local] Hint Resolve appends_ret appends_raise appends_lift appends_get_store
  appends_put_store appends_call_out : quiet.

Lemma find_active_membership_quiet (P : list Event → Prop) (user : User)
    (tenant : option Tenant) :
  P [] → (∀ l1 l2, P l1 → P l2 → P (l1 ++ l2)) → (∀ q, P [EvQuery q]) →
  appends P (find_active_membership user tenant).
Proof.
  intros Hnil Happ Hq. unfold find_active_membership, get_active_membership.
  apply appends_try_except; [done| |].
  - apply appends_bind; [done| |intros m; by apply appends_ret].
    by apply appends_run_query.
  - intros e. destruct e; first [by apply appends_ret | by apply appends_raise].
Qed.

(** The engine itself writes nothing to the audit logger. *)
Lemma check_permission_no_audit (cfg : Settings) (user : User) (tenant : option Tenant)
    (perm : string) (membership : option TenantMembership) :
  appends no_audit (PermissionChecker.check_permission cfg user tenant perm membership).
Proof.
  unfold PermissionChecker.check_permission.
  destruct (SUPERUSER_BYPASS cfg && u_is_superuser user); [auto with quiet|].
  destruct (validate_tenant_context tenant); [|auto with quiet].
  apply appends_bind; [auto with quiet| |].
  - destruct membership; [auto with quiet|].
    apply find_active_membership_quiet; auto with quiet.
  - intros [m|]; [|auto with quiet].
    unfold TenantMembership.has_permission.
    apply appends_run_query; auto with quiet.
Qed.

Lemma has_any_permission_no_audit (cfg : Settings) (user : User)
    (tenant : option Tenant) (perms : list string)
    (membership : option TenantMembership) :
  appends no_audit (PermissionChecker.has_any_permission cfg user tenant perms membership).
Proof.
  induction perms as [|perm rest IH]; simpl; [auto with quiet|].
  apply appends_bind; [auto with quiet|apply check_permission_no_audit|].
  intros [|]; auto with quiet.
Qed.

Lemma has_all_permissions_no_audit (cfg : Settings) (user : User)
    (tenant : option Tenant) (perms : list string)
    (membership : option TenantMembership) :
  appends no_audit (PermissionChecker.has_all_permissions cfg user tenant perms membership).
Proof.
  induction perms as [|perm rest IH]; simpl; [auto with quiet|].
  apply appends_bind; [auto with quiet|apply check_permission_no_audit|].
  intros [|]; simpl; auto with quiet.
Qed.

(** ** Audit records of permission checks *)

Lemma check_permission_run (cfg : Settings) (st : Store) (lg : list Event)
    (user : User) (tenant : option Tenant) (perm : string)
    (membership : option TenantMembership) :
  membership_unique st →
  ∃ b evs,
    PermissionChecker.check_permission cfg user tenant perm membership
      {| store := st; log := lg |} = (Ok b, {| store := st; log := lg ++ evs |})
    ∧ no_audit evs.
Proof.
  intros Hu. unfold PermissionChecker.check_permission.
  destruct (SUPERUSER_BYPASS cfg && u_is_superuser user).
  { exists true, []. by rewrite app_nil_r. }
  destruct (validate_tenant_context tenant).
  2:{ exists false, []. by rewrite app_nil_r. }
  rewrite run_bind. destruct membership as [m|].
  - rewrite run_ret.
    destruct (has_permission_run st lg m perm) as (b & Hb & _).
    exists b. eexists. split; [exact Hb|done].
  - destruct (find_active_membership_run st lg user tenant Hu) as (found & Hrun & _).
    rewrite Hrun. destruct found as [m|].
    + destruct (has_permission_run st
                  (lg ++ [EvQuery (QMembershipGet (u_pk user) (t_id <$> tenant))])
                  m perm) as (b & Hb & _).
      exists b. eexists. rewrite Hb, <- app_assoc. done.
    + exists false. eexists. done.
Qed.

Lemma audit_log_run (cfg : Settings) (st : Store) (lg : list Event) (user : User)
    (tenant : option Tenant) (perm : string) (outcome : bool) :
  ∃ evs,
    audit_log cfg "permission_check" (Some user) tenant (Some perm) outcome None None
      {| store := st; log := lg |} = (Ok (), {| store := st; log := lg ++ evs |})
    ∧ audit_events evs = audited cfg [permission_check_record user tenant perm outcome].
Proof.
  unfold audit_log, audited. destruct (AUDIT_ENABLED cfg); simpl.
  - eexists. split; reflexivity.
  - exists []. by rewrite app_nil_r.
Qed.

Lemma has_perm_run (cfg : Settings) (st : Store) (lg : list Event)
    (self : TenantUser) (perm : string) :
  membership_unique st →
  ∃ b self' evs,
    TenantUser.has_perm cfg self perm {| store := st; log := lg |}
    = (Ok (b, self'), {| store := st; log := lg ++ evs |})
    ∧ tu_user self' = tu_user self ∧ tu_tenant self' = tu_tenant self
    ∧ audit_events evs
      = audited cfg [permission_check_record (tu_user self) (tu_tenant self) perm b].
Proof.
  intros Hu. unfold TenantUser.has_perm.
  assert (∃ m self' evs0,
    TenantUser.membership self {| store := st; log := lg |}
    = (Ok (m, self'), {| store := st; log := lg ++ evs0 |})
    ∧ tu_user self' = tu_user self ∧ tu_tenant self' = tu_tenant self
    ∧ no_audit evs0) as (m & self' & evs0 & Hm & Huser & Htenant & Hq0).
  { unfold TenantUser.membership, TenantUser._get_membership.
    destruct (_membership_cache self) as [m|].
    - exists (Some m), self, []. by rewrite app_nil_r.
    - destruct (find_active_membership_run st lg (tu_user self) (tu_tenant self) Hu)
        as (found & Hrun & _).
      rewrite run_bind, Hrun. eexists found, _, _. done. }
  rewrite run_bind, Hm. simpl. rewrite Huser, Htenant.
  destruct (check_permission_run cfg st (lg ++ evs0) (tu_user self) (tu_tenant self)
              perm m Hu) as (b & evs1 & Hcheck & Hq1).
  rewrite run_bind, Hcheck.
  destruct (audit_log_run cfg st ((lg ++ evs0) ++ evs1) (tu_user self) (tu_tenant self)
              perm b) as (evs2 & Haudit & Hrec).
  rewrite run_bind, Haudit. rewrite run_ret.
  exists b, self', (evs0 ++ evs1 ++ evs2).
  split; [by rewrite !app_assoc|]. split; [done|]. split; [done|].
  unfold no_audit in *. unfold audit_events in *.
  by rewrite !omap_app, Hq0, Hq1.
Qed.

Lemma audited_app (cfg : Settings) (l1 l2 : list AuditData) :
  audited cfg l1 ++ audited cfg l2 = audited cfg (l1 ++ l2).
Proof. unfold audited. by destruct (AUDIT_ENABLED cfg). Qed.

Lemma has_perms_run (cfg : Settings) (st : Store) (perms : list string) :
  membership_unique st →
  ∀ (lg : list Event) (self : TenantUser),
  ∃ b self' evs k,
    TenantUser.has_perms cfg self perms {| store := st; log := lg |}
    = (Ok (b, self'), {| store := st; log := lg ++ evs |})
    ∧ (if b then k = length perms else k < length perms)
    ∧ audit_events evs
      = audited cfg
          (((λ p, permission_check_record (tu_user self) (tu_tenant self) p true)
              <$> take k perms)
           ++ (if b then []
               else (λ p, permission_check_record (tu_user self) (tu_tenant self) p false)
                      <$> option_list (perms !! k))).
Proof.
  intros Hu. induction perms as [|perm rest IH]; intros lg self.
  - exists true, self, [], 0. simpl. rewrite app_nil_r.
    split; [done|]. split; [done|]. unfold audited. by destruct (AUDIT_ENABLED cfg).
  - simpl.
    destruct (has_perm_run cfg st lg self perm Hu)
      as (b1 & self1 & evs1 & Hrun1 & Huser & Htenant & Haud1).
    rewrite run_bind, Hrun1. simpl. destruct b1.
    + destruct (IH (lg ++ evs1) self1) as (b & self' & evs2 & k & Hrun2 & Hk & Haud2).
      rewrite Hrun2. exists b, self', (evs1 ++ evs2), (S k).
      split; [by rewrite app_assoc|]. split.
      { destruct b; simpl; lia. }
      unfold audit_events in *. rewrite omap_app, Haud1, Haud2, audited_app.
      simpl. by rewrite Huser, Htenant.
    + exists false, self1, evs1, 0. split; [done|]. split; [simpl; lia|].
      by rewrite Haud1.
Qed.

(** C5 (as the code has it): every [TenantUser.has_perm] call writes one
    audit record when auditing is enabled (none when it is disabled),
    tagged with the outcome and with the checked codename when that is
    non-empty; [TenantUser.has_perms] does so for each check it makes, up
    to and including the first denied one; and the engine's own
    [check_permission], [has_any_permission] and [has_all_permissions]
    write no audit record at all. *)
Theorem permission_checks_audited (cfg : Settings) (w : World) :
  membership_unique (store w) →
  (∀ (self : TenantUser) (perm : string),
     ∃ b self',
       (TenantUser.has_perm cfg self perm w).1 = Ok (b, self')
       ∧ audit_events (emitted (TenantUser.has_perm cfg self perm) w)
         = audited cfg
             [permission_check_record (tu_user self) (tu_tenant self) perm b])
  ∧ (∀ (self : TenantUser) (perms : list string),
       ∃ b self' k,
         (TenantUser.has_perms cfg self perms w).1 = Ok (b, self')
         ∧ (if b then k = length perms else k < length perms)
         ∧ audit_events (emitted (TenantUser.has_perms cfg self perms) w)
           = audited cfg
               (((λ p, permission_check_record (tu_user self) (tu_tenant self) p true)
                   <$> take k perms)
                ++ (if b then []
                    else (λ p, permission_check_record
                                 (tu_user self) (tu_tenant self) p false)
                           <$> option_list (perms !! k))))
  ∧ (∀ (user : User) (tenant : option Tenant) (perm : string)
       (membership : option TenantMembership),
       audit_events
         (emitted (PermissionChecker.check_permission cfg user tenant perm membership) w)
       = [])
  ∧ (∀ (user : User) (tenant : option Tenant) (perms : list string)
       (membership : option TenantMembership),
       audit_events
         (emitted (PermissionChecker.has_any_permission cfg user tenant perms membership)
            w) = []
       ∧ audit_events
           (emitted (PermissionChecker.has_all_permissions cfg user tenant perms
                       membership) w) = []).
Proof.
  destruct w as [st lg]. simpl. intros Hu. repeat split.
  - intros self perm.
    destruct (has_perm_run cfg st lg self perm Hu) as (b & self' & evs & Hrun & _ & _ & Ha).
    exists b, self'. rewrite Hrun. split; [done|].
    erewrite emitted_app; [exact Ha|by rewrite Hrun].
  - intros self perms.
    destruct (has_perms_run cfg st perms Hu lg self)
      as (b & self' & evs & k & Hrun & Hk & Ha).
    exists b, self', k. rewrite Hrun. split; [done|]. split; [done|].
    erewrite emitted_app; [exact Ha|by rewrite Hrun].
  - intros. apply (appends_emitted no_audit), check_permission_no_audit.
  - apply (appends_emitted no_audit), has_any_permission_no_audit.
  - apply (appends_emitted no_audit), has_all_permissions_no_audit.
Qed.


(** ** Strings *)

Lemma str_app_cons (a : ascii) (s t : string) : String a s +:+ t = String a (s +:+ t).
Proof. reflexivity. Qed.

Lemma str_app_nil_l (t : string) : "" +:+ t = t.
Proof. reflexivity. Qed.

Lemma str_app_nil_r (s : string) : s +:+ "" = s.
Proof. induction s as [|a s IH]; [done|]. by rewrite str_app_cons, IH. Qed.

Lemma str_app_assoc (s t u : string) : (s +:+ t) +:+ u = s +:+ t +:+ u.
Proof. induction s as [|a s IH]; [done|]. by rewrite !str_app_cons, IH. Qed.

Lemma str_length_app (s t : string) :
  String.length (s +:+ t) = String.length s + String.length t.
Proof.
  induction s as [|a s IH]; [done|].
  rewrite str_app_cons. simpl. by rewrite IH.
Qed.

Lemma str_take_app (s t : string) : Str.take (String.length s) (s +:+ t) = s.
Proof.
  induction s as [|a s IH]; [by destruct t|].
  rewrite str_app_cons. simpl. by rewrite IH.
Qed.

Lemma str_drop_app (s t : string) : Str.drop (String.length s) (s +:+ t) = t.
Proof.
  induction s as [|a s IH]; [by destruct t|].
  rewrite str_app_cons. simpl. by rewrite IH.
Qed.

Lemma str_take_drop (n : nat) (s : string) : Str.take n s +:+ Str.drop n s = s.
Proof.
  revert s. induction n as [|n IH]; intros [|a s]; try done.
  simpl. by rewrite str_app_cons, IH.
Qed.

Lemma endswith_app (s suffix : string) : Str.endswith (s +:+ suffix) suffix = true.
Proof.
  unfold Str.endswith. rewrite str_length_app.
  replace (String.length s + String.length suffix - String.length suffix)
    with (String.length s) by lia.
  rewrite str_drop_app. apply String.eqb_refl.
Qed.

Lemma endswith_inv (s suffix : string) :
  Str.endswith s suffix = true → ∃ pre, s = pre +:+ suffix.
Proof.
  unfold Str.endswith. intros Heq%String.eqb_eq.
  remember (String.length s - String.length suffix) as n eqn:Hn. clear Hn.
  exists (Str.take n s). rewrite <- Heq. by rewrite str_take_drop.
Qed.

Lemma slice_to_neg_app (s t : string) :
  Str.slice_to_neg (s +:+ t) (String.length t) = s.
Proof.
  unfold Str.slice_to_neg. rewrite str_length_app.
  replace (String.length s + String.length t - String.length t)
    with (String.length s) by lia.
  apply str_take_app.
Qed.

Lemma contains_app (c : ascii) (s t : string) :
  Str.contains c (s +:+ t) = Str.contains c s || Str.contains c t.
Proof.
  induction s as [|a s IH]; [done|].
  rewrite str_app_cons. simpl. by destruct (Ascii.eqb a c).
Qed.

Lemma split_head_none (c : ascii) (s : string) :
  Str.contains c s = false → Str.split_head c s = s.
Proof.
  induction s as [|a s IH]; [done|]. simpl.
  destruct (Ascii.eqb a c); [done|]. intros H. by rewrite IH.
Qed.

Lemma split_head_app (c : ascii) (s t : string) :
  Str.contains c s = false → Str.split_head c (s +:+ String c t) = s.
Proof.
  induction s as [|a s IH].
  - intros _. rewrite str_app_nil_l. simpl. by rewrite Ascii.eqb_refl.
  - rewrite str_app_cons. simpl.
    destruct (Ascii.eqb a c); [done|]. intros H. by rewrite IH.
Qed.

Lemma truthy_nonempty (s : string) : s ≠ "" → Str.truthy s = true.
Proof. by destruct s. Qed.

(** ** Subdomain resolution *)

(** On a host that is [pre.base] the extraction depends on [pre] only. *)
Lemma _extract_subdomain_app (base_domain host pre : string) :
  Str.lower host = pre +:+ "." +:+ Str.lower base_domain →
  _extract_subdomain base_domain host
  = let subdomain := if Str.contains "." pre then Str.split_head "." pre else pre in
    if Str.truthy subdomain then Some subdomain else None.
Proof.
  intros Hhost. unfold _extract_subdomain. rewrite Hhost.
  rewrite endswith_app. simpl negb. cbv iota.
  replace (String.length (Str.lower base_domain) + 1)
    with (String.length ("." +:+ Str.lower base_domain))
    by (rewrite str_app_cons, str_app_nil_l; simpl; lia).
  by rewrite slice_to_neg_app.
Qed.

Lemma _extract_subdomain_not_suffix (base_domain host : string) :
  (¬ ∃ pre, Str.lower host = pre +:+ "." +:+ Str.lower base_domain) →
  _extract_subdomain base_domain host = None.
Proof.
  intros Hno. unfold _extract_subdomain.
  destruct (Str.endswith (Str.lower host) ("." +:+ Str.lower base_domain)) eqn:E; [|done].
  apply endswith_inv in E. by destruct Hno.
Qed.

Lemma _extract_subdomain_label (base_domain host label more : string) :
  label ≠ "" → Str.contains "." label = false →
  (more = "" ∨ ∃ rest, more = "." +:+ rest) →
  Str.lower host = label +:+ more +:+ "." +:+ Str.lower base_domain →
  _extract_subdomain base_domain host = Some label.
Proof.
  intros Hne Hdot Hmore Hhost.
  rewrite (_extract_subdomain_app base_domain host (label +:+ more))
    by (by rewrite str_app_assoc).
  destruct Hmore as [-> | [rest ->]].
  - rewrite str_app_nil_r. simpl. rewrite Hdot. by rewrite truthy_nonempty.
  - simpl. rewrite contains_app, Hdot. simpl.
    rewrite str_app_cons, str_app_nil_l, split_head_app by done.
    by rewrite truthy_nonempty.
Qed.

(** C7: with base domain [B], a host that (lower-cased, port stripped) is
    [label[.more].B] for a non-empty, dot-free label resolves through the
    slug [label]; a host that does not end with [.B] (the host [B] itself
    is one), or whose remainder before [.B] has an empty leftmost label,
    fails with [TenantNotFoundError] carrying the host.  [acme.example.com] yields
    [acme]; [example.com] fails. *)
Theorem subdomain_resolution {Pattern : Type}
    (re_match : Pattern → string → option (gmap string (option string)))
    (base_domain : string) (request : HttpRequest) :
  let stripped := strip_port (req_host request) in
  let host := Str.lower stripped in
  let base := Str.lower base_domain in
  (∀ label more,
     label ≠ "" → Str.contains "." label = false →
     (more = "" ∨ ∃ rest, more = "." +:+ rest) →
     host = label +:+ more +:+ "." +:+ base →
     _extract_subdomain base_domain stripped = Some label
     ∧ resolve re_match (SubdomainTenantResolver base_domain) request
       = get_tenant_by_slug label)
  ∧ ((¬ ∃ pre, host = pre +:+ "." +:+ base) →
     ∀ w, resolve re_match (SubdomainTenantResolver base_domain) request w
          = (Raise (TenantNotFoundError (Some stripped)), w))
  ∧ (host = base →
     ∀ w, resolve re_match (SubdomainTenantResolver base_domain) request w
          = (Raise (TenantNotFoundError (Some stripped)), w))
  ∧ (∀ pre,
       host = pre +:+ "." +:+ base →
       (pre = "" ∨ ∃ rest, pre = "." +:+ rest) →
       ∀ w, resolve re_match (SubdomainTenantResolver base_domain) request w
            = (Raise (TenantNotFoundError (Some stripped)), w))
  ∧ (base_domain = "example.com" →
     (req_host request = "acme.example.com" →
      resolve re_match (SubdomainTenantResolver base_domain) request
      = get_tenant_by_slug "acme")
     ∧ (req_host request = "example.com" →
        ∀ w, resolve re_match (SubdomainTenantResolver base_domain) request w
             = (Raise (TenantNotFoundError (Some "example.com")), w))).
Proof.
  intros stripped host base. split; [|split; [|split; [|split]]].
  - intros label more Hne Hdot Hmore Hhost.
    pose proof (_extract_subdomain_label base_domain stripped label more
                  Hne Hdot Hmore Hhost) as Hex.
    split; [done|]. simpl. fold stripped. rewrite Hex.
    by rewrite truthy_nonempty.
  - intros Hno w. simpl. fold stripped.
    by rewrite _extract_subdomain_not_suffix.
  - intros Hbase w. simpl. fold stripped.
    rewrite _extract_subdomain_not_suffix; [done|].
    fold host base. rewrite Hbase. intros [pre Hpre].
    apply (f_equal String.length) in Hpre.
    rewrite !str_length_app in Hpre. simpl in Hpre. lia.
  - intros pre Hhost Hpre w. simpl. fold stripped.
    rewrite (_extract_subdomain_app base_domain stripped pre) by done.
    destruct Hpre as [-> | [rest ->]]; [done|].
    by rewrite str_app_cons, str_app_nil_l.
  - intros ->. split.
    + intros Hreq. simpl. by rewrite Hreq.
    + intros Hreq w. simpl. by rewrite Hreq.
Qed.

(** ** The resolution stage *)

Lemma appends_bind_gen {A B} (P Q R : list Event → Prop) (m : M A) (f : A → M B) :
  appends P m → (∀ a, appends Q (f a)) →
  (∀ l, P l → R l) → (∀ l1 l2, P l1 → Q l2 → R (l1 ++ l2)) →
  appends R (m ≫= f).
Proof.
  intros Hm Hf Hraise Hok w. rewrite run_bind. destruct (Hm w) as (evs1 & Hlog1 & HP1).
  destruct (m w) as [[a|e] w1]; simpl in *.
  - destruct (Hf a w1) as (evs2 & Hlog2 & HP2).
    exists (evs1 ++ evs2). split; [|by apply Hok].
    by rewrite Hlog2, Hlog1, app_assoc.
  - exists evs1. split; [done|by apply Hraise].
Qed.

Lemma appends_try_except_gen {A} (P Q R : list Event → Prop) (m : M A) (h : exn → M A) :
  appends P m → (∀ e, appends Q (h e)) →
  (∀ l, P l → R l) → (∀ l1 l2, P l1 → Q l2 → R (l1 ++ l2)) →
  appends R (try_except m h).
Proof.
  intros Hm Hh Hok Hraise w. unfold try_except. destruct (Hm w) as (evs1 & Hlog1 & HP1).
  destruct (m w) as [[a|e] w1]; simpl in *.
  - exists evs1. split; [done|by apply Hok].
  - destruct (Hh e w1) as (evs2 & Hlog2 & HP2).
    exists (evs1 ++ evs2). split; [|by apply Hraise].
    by rewrite Hlog2, Hlog1, app_assoc.
Qed.

Lemma appends_bind_pure {A B} (R : list Event → Prop) (a : A) (m : M A) (f : A → M B) :
  (∀ w, m w = (Ok a, w)) → appends R (f a) → appends R (m ≫= f).
Proof. intros Hm Hf w. rewrite run_bind, Hm. apply Hf. Qed.

Lemma get_tenant_by_slug_no_resolve (slug : string) :
  appends no_resolve (get_tenant_by_slug slug).
Proof.
  unfold get_tenant_by_slug.
  apply appends_bind; [auto with quiet| |].
  - apply appends_try_except; [auto with quiet| |].
    + apply appends_run_query; auto with quiet.
    + intros e. destruct e; auto with quiet.
  - intros t. destruct (negb (t_is_active t)); auto with quiet.
Qed.

Lemma get_tenant_by_domain_no_resolve (domain : string) :
  appends no_resolve (get_tenant_by_domain domain).
Proof.
  unfold get_tenant_by_domain.
  apply appends_bind; [auto with quiet| |].
  - apply appends_try_except; [auto with quiet| |].
    + apply appends_run_query; auto with quiet.
    + intros e. destruct e; auto with quiet.
  - intros t. destruct (negb (t_is_active t)); auto with quiet.
Qed.

#[local] Hint Resolve get_tenant_by_slug_no_resolve get_tenant_by_domain_no_resolve
  : quiet.

(** No resolver class calls back into a resolver. *)
Lemma resolve_no_resolve {Pattern : Type}
    (re_match : Pattern → string → option (gmap string (option string)))
    (r : Resolver) (request : HttpRequest) :
  appends no_resolve (resolve re_match r request).
Proof.
  destruct r as [|base|pattern|key]; simpl.
  - auto with quiet.
  - destruct (_extract_subdomain _ _) as [s|]; [|auto with quiet].
    destruct (negb (Str.truthy s)); auto with quiet.
  - destruct (re_match pattern (req_path request)) as [groups|]; [|auto with quiet].
    destruct (groups !! _) as [[slug|]|]; auto with quiet.
  - destruct (req_META request !! key) as [slug|]; [|auto with quiet].
    destruct (negb (Str.truthy slug)); auto with quiet.
Qed.

Lemma audit_log_no_resolve (cfg : Settings) (event : string) (user : option User)
    (tenant : option Tenant) (permission : option string) (success : bool)
    (request : option HttpRequest) (extra : option (option string)) :
  appends no_resolve (audit_log cfg event user tenant permission success request extra).
Proof.
  unfold audit_log. destruct (negb (AUDIT_ENABLED cfg)); [auto with quiet|].
  by apply appends_emit.
Qed.

Lemma call_get_response_no_resolve
    (get_response : HttpRequest → Store → result HttpResponse * Store)
    (request : HttpRequest) :
  appends no_resolve (call_get_response get_response request).
Proof.
  unfold call_get_response. apply appends_bind; [auto with quiet| |auto with quiet].
  by apply appends_emit.
Qed.

Lemma call_handler_no_resolve (handler : Handler) (request : HttpRequest) (e : exn) :
  appends no_resolve (call_handler handler request e).
Proof.
  unfold call_handler. apply appends_bind; [auto with quiet| |auto with quiet].
  by apply appends_emit.
Qed.

Lemma _is_exempt_spec {Pattern : Type}
    (re_match : Pattern → string → option (gmap string (option string)))
    (self : TenantResolutionMiddleware) (path : string) :
  _is_exempt re_match self path = true
  ↔ Exists (λ pattern, is_Some (re_match pattern path)) (_exempt_patterns self).
Proof.
  unfold _is_exempt. rewrite existsb_exists, Exists_exists. split.
  - intros (p & Hin & Hm). exists p. split; [by apply list_elem_of_In|].
    by apply bool_decide_eq_true in Hm.
  - intros (p & Hin & Hm). exists p. split; [by apply list_elem_of_In|].
    by apply bool_decide_eq_true.
Qed.

(** On a path that is not exempt the stage invokes the resolver it has, or
    the one it can build, exactly once. *)
Lemma stage_invokes_resolver_once {Pattern : Type}
    (re_compile : string → result Pattern)
    (re_match : Pattern → string → option (gmap string (option string)))
    (cfg : Settings)
    (get_response : HttpRequest → Store → result HttpResponse * Store)
    (import_string : string → result Handler)
    (self : TenantResolutionMiddleware) (request : HttpRequest) (w : World)
    (r : Resolver) :
  let stage := __call__ re_compile re_match cfg get_response import_string self request in
  let passed := set_tenant request None in
  ¬ Exists (λ pattern, is_Some (re_match pattern (req_path request)))
      (_exempt_patterns self) →
  _resolver self = Some r
  ∨ (_resolver self = None ∧ get_resolver re_compile cfg None = Ok r) →
  resolver_calls (emitted stage w) = [passed].
Proof.
  intros stage passed Hnex Hr.
  assert (_is_exempt re_match self (req_path request) = false) as Hne.
  { destruct (_is_exempt re_match self (req_path request)) eqn:E; [|done].
    by apply _is_exempt_spec in E. }
  cut (appends (λ evs, resolver_calls evs = [passed]) stage).
  { intros Happ. by apply (appends_emitted _ stage w) in Happ. }
  unfold stage, __call__. simpl. rewrite Hne. fold passed.
  assert (∃ self', ∀ w0, resolver re_compile cfg self w0 = (Ok (r, self'), w0))
    as [self' Hres].
  { unfold resolver. destruct Hr as [-> | [-> Hget]].
    - by exists self.
    - rewrite Hget. eexists. reflexivity. }
  apply (appends_bind_pure _ (r, self')); [exact Hres|]. simpl.
  assert (∀ l1 l2, resolver_calls l1 = [passed] → no_resolve l2 →
                   resolver_calls (l1 ++ l2) = [passed]) as Hcomb.
  { intros l1 l2 H1 H2. unfold no_resolve, resolver_calls in *.
    by rewrite omap_app, H1, H2. }
  eapply (appends_bind_gen _ no_resolve); [| |intros l Hl; exact Hl|exact Hcomb].
  + eapply (appends_try_except_gen _ no_resolve); [| |intros l Hl; exact Hl|exact Hcomb].
    * eapply (appends_bind_gen _ no_resolve); [| |intros l Hl; exact Hl|exact Hcomb].
      -- unfold call_resolve.
         eapply (appends_bind_gen (λ evs, evs = [EvResolve passed]) no_resolve).
         ++ intros w1. by exists [EvResolve passed].
         ++ intros _. apply resolve_no_resolve.
         ++ by intros l ->.
         ++ intros l1 l2 -> H2. unfold no_resolve, resolver_calls in *.
            by rewrite omap_app, H2.
      -- intros tenant. apply appends_bind; [auto with quiet..| |].
         ++ apply audit_log_no_resolve.
         ++ intros _. auto with quiet.
    * intros e.
      assert (appends no_resolve
        (audit_log cfg "tenant_resolution_failed" (req_user passed) None None false
           (Some passed)
           (Some match e with TenantNotFoundError identifier => identifier
                            | _ => None end) ≫= λ _,
         lift (_get_handler cfg import_string) ≫= λ handler,
         match handler with
         | None => raise e
         | Some handler =>
             call_handler handler passed e ≫= λ result,
             match result with
             | HResponse response => mret (inr response)
             | HValue v => mret (inl (set_tenant passed v))
             end
         end)) as Hfail.
      { apply appends_bind; [auto with quiet..| |].
        - apply audit_log_no_resolve.
        - intros _. apply appends_bind; [auto with quiet..|].
          intros [handler|]; [|auto with quiet].
          apply appends_bind; [auto with quiet..| |].
          + apply call_handler_no_resolve.
          + intros [resp|v]; auto with quiet. }
      destruct e; first [exact Hfail | auto with quiet].
  + intros [req'|resp]; [|auto with quiet].
    apply appends_bind; [auto with quiet..| |].
    * apply call_get_response_no_resolve.
    * intros resp. auto with quiet.
Qed.

(** ** Tenant writes *)

(** C6 on the code: a tenant saved with the slug [ACME] and the domain
    [Shop.Acme.COM] is stored with exactly these values, although [clean]
    would have lower-cased both; the slug lookup of the resolvers, which
    lower-cases its argument, then does not find the tenant. *)
Theorem tenant_save_keeps_case :
  let t := {| t_id := 7%N; t_name := "Acme"; t_slug := "ACME";
              t_domain := Some "Shop.Acme.COM"; t_is_active := true |} in
  let saved := {| store := set_tenants empty_store [t]; log := [] |} in
  Tenant.save t {| store := empty_store; log := [] |} = (Ok (), saved)
  ∧ t_slug <$> tenants (store saved) = ["ACME"]
  ∧ Str.lower "ACME" ≠ "ACME"
  ∧ t_domain <$> tenants (store saved) = [Some "Shop.Acme.COM"]
  ∧ t_slug (Tenant.clean t) = "acme"
  ∧ t_domain (Tenant.clean t) = Some "shop.acme.com"
  ∧ (get_tenant_by_slug "ACME" saved).1 = Raise (TenantNotFoundError (Some "ACME")).
Proof.
  intros t saved. split; [reflexivity|]. split; [reflexivity|].
  split; [discriminate|]. repeat split.
Qed.

(** ** The deployment of the examples *)

Lemma demo_store_unique : membership_unique demo_store.
Proof. apply (bool_decide_unpack _). vm_compute. exact I. Defined.

Example alice_may_view :
  (PermissionChecker.check_permission TENANT_AUTHX_DEFAULTS alice (Some acme)
     "orders.view_order" None demo_world).1 = Ok true.
Proof. reflexivity. Qed.

Example alice_may_not_delete :
  (PermissionChecker.check_permission TENANT_AUTHX_DEFAULTS alice (Some acme)
     "orders.delete_order" None demo_world).1 = Ok false.
Proof. reflexivity. Qed.

Example alice_has_no_access_to_globex :
  (PermissionChecker.check_permission TENANT_AUTHX_DEFAULTS alice (Some globex)
     "admin.all" None demo_world).1 = Ok false.
Proof. reflexivity. Qed.

Example alice_permissions :
  (PermissionChecker.get_user_permissions TENANT_AUTHX_DEFAULTS alice (Some acme)
     None demo_world).1 = Ok {["orders.view_order"]}.
Proof. vm_compute. reflexivity. Qed.

Example root_permissions :
  (PermissionChecker.get_user_permissions TENANT_AUTHX_DEFAULTS root (Some acme)
     None demo_world).1 = Ok {["orders.view_order"; "orders.delete_order"]}.
Proof. vm_compute. reflexivity. Qed.

Example extract_nested :
  _extract_subdomain "example.com" (strip_port "Shop.Acme.Example.COM:8000")
  = Some "shop".
Proof. reflexivity. Qed.

Example extract_bare_base : _extract_subdomain "example.com" "example.com" = None.
Proof. reflexivity. Qed.

Example extract_other_domain :
  _extract_subdomain "example.com" "acme.notexample.com" = None.
Proof. reflexivity. Qed.

Example demo_middleware_init :
  __init__ Ok demo_settings = Ok demo_middleware.
Proof. reflexivity. Qed.

Example demo_resolver :
  get_resolver (Pattern := string) Ok demo_settings None
  = Ok (SubdomainTenantResolver "example.com").
Proof. reflexivity. Qed.

(** ** Instances of the theorems on the deployment *)

Lemma check_permission_superuser_bypass_witness :
  PermissionChecker.check_permission TENANT_AUTHX_DEFAULTS root (Some globex)
    "orders.view_order" None demo_world = (Ok true, demo_world).
Proof. apply check_permission_superuser_bypass; reflexivity. Defined.

Lemma check_permission_iff_witness :
  ∃ b w',
    PermissionChecker.check_permission TENANT_AUTHX_DEFAULTS alice (Some acme)
      "orders.view_order" None {| store := demo_store; log := [] |} = (Ok b, w')
    ∧ store w' = demo_store
    ∧ (b = true ↔
       tenant_present_and_active (Some acme)
       ∧ ∃ m, is_active_membership demo_store alice (Some acme) m
              ∧ active_role_grants demo_store m "orders.view_order").
Proof.
  apply check_permission_iff.
  - right. reflexivity.
  - apply (bool_decide_unpack _). vm_compute. exact I.
  - intros m Hm. discriminate Hm.
Defined.

Lemma get_user_permissions_spec_witness :
  ∃ (ps : gset string) w',
    PermissionChecker.get_user_permissions TENANT_AUTHX_DEFAULTS alice (Some acme) None
      {| store := demo_store; log := [] |} = (Ok ps, w')
    ∧ store w' = demo_store
    ∧ (SUPERUSER_BYPASS TENANT_AUTHX_DEFAULTS && u_is_superuser alice = true →
       ∀ c, c ∈ ps ↔ tenant_owns demo_store (Some acme) c)
    ∧ (SUPERUSER_BYPASS TENANT_AUTHX_DEFAULTS && u_is_superuser alice = false →
       (∀ c, c ∈ ps ↔
          ∃ m, is_active_membership demo_store alice (Some acme) m
               ∧ active_role_grants demo_store m c)
       ∧ ((¬ ∃ m, is_active_membership demo_store alice (Some acme) m) → ps = ∅)).
Proof.
  apply get_user_permissions_spec. intros _. split.
  - apply (bool_decide_unpack _). vm_compute. exact I.
  - intros m Hm. discriminate Hm.
Defined.

Lemma cross_tenant_assignment_rejected_witness :
  TenantMembership.add_role alice_at_acme globex_admin demo_world
  = (Raise ValidationError, demo_world)
  ∧ Role.add_permission manager globex_all demo_world
    = (Raise ValidationError, demo_world).
Proof.
  split.
  - apply (proj1 cross_tenant_assignment_rejected). vm_compute. discriminate.
  - apply (proj2 cross_tenant_assignment_rejected). vm_compute. discriminate.
Defined.

(** C5 as stated fails on the engine's any-mode query: one check is made
    and granted, and no audit record is written. *)
Lemma has_any_permission_writes_no_audit_record :
  let query := PermissionChecker.has_any_permission TENANT_AUTHX_DEFAULTS alice
                 (Some acme) ["orders.view_order"] None in
  AUDIT_ENABLED TENANT_AUTHX_DEFAULTS = true
  ∧ (query demo_world).1 = Ok true
  ∧ emitted query demo_world
    = [EvQuery (QMembershipGet 1%Z (Some 1%N));
       EvQuery (QMembershipHasPermission 10%N "orders.view_order")]
  ∧ audit_events (emitted query demo_world) = []
  ∧ ¬ ∃ a, audit_events (emitted query demo_world) = [a]
           ∧ a_permission a = Some "orders.view_order" ∧ a_success a = true.
Proof.
  repeat split. intros (a & Hone & _). vm_compute in Hone. discriminate Hone.
Qed.

Lemma permission_checks_audited_witness :
  ∃ b self',
    (TenantUser.has_perm TENANT_AUTHX_DEFAULTS
       (TenantUser.__init__ alice (Some acme)) "orders.delete_order" demo_world).1
    = Ok (b, self')
    ∧ audit_events
        (emitted (TenantUser.has_perm TENANT_AUTHX_DEFAULTS
                    (TenantUser.__init__ alice (Some acme)) "orders.delete_order")
           demo_world)
      = audited TENANT_AUTHX_DEFAULTS
          [permission_check_record alice (Some acme) "orders.delete_order" b].
Proof.
  apply (proj1 (permission_checks_audited TENANT_AUTHX_DEFAULTS demo_world
                  ltac:(apply (bool_decide_unpack _); vm_compute; exact I))
           (TenantUser.__init__ alice (Some acme)) "orders.delete_order").
Defined.

Lemma subdomain_resolution_witness :
  _extract_subdomain "example.com" (strip_port "Shop.Acme.Example.COM:8000")
  = Some "shop"
  ∧ resolve prefix_match (SubdomainTenantResolver "example.com")
      (demo_request "Shop.Acme.Example.COM:8000" "/orders/")
    = get_tenant_by_slug "shop".
Proof.
  apply (proj1 (subdomain_resolution prefix_match "example.com"
                  (demo_request "Shop.Acme.Example.COM:8000" "/orders/"))
           "shop" ".acme").
  - discriminate.
  - reflexivity.
  - right. exists "acme". reflexivity.
  - reflexivity.
Defined.


Lemma get_all_permissions_memoized_witness :
  let fresh := TenantUser.__init__ alice (Some acme) in
  let used := TenantUser.set_permission_cache
                (TenantUser.set_membership_cache fresh (Some alice_at_acme))
                (Some {["orders.view_order"]}) in
  (∃ w1', TenantUser.get_all_permissions TENANT_AUTHX_DEFAULTS fresh demo_world
          = (Ok ({["orders.view_order"]}, used), w1'))
  ∧ TenantUser.get_all_permissions TENANT_AUTHX_DEFAULTS used
      {| store := empty_store; log := [] |}
    = (Ok ({["orders.view_order"]}, used), {| store := empty_store; log := [] |}).
Proof.
  intros fresh used.
  assert (∃ w1', TenantUser.get_all_permissions TENANT_AUTHX_DEFAULTS fresh demo_world
                 = (Ok ({["orders.view_order"]}, used), w1')) as Hfirst.
  { eexists. vm_compute. reflexivity. }
  split; [exact Hfirst|].
  destruct Hfirst as [w1' Hfirst].
  exact (proj1 (get_all_permissions_memoized TENANT_AUTHX_DEFAULTS)
           fresh used _ demo_world w1' Hfirst {| store := empty_store; log := [] |}).
Defined.

(** * Further properties of the code *)

(** ** Codenames *)

Lemma lower_char_idemp (c : ascii) : Str.lower_char (Str.lower_char c) = Str.lower_char c.
Proof. by destruct c as [[] [] [] [] [] [] [] []]. Qed.

Lemma lower_idemp (s : string) : Str.lower (Str.lower s) = Str.lower s.
Proof. induction s as [|c s IH]; [done|]. simpl. by rewrite lower_char_idemp, IH. Qed.

Lemma lower_app (s t : string) : Str.lower (s +:+ t) = Str.lower s +:+ Str.lower t.
Proof. induction s as [|c s IH]; [done|]. rewrite str_app_cons. simpl. by rewrite IH. Qed.

Lemma is_word_char_lower (c : ascii) : is_word_char c = true → Str.lower_char c = c.
Proof. by destruct c as [[] [] [] [] [] [] [] []]. Qed.

Lemma is_lower_letter_word (c : ascii) : is_lower_letter c = true → is_word_char c = true.
Proof. by destruct c as [[] [] [] [] [] [] [] []]. Qed.

Lemma is_word_char_not_dot (c : ascii) : is_word_char c = true → Ascii.eqb c "." = false.
Proof. by destruct c as [[] [] [] [] [] [] [] []]. Qed.

Lemma all_word_lower (s : string) : all_chars is_word_char s = true → Str.lower s = s.
Proof.
  induction s as [|c s IH]; [done|]. simpl. intros [Hc Hs]%andb_true_iff.
  by rewrite is_word_char_lower, IH.
Qed.

Lemma all_word_no_dot (s : string) :
  all_chars is_word_char s = true → count_char "." s = 0.
Proof.
  induction s as [|c s IH]; [done|]. simpl. intros [Hc Hs]%andb_true_iff.
  by rewrite is_word_char_not_dot, IH.
Qed.

Lemma count_char_app (c : ascii) (s t : string) :
  count_char c (s +:+ t) = count_char c s + count_char c t.
Proof.
  induction s as [|a s IH]; [done|]. rewrite str_app_cons. simpl. rewrite IH. lia.
Qed.

(** The greedy run is the longest prefix of word characters. *)
Lemma skip_word_chars_split (s : string) :
  ∃ run, s = run +:+ skip_word_chars s ∧ all_chars is_word_char run = true.
Proof.
  induction s as [|c s (run & Hs & Hrun)]; [by exists ""|]. simpl.
  destruct (is_word_char c) eqn:Hc.
  - exists (String c run). rewrite str_app_cons, <- Hs. simpl. by rewrite Hc.
  - by exists "".
Qed.

Lemma skip_word_chars_app (run rest : string) :
  all_chars is_word_char run = true →
  (∀ c rest', rest = String c rest' → is_word_char c = false) →
  skip_word_chars (run +:+ rest) = rest.
Proof.
  intros Hrun Hrest. induction run as [|c run IH].
  - rewrite str_app_nil_l. destruct rest as [|c rest']; [done|].
    simpl. by rewrite (Hrest c rest').
  - simpl in Hrun. apply andb_true_iff in Hrun as [Hc Hrun].
    rewrite str_app_cons. simpl. rewrite Hc. by apply IH.
Qed.

Lemma at_dollar_spec (s : string) : at_dollar s = true ↔ s = "" ∨ s = String "010" "".
Proof.
  destruct s as [|c [|c' s]]; simpl.
  - split; [by left|done].
  - rewrite Ascii.eqb_eq. split; [by intros ->; right|by intros [[=]|[= ->]]].
  - split; [done|by intros [[=]|[=]]].
Qed.

(** What the pattern accepts is made of two segments around a dot. *)
Lemma pattern_match_segments (codename : string) :
  PERMISSION_CODENAME_PATTERN_match codename = true →
  ∃ scope action,
    is_segment scope ∧ is_segment action
    ∧ (codename = scope +:+ "." +:+ action
       ∨ codename = scope +:+ "." +:+ action +:+ String "010" "").
Proof.
  unfold PERMISSION_CODENAME_PATTERN_match, match_segment.
  destruct codename as [|c0 s0]; [done|].
  destruct (is_lower_letter c0) eqn:Hc0; [|done].
  destruct (skip_word_chars_split s0) as (run0 & Hs0 & Hrun0).
  destruct (skip_word_chars s0) as [|d rest]; [done|].
  destruct (Ascii.eqb d ".") eqn:Hd; [|done]. apply Ascii.eqb_eq in Hd as ->.
  destruct rest as [|c1 s1]; [done|].
  destruct (is_lower_letter c1) eqn:Hc1; [|done].
  destruct (skip_word_chars_split s1) as (run1 & Hs1 & Hrun1).
  intros Hend%at_dollar_spec.
  exists (String c0 run0), (String c1 run1).
  split; [by exists c0, run0|]. split; [by exists c1, run1|].
  rewrite Hs0, Hs1. rewrite !str_app_cons, !str_app_nil_l.
  destruct Hend as [-> | ->].
  - left. by rewrite str_app_nil_r.
  - by right.
Qed.

(** X1: the codename pattern accepts exactly the strings [scope.action]
    whose two segments are a lower-case letter followed by lower-case
    letters, digits and underscores, and the same strings followed by one
    newline. *)
Theorem codename_pattern_spec (codename : string) :
  PERMISSION_CODENAME_PATTERN_match codename = true
  ↔ ∃ scope action,
      is_segment scope ∧ is_segment action
      ∧ (codename = scope +:+ "." +:+ action
         ∨ codename = scope +:+ "." +:+ action +:+ String "010" "").
Proof.
  split; [apply pattern_match_segments|].
  unfold PERMISSION_CODENAME_PATTERN_match, match_segment.
  intros (scope & action & (c0 & run0 & -> & Hc0 & Hrun0)
          & (c1 & run1 & -> & Hc1 & Hrun1) & Hcode).
  assert (∃ tail, (tail = "" ∨ tail = String "010" "")
                  ∧ codename = String c0 (run0 +:+ String "." (String c1 (run1 +:+ tail))))
    as (tail & Htail & ->).
  { destruct Hcode as [-> | ->].
    - exists "". split; [by left|].
      by rewrite !str_app_cons, !str_app_nil_l, str_app_nil_r.
    - exists (String "010" ""). split; [by right|].
      by rewrite !str_app_cons, !str_app_nil_l. }
  rewrite Hc0. rewrite skip_word_chars_app; [|done|by intros c r [= <- _]].
  simpl. rewrite Hc1. rewrite skip_word_chars_app; [by apply at_dollar_spec|done|].
  intros c r ->. by destruct Htail as [[=] | [= -> _]].
Qed.

(** X2: a codename that [is_valid_permission_codename] accepts, and a
    non-empty codename that [Permission.clean] accepts, has exactly one dot
    and no upper-case letter. *)
Theorem valid_codename_shape (codename : string) :
  (is_valid_permission_codename codename = true →
   count_char "." codename = 1 ∧ Str.lower codename = codename)
  ∧ (∀ self : Permission,
       p_codename self = codename → codename ≠ "" →
       Permission.clean self = Ok () →
       count_char "." codename = 1 ∧ Str.lower codename = codename).
Proof.
  assert (PERMISSION_CODENAME_PATTERN_match codename = true →
          count_char "." codename = 1 ∧ Str.lower codename = codename) as Hshape.
  { intros (scope & action & (c0 & run0 & -> & Hc0 & Hrun0)
            & (c1 & run1 & -> & Hc1 & Hrun1) & Hcode)%pattern_match_segments.
    assert (count_char "." (String c0 run0) = 0) as Hd0.
    { apply all_word_no_dot. simpl. by rewrite is_lower_letter_word. }
    assert (count_char "." (String c1 run1) = 0) as Hd1.
    { apply all_word_no_dot. simpl. by rewrite is_lower_letter_word. }
    assert (Str.lower (String c0 run0) = String c0 run0) as Hl0.
    { apply all_word_lower. simpl. by rewrite is_lower_letter_word. }
    assert (Str.lower (String c1 run1) = String c1 run1) as Hl1.
    { apply all_word_lower. simpl. by rewrite is_lower_letter_word. }
    destruct Hcode as [-> | ->].
    - rewrite !count_char_app, !lower_app, Hd0, Hd1, Hl0, Hl1. done.
    - rewrite !count_char_app, !lower_app, Hd0, Hd1, Hl0, Hl1. done. }
  split.
  - unfold is_valid_permission_codename.
    destruct (negb (Str.truthy codename)); [done|]. exact Hshape.
  - intros self Hself Hne. unfold Permission.clean. rewrite Hself.
    rewrite truthy_nonempty by done. simpl.
    destruct (PERMISSION_CODENAME_PATTERN_match codename); [|done].
    intros _. by apply Hshape.
Qed.

(** X3: the validators that answer with a boolean agree with the ones that
    raise. *)
Theorem boolean_validators_agree :
  (∀ tenant : option Tenant,
     is_valid_tenant_context tenant = true
     ↔ ∃ t, validate_tenant_context tenant = Ok t)
  ∧ (∀ tenant t, validate_tenant_context tenant = Ok t →
                 tenant = Some t ∧ t_is_active t = true)
  ∧ (∀ codename : string,
       is_valid_permission_codename codename = true
       ↔ validate_permission_codename codename = Ok codename)
  ∧ (∀ codename c, validate_permission_codename codename = Ok c → c = codename).
Proof.
  split; [|split; [|split]].
  - intros [t|]; simpl; [|by split; [|intros [t Ht]]].
    destruct (t_is_active t); simpl; [by split; [exists t|]|].
    by split; [|intros [t' Ht']].
  - intros [t'|] t; simpl; [|done].
    destruct (t_is_active t') eqn:E; simpl; [|done]. by intros [= <-].
  - intros codename.
    unfold is_valid_permission_codename, validate_permission_codename.
    destruct (negb (Str.truthy codename)); [done|].
    by destruct (PERMISSION_CODENAME_PATTERN_match codename).
  - intros codename c. unfold validate_permission_codename.
    destruct (negb (Str.truthy codename)); [done|].
    destruct (PERMISSION_CODENAME_PATTERN_match codename); [|done].
    simpl. by intros [= <-].
Qed.

(** ** Role and permission assignment *)

Lemma m2m_add_spec (pair x : uuid * uuid) (table : list (uuid * uuid)) :
  x ∈ m2m_add pair table ↔ x = pair ∨ x ∈ table.
Proof.
  unfold m2m_add. case_decide as Hin.
  - split; [by right|]. by intros [-> | ?].
  - rewrite elem_of_app, list_elem_of_singleton. tauto.
Qed.

Lemma m2m_add_NoDup (pair : uuid * uuid) (table : list (uuid * uuid)) :
  NoDup table → NoDup (m2m_add pair table).
Proof.
  intros Hnd. unfold m2m_add. case_decide as Hin; [done|].
  apply NoDup_app. split; [done|]. split; [|apply NoDup_singleton].
  intros x Hx ->%list_elem_of_singleton. done.
Qed.

Lemma m2m_add_idemp (pair : uuid * uuid) (table : list (uuid * uuid)) :
  m2m_add pair (m2m_add pair table) = m2m_add pair table.
Proof.
  unfold m2m_add at 1. rewrite decide_True; [done|].
  apply m2m_add_spec. by left.
Qed.

(** X4: [add_role] with a role of the membership's tenant, when the
    membership and the role are rows of their tables, succeeds, writes
    nothing to the log and changes the through table only: the pair is in
    it afterwards, every other pair is as before, no pair is doubled, and
    adding the same role again changes nothing.  A same-tenant role that is
    in no table is refused by the database with [IntegrityError], the
    world left as it was. *)
Theorem add_role_assigns (self : TenantMembership) (role : Role) (w : World) :
  r_tenant_id role = m_tenant_id self →
  (m_id self ∈ m_id <$> memberships (store w) →
   r_id role ∈ r_id <$> roles (store w) →
   ∃ w',
     TenantMembership.add_role self role w = (Ok (), w')
     ∧ log w' = log w
     ∧ store w' = set_membership_roles (store w) (membership_roles (store w'))
     ∧ (∀ pair, pair ∈ membership_roles (store w')
                ↔ pair = (m_id self, r_id role) ∨ pair ∈ membership_roles (store w))
     ∧ (NoDup (membership_roles (store w)) → NoDup (membership_roles (store w')))
     ∧ TenantMembership.add_role self role w' = (Ok (), w'))
  ∧ (r_id role ∉ r_id <$> roles (store w) →
     (m_id self, r_id role) ∉ membership_roles (store w) →
     TenantMembership.add_role self role w = (Raise IntegrityError, w)).
Proof.
  destruct w as [st lg]. simpl.
  intros Hsame. unfold TenantMembership.add_role.
  rewrite decide_False by (by intros ?). unfold_M. simpl. split.
  - intros Hm Hr. destruct (decide ((m_id self, r_id role) ∈ membership_roles st))
      as [Hin | Hnotin].
    + exists {| store := st; log := lg |}. simpl.
      split; [done|]. split; [done|]. split; [by destruct st|].
      split; [intros pair; split; [by right|by intros [-> | ?]]|].
      split; [done|]. by rewrite decide_True.
    + rewrite decide_True by done.
      eexists. split; [reflexivity|]. simpl.
      split; [done|]. split; [done|]. split; [intros pair; apply m2m_add_spec|].
      split; [apply m2m_add_NoDup|].
      rewrite decide_True; [done|]. apply m2m_add_spec. by left.
  - intros Hr Hnotin. rewrite decide_False by done.
    rewrite decide_False; [done|]. by intros [_ ?].
Qed.

(** X5: [remove_role] never raises.  Afterwards the pair is gone and every
    other pair is as before, so the membership is granted a codename
    exactly when a role other than the removed one grants it. *)
Theorem remove_role_revokes (self : TenantMembership) (role : Role) (w : World) :
  ∃ w',
    TenantMembership.remove_role self role w = (Ok (), w')
    ∧ log w' = log w
    ∧ (∀ pair, pair ∈ membership_roles (store w')
               ↔ pair ≠ (m_id self, r_id role) ∧ pair ∈ membership_roles (store w))
    ∧ (∀ codename,
         active_role_grants (store w') self codename
         ↔ ∃ r p, r_id r ≠ r_id role
                  ∧ r ∈ roles (store w) ∧ (m_id self, r_id r) ∈ membership_roles (store w)
                  ∧ r_is_active r = true
                  ∧ p ∈ permissions (store w) ∧ (r_id r, p_id p) ∈ role_permissions (store w)
                  ∧ p_codename p = codename).
Proof.
  eexists. split; [reflexivity|]. simpl. split; [done|].
  assert (∀ pair, pair ∈ m2m_remove (m_id self, r_id role) (membership_roles (store w))
                  ↔ pair ≠ (m_id self, r_id role) ∧ pair ∈ membership_roles (store w))
    as Htable.
  { intros pair. unfold m2m_remove. by rewrite list_elem_of_filter. }
  split; [exact Htable|].
  intros codename. unfold active_role_grants. simpl. split.
  - intros (r & p & Hr & Hjoin & Hact & Hp & Hpj & Hc).
    apply Htable in Hjoin as [Hne Hjoin].
    exists r, p. split; [|done]. intros Heq. apply Hne. by rewrite Heq.
  - intros (r & p & Hne & Hr & Hjoin & Hact & Hp & Hpj & Hc).
    exists r, p. split; [done|]. split; [|done].
    apply Htable. split; [|done]. intros [= Heq]. done.
Qed.

(** X6: [add_permission] with a permission of the role's tenant grants it:
    a membership that holds the (active, existing) role is granted the
    codename afterwards, and nothing that was granted to any membership
    before is lost. *)
Theorem add_permission_grants (self : Role) (permission : Permission)
    (m : TenantMembership) (w : World) :
  p_tenant_id permission = r_tenant_id self →
  self ∈ roles (store w) → r_is_active self = true →
  permission ∈ permissions (store w) →
  (m_id m, r_id self) ∈ membership_roles (store w) →
  ∃ w',
    Role.add_permission self permission w = (Ok (), w')
    ∧ (TenantMembership.has_permission m (p_codename permission) w').1 = Ok true
    ∧ p_codename permission ∈ Role.get_permissions self (store w')
    ∧ (∀ m' codename, active_role_grants (store w) m' codename →
                      active_role_grants (store w') m' codename).
Proof.
  destruct w as [st lg]. simpl.
  intros Hsame Hrole Hact Hperm Hjoin.
  assert (∃ st',
    Role.add_permission self permission {| store := st; log := lg |}
    = (Ok (), {| store := st'; log := lg |})
    ∧ roles st' = roles st ∧ permissions st' = permissions st
    ∧ membership_roles st' = membership_roles st
    ∧ ∀ pair, pair ∈ role_permissions st'
              ↔ pair = (r_id self, p_id permission) ∨ pair ∈ role_permissions st)
    as (st' & Hrun & Hroles & Hperms & Hmr & Hrp).
  { unfold Role.add_permission. rewrite decide_False by (by intros ?).
    unfold_M. simpl.
    destruct (decide ((r_id self, p_id permission) ∈ role_permissions st))
      as [Hin | Hnotin].
    - exists st. repeat (split; [done|]).
      intros pair. split; [by right|by intros [-> | ?]].
    - rewrite decide_True
        by (split; [by apply (list_elem_of_fmap_2 r_id)|by apply (list_elem_of_fmap_2 p_id)]).
      eexists. split; [reflexivity|]. simpl. repeat (split; [done|]).
      intros pair. apply m2m_add_spec. }
  assert ((r_id self, p_id permission) ∈ role_permissions st') as Hin.
  { apply Hrp. by left. }
  assert ((TenantMembership.has_permission m (p_codename permission)
             {| store := st'; log := lg |}).1 = Ok true) as Hgranted.
  { destruct (has_permission_run st' lg m (p_codename permission))
      as (b & Hrun' & Hiff).
    rewrite Hrun'. simpl. f_equal.
    apply Hiff. exists self, permission. rewrite Hroles, Hperms, Hmr. done. }
  exists {| store := st'; log := lg |}. split; [exact Hrun|].
  split; [exact Hgranted|]. split.
  - unfold Role.get_permissions, permissions_of. simpl.
    apply elem_of_list_to_set, list_elem_of_fmap. exists permission.
    split; [done|]. apply list_elem_of_filter. rewrite Hperms. done.
  - intros m' codename (r & p & Hr & Hj & Ha & Hp & Hpj & Hc).
    exists r, p. simpl. rewrite Hroles, Hperms, Hmr.
    repeat (split; [done|]). split; [|done]. apply Hrp. by right.
Qed.

(** ** Joining a tenant *)

Lemma m2m_set_spec (owner : uuid) (targets : list uuid) (table : list (uuid * uuid))
    (x : uuid * uuid) :
  x ∈ m2m_set owner targets table
  ↔ (x.1 = owner ∧ x.2 ∈ targets) ∨ (x.1 ≠ owner ∧ x ∈ table).
Proof.
  unfold m2m_set.
  assert (∀ (ts : list uuid) (tbl : list (uuid * uuid)),
            x ∈ foldl (λ tbl target, m2m_add (owner, target) tbl) tbl ts
            ↔ (x.1 = owner ∧ x.2 ∈ ts) ∨ x ∈ tbl) as Hfold.
  { induction ts as [|t ts IH]; intros tbl; simpl.
    - rewrite elem_of_nil. tauto.
    - rewrite IH, m2m_add_spec, elem_of_cons. destruct x as [a b]. simpl.
      split.
      + intros [[-> Hb] | [[= -> ->] | Hin]]; auto.
      + intros [[-> [-> | Hb]] | Hin]; auto. }
  rewrite Hfold, list_elem_of_filter. destruct x as [a b]. simpl.
  destruct (decide (a = owner)) as [-> | Hne]; [|tauto].
  split.
  - intros [H | [[H | H] _]]; [by left|done|by left].
  - intros [H | [H _]]; [by left|done].
Qed.

Lemma membership_unique_snoc (st : Store) (m : TenantMembership) :
  membership_unique st →
  (¬ ∃ m', m' ∈ memberships st ∧ m_user_id m' = m_user_id m
           ∧ m_tenant_id m' = m_tenant_id m) →
  membership_unique (set_memberships st (memberships st ++ [m])).
Proof.
  unfold membership_unique. simpl. intros Hu Hfresh.
  rewrite fmap_app. apply NoDup_app. split; [done|]. split; [|apply NoDup_singleton].
  intros key Hkey Hm. apply list_elem_of_singleton in Hm as ->.
  apply list_elem_of_fmap in Hkey as (m' & [= Hu' Ht'] & Hin).
  apply Hfresh. by exists m'.
Qed.

(** X7: [add_member] for a user without a membership in the tenant (a new
    primary key, an existing tenant, existing roles) creates the membership
    with the given activity flag and attaches every listed role, whatever
    tenant owns the role; the (user, tenant) uniqueness is kept, and an
    active new membership is what the permission engine then finds. *)
Theorem add_member_creates (new_id : uuid) (self : Tenant) (user : User)
    (role_list : list Role) (is_active : bool) (w : World) :
  let st := store w in
  let m := {| m_id := new_id; m_user_id := u_pk user; m_tenant_id := t_id self;
              m_is_active := is_active |} in
  (¬ ∃ m', m' ∈ memberships st ∧ m_user_id m' = u_pk user
           ∧ m_tenant_id m' = t_id self) →
  new_id ∉ m_id <$> memberships st →
  t_id self ∈ t_id <$> tenants st →
  Forall (λ r, r_id r ∈ r_id <$> roles st) role_list →
  ∃ w',
    TenantOps.add_member new_id self user role_list is_active w = (Ok m, w')
    ∧ log w' = log w
    ∧ memberships (store w') = memberships st ++ [m]
    ∧ (membership_unique st → membership_unique (store w'))
    ∧ (∀ role, role ∈ role_list → (new_id, r_id role) ∈ membership_roles (store w'))
    ∧ (is_active = true → membership_unique st →
       (find_active_membership user (Some self) w').1 = Ok (Some m)).
Proof.
  destruct w as [st lg]. simpl.
  intros Hnone Hfresh Htenant Hroles.
  set (m := {| m_id := new_id; m_user_id := u_pk user; m_tenant_id := t_id self;
               m_is_active := is_active |}).
  set (st1 := set_memberships st (memberships st ++ [m])).
  set (st2 := match role_list with
              | [] => st1
              | _ => set_membership_roles st1
                       (m2m_set new_id (r_id <$> role_list) (membership_roles st1))
              end).
  assert (TenantOps.add_member new_id self user role_list is_active
            {| store := st; log := lg |} = (Ok m, {| store := st2; log := lg |})) as Hrun.
  { unfold TenantOps.add_member. unfold_M. simpl.
    assert (filter (λ m0, m_user_id m0 = u_pk user ∧ m_tenant_id m0 = t_id self)
              (memberships st) = []) as ->.
    { apply elem_of_nil_inv. intros x [[? ?] ?]%list_elem_of_filter.
      apply Hnone. by exists x. }
    rewrite decide_False by done.
    rewrite decide_False by (by intros ?).
    unfold st2. destruct role_list as [|r rs]; [done|].
    by rewrite decide_True. }
  assert (memberships st2 = memberships st ++ [m]) as Hms.
  { unfold st2. by destruct role_list. }
  assert (membership_unique st → membership_unique st2) as Huniq.
  { intros Hu. unfold membership_unique. rewrite Hms.
    by apply (membership_unique_snoc st m). }
  exists {| store := st2; log := lg |}. split; [exact Hrun|]. simpl.
  split; [done|]. split; [done|]. split; [done|]. split.
  - intros role Hrole. unfold st2. destruct role_list as [|r rs].
    + by apply elem_of_nil in Hrole.
    + simpl. apply m2m_set_spec. left. simpl. split; [done|].
      by apply (list_elem_of_fmap_2 r_id) in Hrole.
  - intros -> Hu.
    destruct (find_active_membership_run st2 lg user (Some self) (Huniq Hu))
      as (found & Hfind & Hl).
    rewrite Hfind. simpl. f_equal.
    apply option_list_elem_of. rewrite <- Hl.
    apply (active_memberships_spec st2 user (Some self)).
    unfold is_active_membership. rewrite Hms. simpl.
    split; [|done]. apply elem_of_app. right. by apply list_elem_of_singleton.
Qed.

(** X8: [add_member] keeps the (user, tenant) uniqueness of the membership
    table in every outcome; for a user who already has a membership in the
    tenant, active or not, it raises [ValidationError] and changes
    nothing. *)
Theorem add_member_keeps_unique (new_id : uuid) (self : Tenant) (user : User)
    (role_list : list Role) (is_active : bool) (w : World) :
  membership_unique (store w) →
  membership_unique (store (TenantOps.add_member new_id self user role_list is_active w).2)
  ∧ ((∃ m', m' ∈ memberships (store w) ∧ m_user_id m' = u_pk user
            ∧ m_tenant_id m' = t_id self) →
     TenantOps.add_member new_id self user role_list is_active w
     = (Raise ValidationError, w)).
Proof.
  destruct w as [st lg]. simpl. intros Hu.
  pose proof (filter_unique_key (λ m, (m_user_id m, m_tenant_id m)) (u_pk user, t_id self)
    (λ m, m_user_id m = u_pk user ∧ m_tenant_id m = t_id self) (memberships st) Hu)
    as Hlen.
  unfold TenantOps.add_member. unfold_M. simpl.
  destruct (filter _ (memberships st)) as [|m0 [|m1 l]] eqn:E.
  - split.
    + set (m := {| m_id := new_id; m_user_id := u_pk user; m_tenant_id := t_id self;
                   m_is_active := is_active |}).
      assert (membership_unique (set_memberships st (memberships st ++ [m]))) as Hu1.
      { apply membership_unique_snoc; [done|].
        intros (m' & Hin & Huser & Htenant).
        assert (m' ∈ filter (λ m0, m_user_id m0 = u_pk user ∧ m_tenant_id m0 = t_id self)
                       (memberships st)) as Hf by (by apply list_elem_of_filter).
        rewrite E in Hf. by apply elem_of_nil in Hf. }
      case_decide; [done|]. case_decide; [done|].
      destruct role_list as [|r rs]; [done|].
      case_decide; done.
    + intros (m' & Hin & Huser & Htenant).
      assert (m' ∈ filter (λ m0, m_user_id m0 = u_pk user ∧ m_tenant_id m0 = t_id self)
                     (memberships st)) as Hf by (by apply list_elem_of_filter).
      rewrite E in Hf. by apply elem_of_nil in Hf.
  - done.
  - exfalso. simpl in Hlen. cut (S (S (length l)) ≤ 1); [lia|].
    apply Hlen. by intros x [-> ->].
Qed.

(** ** Writing and finding tenants *)

Lemma truthy_lower (s : string) : Str.truthy (Str.lower s) = Str.truthy s.
Proof. by destruct s. Qed.

Lemma clean_slug (t : Tenant) : t_slug (Tenant.clean t) = Str.lower (t_slug t).
Proof. simpl. by destruct (t_slug t). Qed.

Lemma clean_domain (t : Tenant) : t_domain (Tenant.clean t) = Str.lower <$> t_domain t.
Proof. simpl. destruct (t_domain t) as [[|c d]|]; done. Qed.

Lemma lower_char_capital (c : ascii) :
  is_capital (Str.lower_char c) = false
  ∧ (Str.lower_char c = c ↔ is_capital c = false).
Proof. destruct c as [[] [] [] [] [] [] [] []]; by split. Qed.

Lemma lower_no_capital (s : string) : no_capital (Str.lower s).
Proof.
  unfold no_capital. induction s as [|c s IH]; [done|]. simpl.
  by rewrite (proj1 (lower_char_capital c)), IH.
Qed.

Lemma lower_fixed (s : string) : Str.lower s = s ↔ no_capital s.
Proof.
  unfold no_capital. induction s as [|c s IH]; [done|]. simpl.
  rewrite andb_true_iff, negb_true_iff, <- IH, <- (proj2 (lower_char_capital c)).
  split; [by intros [= -> ->]|by intros [-> ->]].
Qed.

Lemma lower_length (s : string) : String.length (Str.lower s) = String.length s.
Proof. induction s as [|c s IH]; [done|]. simpl. by rewrite IH. Qed.

(** X9: [Tenant.clean] is idempotent.  Afterwards the slug and the domain
    hold no capital letter and are as long as before; the identifier, the
    name and the activity flag are untouched; and [clean] changes a tenant
    exactly when its slug or its domain holds a capital letter. *)
Theorem clean_normalizes (t : Tenant) :
  Tenant.clean (Tenant.clean t) = Tenant.clean t
  ∧ no_capital (t_slug (Tenant.clean t))
  ∧ (∀ d, t_domain (Tenant.clean t) = Some d → no_capital d)
  ∧ (Tenant.clean t = t
     ↔ no_capital (t_slug t) ∧ ∀ d, t_domain t = Some d → no_capital d)
  ∧ String.length (t_slug (Tenant.clean t)) = String.length (t_slug t)
  ∧ (String.length <$> t_domain (Tenant.clean t)) = (String.length <$> t_domain t)
  ∧ t_id (Tenant.clean t) = t_id t
  ∧ t_name (Tenant.clean t) = t_name t
  ∧ t_is_active (Tenant.clean t) = t_is_active t.
Proof.
  split; [|split; [|split; [|split; [|split; [|split]]]]].
  - destruct t as [i n s d a]. unfold Tenant.clean. simpl. f_equal.
    + destruct s as [|c s]; [done|]. simpl. by rewrite lower_char_idemp, lower_idemp.
    + destruct d as [[|c d]|]; [done| |done]. simpl.
      by rewrite lower_char_idemp, lower_idemp.
  - rewrite clean_slug. apply lower_no_capital.
  - intros d. rewrite clean_domain. destruct (t_domain t) as [d0|]; [|done].
    intros [= <-]. apply lower_no_capital.
  - split.
    + intros Hfix. split.
      * apply lower_fixed. rewrite <- clean_slug. by rewrite Hfix.
      * intros d Hd. apply lower_fixed.
        pose proof (clean_domain t) as Hdom. rewrite Hfix, Hd in Hdom.
        by injection Hdom as <-.
    + intros [Hslug Hdomain]. destruct t as [i n s d a].
      pose proof (clean_slug {| t_id := i; t_name := n; t_slug := s; t_domain := d;
                                t_is_active := a |}) as Hs.
      pose proof (clean_domain {| t_id := i; t_name := n; t_slug := s; t_domain := d;
                                  t_is_active := a |}) as Hd.
      simpl in *. unfold Tenant.clean. simpl. f_equal.
      * rewrite Hs. by apply lower_fixed.
      * rewrite Hd. destruct d as [d|]; [|done]. simpl. f_equal.
        by apply lower_fixed, Hdomain.
  - rewrite clean_slug. apply lower_length.
  - rewrite clean_domain. destruct (t_domain t) as [d|]; [|done]. simpl.
    by rewrite lower_length.
  - done.
Qed.

Lemma objects_get_singleton {A} (P : A → Prop) `{!∀ x, Decision (P x)}
    (others : list A) (x : A) :
  P x → (∀ y, y ∈ others → ¬ P y) → filter P (others ++ [x]) = [x].
Proof.
  intros Hx Hothers. rewrite filter_app.
  assert (filter P others = []) as ->.
  { apply elem_of_nil_inv. intros y [Hy Hin]%list_elem_of_filter. by apply (Hothers y). }
  rewrite filter_cons, decide_True by done. done.
Qed.

(** X10: a tenant that is cleaned and then saved (no other row has its
    slug or its domain) is found again by the resolvers' lookups under
    every spelling of its slug and of its domain that differs in case
    only; a deactivated tenant is reported as inactive, not as missing. *)
Theorem clean_save_lookup (t : Tenant) (w : World) :
  let ct := Tenant.clean t in
  let found := if t_is_active t then Ok ct else Raise (TenantInactiveError ct) in
  (∀ t', t' ∈ tenants (store w) → t_id t' ≠ t_id t →
         t_slug t' ≠ t_slug ct
         ∧ (is_Some (t_domain ct) → t_domain t' ≠ t_domain ct)) →
  ∃ w',
    Tenant.save ct w = (Ok (), w')
    ∧ log w' = log w
    ∧ (∀ slug, Str.lower slug = Str.lower (t_slug t) →
               (get_tenant_by_slug slug w').1 = found)
    ∧ (∀ domain d, t_domain t = Some d → Str.lower domain = Str.lower d →
                   (get_tenant_by_domain domain w').1 = found).
Proof.
  destruct w as [st lg]. intros ct found Hfree. simpl in Hfree.
  set (others := filter (λ t', t_id t' ≠ t_id ct) (tenants st)).
  assert (∀ t', t' ∈ others →
                t_slug t' ≠ t_slug ct
                ∧ (is_Some (t_domain ct) → t_domain t' ≠ t_domain ct)) as Hothers.
  { intros t' [Hid Hin]%list_elem_of_filter. by apply Hfree. }
  exists {| store := set_tenants st (others ++ [ct]); log := lg |}.
  split; [|split; [done|split]].
  - unfold Tenant.save. unfold_M. simpl. fold others.
    rewrite decide_False; [done|].
    intros (t' & Hin & Hclash)%Exists_exists.
    destruct (Hothers t' Hin) as [Hslug Hdom].
    destruct Hclash as [? | [Hsome ?]]; [done|]. by apply Hdom.
  - intros slug Hslug. unfold get_tenant_by_slug. unfold_M. simpl.
    rewrite (objects_get_singleton _ others ct).
    + simpl. unfold found. replace (t_is_active ct) with (t_is_active t) by done.
      by destruct (t_is_active t).
    + by rewrite Hslug, <- clean_slug.
    + intros t' Hin. rewrite Hslug, <- clean_slug. by apply Hothers.
  - intros domain d Hd Hdomain. unfold get_tenant_by_domain. unfold_M. simpl.
    assert (t_domain ct = Some (Str.lower domain)) as Hct.
    { unfold ct. by rewrite clean_domain, Hd, Hdomain. }
    rewrite (objects_get_singleton _ others ct).
    + simpl. unfold found. replace (t_is_active ct) with (t_is_active t) by done.
      by destruct (t_is_active t).
    + done.
    + intros t' Hin. rewrite <- Hct. apply Hothers; [done|]. by rewrite Hct.
Qed.


(** ** What the engine decides *)

Lemma engine_events_nil : engine_events [].
Proof. constructor. Qed.

Lemma engine_events_app (l1 l2 : list Event) :
  engine_events l1 → engine_events l2 → engine_events (l1 ++ l2).
Proof. apply Forall_app_2. Qed.

Lemma engine_events_query (q : Query) : engine_events [EvQuery q].
Proof. by repeat constructor. Qed.

Lemma engine_events_no_view (l : list Event) : engine_events l → view_calls l = [].
Proof.
  induction 1 as [|ev l Hev _ IH]; [done|].
  destruct ev; try done; exact IH.
Qed.


Lemma active_membership_unique (st : Store) (user : User) (tenant : option Tenant)
    (m m' : TenantMembership) :
  membership_unique st →
  is_active_membership st user tenant m → is_active_membership st user tenant m' →
  m = m'.
Proof.
  intros Hu Hm Hm'.
  destruct (active_memberships_option st (u_pk user) (t_id <$> tenant) Hu) as [o Ho].
  apply active_memberships_spec in Hm, Hm'.
  rewrite Ho in Hm, Hm'. apply option_list_elem_of in Hm, Hm'. congruence.
Qed.

Lemma view_calls_app (l1 l2 : list Event) :
  view_calls (l1 ++ l2) = view_calls l1 ++ view_calls l2.
Proof. apply omap_app. Qed.

Lemma audit_events_app (l1 l2 : list Event) :
  audit_events (l1 ++ l2) = audit_events l1 ++ audit_events l2.
Proof. apply omap_app. Qed.

Lemma query_events (evs : list Event) :
  evs = [] ∨ (∃ q, evs = [EvQuery q]) → view_calls evs = [] ∧ audit_events evs = [].
Proof. by intros [-> | [q ->]]. Qed.

Lemma query_events_engine (evs : list Event) :
  evs = [] ∨ (∃ q, evs = [EvQuery q]) → engine_events evs.
Proof. intros [-> | [q ->]]; [apply engine_events_nil|apply engine_events_query]. Qed.

(** The lookup of the engine, with a pre-fetched membership or without. *)
Lemma membership_arg_run (st : Store) (lg : list Event) (user : User)
    (tenant : option Tenant) (membership : option TenantMembership) :
  membership_unique st →
  (∀ m, membership = Some m → is_active_membership st user tenant m) →
  ∃ found evs,
    (match membership with
     | Some m => mret (Some m)
     | None => find_active_membership user tenant
     end) {| store := st; log := lg |}
    = (Ok found, {| store := st; log := lg ++ evs |})
    ∧ engine_events evs
    ∧ (∀ m, found = Some m ↔ is_active_membership st user tenant m).
Proof.
  intros Hu Hpre. destruct membership as [m|].
  - exists (Some m), []. rewrite app_nil_r. split; [done|].
    split; [apply engine_events_nil|].
    intros m'. split.
    + intros [= <-]. by apply Hpre.
    + intros Hm'. f_equal. eapply active_membership_unique; eauto.
  - destruct (find_active_membership_run st lg user tenant Hu) as (found & Hr & Hl).
    exists found. eexists. split; [exact Hr|]. split; [apply engine_events_query|].
    intros m. rewrite <- active_memberships_spec, Hl. by rewrite option_list_elem_of.
Qed.

Lemma check_permission_events (cfg : Settings) (st : Store) (lg : list Event)
    (user : User) (tenant : option Tenant) (codename : string)
    (membership : option TenantMembership) :
  membership_unique st →
  (∀ m, membership = Some m → is_active_membership st user tenant m) →
  ∃ b evs,
    PermissionChecker.check_permission cfg user tenant codename membership
      {| store := st; log := lg |} = (Ok b, {| store := st; log := lg ++ evs |})
    ∧ engine_events evs
    ∧ (b = true ↔ allowed cfg st user tenant codename).
Proof.
  intros Hu Hpre. unfold PermissionChecker.check_permission, allowed, granted.
  destruct (SUPERUSER_BYPASS cfg && u_is_superuser user).
  { exists true, []. rewrite app_nil_r. split; [done|].
    split; [apply engine_events_nil|]. by split; [left|]. }
  unfold validate_tenant_context, tenant_present_and_active.
  destruct tenant as [t|]; [destruct (t_is_active t) eqn:Hact|]; simpl.
  - destruct (membership_arg_run st lg user (Some t) membership Hu Hpre)
      as (found & evs & Hrun & Hq & Hfound).
    rewrite run_bind, Hrun. destruct found as [m|].
    + destruct (has_permission_run st (lg ++ evs) m codename) as (b & Hb & Hiff).
      exists b. eexists. rewrite Hb, <- app_assoc. split; [done|].
      split; [apply engine_events_app; [done|apply engine_events_query]|].
      rewrite Hiff. split.
      * intros Hg. right. split; [by exists t|]. exists m. split; [by apply Hfound|done].
      * intros [? | (_ & m' & Hm' & Hg)]; [done|]. apply Hfound in Hm'. by simplify_eq.
    + exists false, evs. split; [done|]. split; [done|]. split; [done|].
      intros [? | (_ & m & Hm & _)]; [done|]. apply Hfound in Hm. done.
  - exists false, []. rewrite app_nil_r. split; [done|].
    split; [apply engine_events_nil|]. split; [done|].
    intros [? | ((t' & [= <-] & Hact') & _)]; [done|congruence].
  - exists false, []. rewrite app_nil_r. split; [done|].
    split; [apply engine_events_nil|]. split; [done|].
    intros [? | ((t' & ? & _) & _)]; done.
Qed.

(** X12: [has_any_permission] is the disjunction and [has_all_permissions]
    the conjunction of the single checks over the list: the first returns
    [True] exactly when some listed codename is allowed (by the bypass or
    by the rule), the second exactly when every listed codename is. *)
Theorem any_all_permissions (cfg : Settings) (st : Store) (lg : list Event)
    (user : User) (tenant : option Tenant) (perms : list string)
    (membership : option TenantMembership) :
  membership_unique st →
  (∀ m, membership = Some m → is_active_membership st user tenant m) →
  ∃ b_any b_all,
    (PermissionChecker.has_any_permission cfg user tenant perms membership
       {| store := st; log := lg |}).1 = Ok b_any
    ∧ (PermissionChecker.has_all_permissions cfg user tenant perms membership
         {| store := st; log := lg |}).1 = Ok b_all
    ∧ (b_any = true ↔ ∃ p, p ∈ perms ∧ allowed cfg st user tenant p)
    ∧ (b_all = true ↔ ∀ p, p ∈ perms → allowed cfg st user tenant p).
Proof.
  intros Hu Hpre.
  assert (∀ lg, ∃ b,
    (PermissionChecker.has_any_permission cfg user tenant perms membership
       {| store := st; log := lg |}).1 = Ok b
    ∧ (b = true ↔ ∃ p, p ∈ perms ∧ allowed cfg st user tenant p)) as Hany.
  { clear lg. induction perms as [|perm rest IH]; intros lg; simpl.
    - exists false. split; [done|]. split; [done|].
      by intros (p & ?%elem_of_nil & _).
    - destruct (check_permission_events cfg st lg user tenant perm membership Hu Hpre)
        as (b & evs & Hrun & _ & Hb).
      rewrite run_bind, Hrun. destruct b.
      + exists true. split; [done|]. split; [|done]. intros _.
        exists perm. split; [left|by apply Hb].
      + destruct (IH (lg ++ evs)) as (b' & Hrun' & Hb').
        exists b'. split; [done|]. rewrite Hb'. split.
        * intros (p & Hp & Ha). exists p. split; [by right|done].
        * intros (p & [-> | Hp]%elem_of_cons & Ha).
          -- apply Hb in Ha. done.
          -- by exists p. }
  assert (∀ lg, ∃ b,
    (PermissionChecker.has_all_permissions cfg user tenant perms membership
       {| store := st; log := lg |}).1 = Ok b
    ∧ (b = true ↔ ∀ p, p ∈ perms → allowed cfg st user tenant p)) as Hall.
  { clear lg Hany. induction perms as [|perm rest IH]; intros lg; simpl.
    - exists true. split; [done|]. split; [|done]. by intros _ p ?%elem_of_nil.
    - destruct (check_permission_events cfg st lg user tenant perm membership Hu Hpre)
        as (b & evs & Hrun & _ & Hb).
      rewrite run_bind, Hrun. destruct b; simpl.
      + destruct (IH (lg ++ evs)) as (b' & Hrun' & Hb').
        exists b'. split; [done|]. rewrite Hb'. split.
        * intros Hrest p [-> | Hp]%elem_of_cons; [by apply Hb|by apply Hrest].
        * intros Hall p Hp. apply Hall. by right.
      + exists false. split; [done|]. split; [done|]. intros Hall.
        apply Hb, Hall. by left. }
  destruct (Hany lg) as (b_any & ? & ?). destruct (Hall lg) as (b_all & ? & ?).
  by exists b_any, b_all.
Qed.

(** ** The identity context against the store *)

Lemma fresh_caches_agree (st : Store) (user : User) (tenant : option Tenant) :
  caches_agree st (TenantUser.__init__ user tenant).
Proof. split; intros x Hx; discriminate Hx. Qed.

Lemma find_active_membership_events (st : Store) (lg : list Event) (user : User)
    (tenant : option Tenant) :
  membership_unique st →
  ∃ found evs,
    find_active_membership user tenant {| store := st; log := lg |}
    = (Ok found, {| store := st; log := lg ++ evs |})
    ∧ (evs = [] ∨ ∃ q, evs = [EvQuery q])
    ∧ (∀ m, found = Some m ↔ is_active_membership st user tenant m).
Proof.
  intros Hu.
  destruct (find_active_membership_run st lg user tenant Hu) as (found & Hr & Hl).
  exists found. eexists. split; [exact Hr|]. split; [right; by eexists|].
  intros m. rewrite <- active_memberships_spec, Hl. by rewrite option_list_elem_of.
Qed.

Lemma membership_result (st : Store) (lg : list Event) (self : TenantUser) :
  membership_unique st → caches_agree st self →
  ∃ found self' evs,
    TenantUser.membership self {| store := st; log := lg |}
    = (Ok (found, self'), {| store := st; log := lg ++ evs |})
    ∧ (evs = [] ∨ ∃ q, evs = [EvQuery q])
    ∧ (∀ m, found = Some m ↔ is_active_membership st (tu_user self) (tu_tenant self) m)
    ∧ tu_user self' = tu_user self ∧ tu_tenant self' = tu_tenant self
    ∧ _is_member_cache self' = _is_member_cache self
    ∧ _membership_cache self' = found
    ∧ caches_agree st self'.
Proof.
  intros Hu [Hm Hb]. unfold TenantUser.membership, TenantUser._get_membership.
  destruct (_membership_cache self) as [m|] eqn:Hcache.
  - exists (Some m), self, []. rewrite app_nil_r. split; [done|].
    split; [by left|]. split.
    { intros m'. split.
      - intros [= <-]. by apply Hm.
      - intros Hm'. f_equal. eapply active_membership_unique; eauto. }
    repeat (split; [done|]). split; [|done]. intros m'. rewrite Hcache. apply Hm.
  - destruct (find_active_membership_events st lg (tu_user self) (tu_tenant self) Hu)
      as (found & evs & Hrun & Hev & Hfound).
    rewrite run_bind, Hrun. exists found. eexists. exists evs. split; [reflexivity|].
    split; [done|]. split; [done|]. simpl.
    split; [done|]. split; [done|]. split; [done|]. split; [done|]. split.
    + intros m Hm'. simpl in Hm'. by apply Hfound.
    + intros b Hb'. simpl in Hb'. by apply Hb.
Qed.



Lemma audit_log_events (cfg : Settings) (event : string) (user : option User)
    (tenant : option Tenant) (permission : option string) (success : bool)
    (request : option HttpRequest) (extra : option (option string))
    (st : Store) (lg : list Event) :
  ∃ evs,
    audit_log cfg event user tenant permission success request extra
      {| store := st; log := lg |} = (Ok (), {| store := st; log := lg ++ evs |})
    ∧ engine_events evs
    ∧ length (audit_events evs) = (if AUDIT_ENABLED cfg then 1 else 0).
Proof.
  unfold audit_log. destruct (AUDIT_ENABLED cfg); simpl.
  - eexists. split; [reflexivity|]. split; [by repeat constructor|done].
  - exists []. rewrite app_nil_r. split; [done|]. split; [apply engine_events_nil|done].
Qed.

(** The record that [audit_log] writes. *)
Lemma audit_log_exact (cfg : Settings) (event : string) (user : option User)
    (tenant : option Tenant) (success : bool) (request : option HttpRequest)
    (st : Store) (lg : list Event) :
  ∃ evs,
    audit_log cfg event user tenant None success request None
      {| store := st; log := lg |} = (Ok (), {| store := st; log := lg ++ evs |})
    ∧ view_calls evs = []
    ∧ audit_events evs
      = audited cfg
          [{| a_level := if success then INFO else WARNING; a_event := event;
              a_success := success;
              a_user := (λ u, (u_pk u, u_username u, u_is_superuser u)) <$> user;
              a_tenant := (λ t, (t_id t, t_slug t)) <$> tenant;
              a_permission := None; a_path := req_path <$> request;
              a_identifier := None |}].
Proof.
  unfold audit_log, audited. destruct (AUDIT_ENABLED cfg); simpl.
  - eexists. split; [reflexivity|]. by split.
  - exists []. rewrite app_nil_r. by split.
Qed.

Lemma has_perm_result (cfg : Settings) (st : Store) (lg : list Event)
    (self : TenantUser) (perm : string) :
  membership_unique st → caches_agree st self →
  ∃ b self' evs,
    TenantUser.has_perm cfg self perm {| store := st; log := lg |}
    = (Ok (b, self'), {| store := st; log := lg ++ evs |})
    ∧ engine_events evs
    ∧ (b = true ↔ allowed cfg st (tu_user self) (tu_tenant self) perm)
    ∧ tu_user self' = tu_user self ∧ tu_tenant self' = tu_tenant self
    ∧ caches_agree st self'.
Proof.
  intros Hu Hagree. unfold TenantUser.has_perm.
  destruct (membership_result st lg self Hu Hagree)
    as (found & self' & evs0 & Hm & Hev0 & Hfound & Huser & Htenant & _ & _ & Hagree').
  rewrite run_bind, Hm. simpl. rewrite Huser, Htenant.
  destruct (check_permission_events cfg st (lg ++ evs0) (tu_user self) (tu_tenant self)
              perm found Hu) as (b & evs1 & Hcheck & Hev1 & Hb).
  { intros m ->. by apply Hfound. }
  rewrite run_bind, Hcheck.
  destruct (audit_log_events cfg "permission_check" (Some (tu_user self)) (tu_tenant self)
              (Some perm) b None None st ((lg ++ evs0) ++ evs1))
    as (evs2 & Haudit & Hev2 & _).
  rewrite run_bind, Haudit, run_ret.
  exists b, self', (evs0 ++ evs1 ++ evs2). rewrite !app_assoc.
  apply query_events_engine in Hev0.
  split; [done|]. split; [by repeat apply engine_events_app|]. done.
Qed.

Lemma has_perms_result (cfg : Settings) (st : Store) (perms : list string) :
  membership_unique st →
  ∀ (lg : list Event) (self : TenantUser),
  caches_agree st self →
  ∃ b self' evs,
    TenantUser.has_perms cfg self perms {| store := st; log := lg |}
    = (Ok (b, self'), {| store := st; log := lg ++ evs |})
    ∧ engine_events evs
    ∧ (b = true ↔ ∀ p, p ∈ perms → allowed cfg st (tu_user self) (tu_tenant self) p)
    ∧ tu_user self' = tu_user self ∧ tu_tenant self' = tu_tenant self
    ∧ caches_agree st self'.
Proof.
  intros Hu. induction perms as [|perm rest IH]; intros lg self Hagree; simpl.
  - exists true, self, []. rewrite app_nil_r. split; [done|].
    split; [apply engine_events_nil|]. split; [|done].
    split; [by intros _ p ?%elem_of_nil|done].
  - destruct (has_perm_result cfg st lg self perm Hu Hagree)
      as (b1 & self1 & evs1 & Hrun1 & Hev1 & Hb1 & Huser & Htenant & Hagree1).
    rewrite run_bind, Hrun1. simpl. destruct b1.
    + destruct (IH (lg ++ evs1) self1 Hagree1)
        as (b & self' & evs2 & Hrun2 & Hev2 & Hb & Huser' & Htenant' & Hagree').
      rewrite Hrun2. exists b, self', (evs1 ++ evs2). rewrite app_assoc.
      split; [done|]. split; [by apply engine_events_app|].
      rewrite Huser, Htenant in *. split; [|by rewrite Huser', Htenant'].
      rewrite Hb. split.
      * intros Hrest p [-> | Hp]%elem_of_cons; [by apply Hb1|by apply Hrest].
      * intros Hall p Hp. apply Hall. by right.
    + exists false, self1, evs1. split; [done|]. split; [done|]. split; [|done].
      split; [done|]. intros Hall. apply Hb1, Hall. by left.
Qed.

Lemma any_has_perm_result (cfg : Settings) (st : Store) (perms : list string) :
  membership_unique st →
  ∀ (lg : list Event) (self : TenantUser),
  caches_agree st self →
  ∃ b self' evs,
    TenantUserOps.any_has_perm cfg self perms {| store := st; log := lg |}
    = (Ok (b, self'), {| store := st; log := lg ++ evs |})
    ∧ engine_events evs
    ∧ (b = true ↔ ∃ p, p ∈ perms ∧ allowed cfg st (tu_user self) (tu_tenant self) p)
    ∧ tu_user self' = tu_user self ∧ tu_tenant self' = tu_tenant self
    ∧ caches_agree st self'.
Proof.
  intros Hu. induction perms as [|perm rest IH]; intros lg self Hagree; simpl.
  - exists false, self, []. rewrite app_nil_r. split; [done|].
    split; [apply engine_events_nil|]. split; [|done].
    split; [done|by intros (p & ?%elem_of_nil & _)].
  - destruct (has_perm_result cfg st lg self perm Hu Hagree)
      as (b1 & self1 & evs1 & Hrun1 & Hev1 & Hb1 & Huser & Htenant & Hagree1).
    rewrite run_bind, Hrun1. simpl. destruct b1.
    + exists true, self1, evs1. split; [done|]. split; [done|]. split; [|done].
      split; [|done]. intros _. exists perm. split; [left|by apply Hb1].
    + destruct (IH (lg ++ evs1) self1 Hagree1)
        as (b & self' & evs2 & Hrun2 & Hev2 & Hb & Huser' & Htenant' & Hagree').
      rewrite Hrun2. exists b, self', (evs1 ++ evs2). rewrite app_assoc.
      split; [done|]. split; [by apply engine_events_app|].
      rewrite Huser, Htenant in *. split; [|by rewrite Huser', Htenant'].
      rewrite Hb. split.
      * intros (p & Hp & Ha). exists p. split; [by right|done].
      * intros (p & [-> | Hp]%elem_of_cons & Ha); [by apply Hb1 in Ha|by exists p].
Qed.

Lemma is_member_result (st : Store) (lg : list Event) (self : TenantUser) :
  membership_unique st → caches_agree st self →
  ∃ b self' evs,
    TenantUser.is_member self {| store := st; log := lg |}
    = (Ok (b, self'), {| store := st; log := lg ++ evs |})
    ∧ (evs = [] ∨ ∃ q, evs = [EvQuery q])
    ∧ (b = true ↔ ∃ m, is_active_membership st (tu_user self) (tu_tenant self) m)
    ∧ tu_user self' = tu_user self ∧ tu_tenant self' = tu_tenant self
    ∧ caches_agree st self'.
Proof.
  intros Hu Hagree. unfold TenantUser.is_member.
  destruct (_is_member_cache self) as [b|] eqn:Hcache.
  - exists b, self, []. rewrite app_nil_r. split; [done|].
    split; [by left|]. split; [|done].
    destruct Hagree as [_ Hb]. by apply Hb.
  - destruct (membership_result st lg self Hu Hagree)
      as (found & self' & evs & Hm & Hev & Hfound & Huser & Htenant & _ & Hmc & Hagree').
    rewrite run_bind, Hm. simpl. eexists. eexists. exists evs.
    split; [reflexivity|]. split; [done|].
    assert (bool_decide (is_Some found) = true
            ↔ ∃ m, is_active_membership st (tu_user self) (tu_tenant self) m) as Hiff.
    { rewrite bool_decide_eq_true. split.
      - intros [m ->]. exists m. by apply Hfound.
      - intros [m Hm']. exists m. by apply Hfound. }
    split; [done|]. simpl. split; [done|]. split; [done|].
    destruct Hagree' as [Hm' _]. split; [done|]. simpl.
    intros b [= <-]. by rewrite Huser, Htenant.
Qed.

(** X13: on an identity context whose caches agree with the store -- a new
    one in particular -- [has_perm] returns [True] exactly when the
    codename is allowed (by the bypass or by the rule) and [has_perms]
    exactly when every listed codename is; the caches agree with the store
    afterwards. *)
Theorem identity_context_checks (cfg : Settings) (st : Store) (lg : list Event)
    (self : TenantUser) :
  membership_unique st → caches_agree st self →
  (∀ perm, ∃ b self',
     (TenantUser.has_perm cfg self perm {| store := st; log := lg |}).1 = Ok (b, self')
     ∧ (b = true ↔ allowed cfg st (tu_user self) (tu_tenant self) perm)
     ∧ caches_agree st self')
  ∧ (∀ perms, ∃ b self',
       (TenantUser.has_perms cfg self perms {| store := st; log := lg |}).1
       = Ok (b, self')
       ∧ (b = true ↔
          ∀ p, p ∈ perms → allowed cfg st (tu_user self) (tu_tenant self) p)
       ∧ caches_agree st self').
Proof.
  intros Hu Hagree. split.
  - intros perm.
    destruct (has_perm_result cfg st lg self perm Hu Hagree)
      as (b & self' & evs & Hrun & _ & Hb & _ & _ & Hagree').
    exists b, self'. by rewrite Hrun.
  - intros perms.
    destruct (has_perms_result cfg st perms Hu lg self Hagree)
      as (b & self' & evs & Hrun & _ & Hb & _ & _ & Hagree').
    exists b, self'. by rewrite Hrun.
Qed.

(** X14: [is_member] on a new identity context returns [True] exactly when
    an active membership row exists for (user, tenant) -- neither the
    superuser flag nor the activity of the tenant matters -- and once
    [is_member] has returned on an instance, every later call returns the
    same answer in any world, without a query. *)
Theorem is_member_spec :
  (∀ (user : User) (tenant : option Tenant) (st : Store) (lg : list Event),
     membership_unique st →
     ∃ b self',
       (TenantUser.is_member (TenantUser.__init__ user tenant)
          {| store := st; log := lg |}).1 = Ok (b, self')
       ∧ (b = true ↔ ∃ m, is_active_membership st user tenant m))
  ∧ (∀ (self self1 : TenantUser) (b : bool) (w1 w1' : World),
       TenantUser.is_member self w1 = (Ok (b, self1), w1') →
       ∀ w2 : World, TenantUser.is_member self1 w2 = (Ok (b, self1), w2)).
Proof.
  split.
  - intros user tenant st lg Hu.
    destruct (is_member_result st lg (TenantUser.__init__ user tenant) Hu
                (fresh_caches_agree st user tenant))
      as (b & self' & evs & Hrun & _ & Hb & _).
    exists b, self'. by rewrite Hrun.
  - intros self self1 b w1 w1' Hfirst w2. unfold TenantUser.is_member in Hfirst.
    destruct (_is_member_cache self) as [b0|] eqn:Hcache.
    + injection Hfirst as <- <- <-. unfold TenantUser.is_member. by rewrite Hcache.
    + rewrite run_bind in Hfirst.
      destruct (TenantUser.membership self w1) as [[[m s1]|e] wa]; [|done].
      injection Hfirst as <- <- <-. reflexivity.
Qed.

(** X15: an identity context that has answered [is_member()] with [False]
    keeps that answer after the user has joined, while [has_perm] on the
    same instance looks the membership up again and grants: the absence of
    a membership is not cached, the membership flag is. *)
Theorem is_member_stale_has_perm_fresh (cfg : Settings) (user : User)
    (tenant : option Tenant) (st1 st2 : Store) (lg1 lg2 : list Event)
    (codename : string) :
  membership_unique st1 → membership_unique st2 →
  (¬ ∃ m, is_active_membership st1 user tenant m) →
  granted st2 user tenant codename →
  ∃ self1 self2,
    (TenantUser.is_member (TenantUser.__init__ user tenant)
       {| store := st1; log := lg1 |}).1 = Ok (false, self1)
    ∧ (TenantUser.is_member self1 {| store := st2; log := lg2 |}).1 = Ok (false, self1)
    ∧ (TenantUser.has_perm cfg self1 codename {| store := st2; log := lg2 |}).1
      = Ok (true, self2).
Proof.
  intros Hu1 Hu2 Hnone Hgranted.
  destruct (find_active_membership_events st1 lg1 user tenant Hu1)
    as (found1 & evs1 & Hrun1 & _ & Hfound1).
  assert (found1 = None) as ->.
  { destruct found1 as [m|]; [|done]. exfalso. apply Hnone. exists m. by apply Hfound1. }
  set (self1 := TenantUser.set_is_member_cache
                  (TenantUser.set_membership_cache (TenantUser.__init__ user tenant) None)
                  (Some false)).
  destruct (find_active_membership_events st2 lg2 user tenant Hu2)
    as (found2 & evs2 & Hrun2 & _ & Hfound2).
  destruct (check_permission_events cfg st2 (lg2 ++ evs2) user tenant codename found2 Hu2)
    as (b & evs3 & Hcheck & _ & Hb).
  { intros m ->. by apply Hfound2. }
  assert (b = true) as -> by (apply Hb; by right).
  exists self1. eexists. split; [|split].
  - unfold TenantUser.is_member, TenantUser.membership, TenantUser._get_membership.
    simpl. rewrite !run_bind, Hrun1. reflexivity.
  - reflexivity.
  - unfold TenantUser.has_perm, TenantUser.membership, TenantUser._get_membership.
    simpl. rewrite !run_bind, Hrun2. simpl. rewrite run_bind, Hcheck.
    destruct (audit_log_events cfg "permission_check" (Some user) tenant
                (Some codename) true None None st2 ((lg2 ++ evs2) ++ evs3))
      as (evs4 & Haudit & _).
    rewrite run_bind, Haudit. reflexivity.
Qed.

Lemma get_user_permissions_result (cfg : Settings) (st : Store) (lg : list Event)
    (user : User) (tenant : option Tenant) :
  membership_unique st →
  SUPERUSER_BYPASS cfg && u_is_superuser user = false →
  ∃ ps,
    (PermissionChecker.get_user_permissions cfg user tenant None
       {| store := st; log := lg |}).1 = Ok ps
    ∧ (∀ c, c ∈ ps ↔
            ∃ m, is_active_membership st user tenant m ∧ active_role_grants st m c).
Proof.
  intros Hu Hnb. unfold PermissionChecker.get_user_permissions. rewrite Hnb.
  destruct (find_active_membership_events st lg user tenant Hu)
    as (found & evs & Hrun & _ & Hfound).
  rewrite run_bind, Hrun. destruct found as [m|].
  - destruct (get_permissions_run st (lg ++ evs) m) as (ps & Hps & Hiff).
    exists ps. rewrite Hps. split; [done|]. intros c. rewrite Hiff. split.
    + intros Hg. exists m. split; [by apply Hfound|done].
    + intros (m' & Hm' & Hg). apply Hfound in Hm'. by simplify_eq.
  - exists ∅. split; [done|]. intros c. split.
    + by intros ?%not_elem_of_empty.
    + intros (m & Hm & _). apply Hfound in Hm. done.
Qed.

(** X16: without the bypass, every codename that [check_permission] grants
    is in the set that [get_user_permissions] returns, and for an active
    tenant the two agree; for an absent or inactive tenant every check is
    denied, whatever the set lists. *)
Theorem granted_is_listed (cfg : Settings) (st : Store) (lg lg' : list Event)
    (user : User) (tenant : option Tenant) (codename : string) :
  membership_unique st →
  SUPERUSER_BYPASS cfg && u_is_superuser user = false →
  ∃ b ps,
    (PermissionChecker.check_permission cfg user tenant codename None
       {| store := st; log := lg |}).1 = Ok b
    ∧ (PermissionChecker.get_user_permissions cfg user tenant None
         {| store := st; log := lg' |}).1 = Ok ps
    ∧ (b = true → codename ∈ ps)
    ∧ (tenant_present_and_active tenant → codename ∈ ps → b = true)
    ∧ (¬ tenant_present_and_active tenant → b = false).
Proof.
  intros Hu Hnb.
  destruct (check_permission_events cfg st lg user tenant codename None Hu)
    as (b & evs & Hrun & _ & Hb); [done|].
  destruct (get_user_permissions_result cfg st lg' user tenant Hu Hnb) as (ps & Hps & Hin).
  exists b, ps. rewrite Hrun. split; [done|]. split; [done|].
  unfold allowed, granted in Hb. rewrite Hnb in Hb. split; [|split].
  - intros [? | [_ Hg]]%Hb; [done|]. by apply Hin.
  - intros Ht Hc. apply Hb. right. split; [done|]. by apply Hin.
  - intros Hno. destruct b; [|done]. exfalso.
    destruct (proj1 Hb eq_refl) as [? | [Ht _]]; done.
Qed.

(** X17: [get_roles] on a new identity context returns the active roles of
    the user's active membership, the empty list for a user without one;
    the codenames that these roles hold are the codenames the membership
    is granted. *)
Theorem get_roles_spec (user : User) (tenant : option Tenant) (st : Store)
    (lg : list Event) :
  membership_unique st →
  ∃ rs self',
    (TenantUserOps.get_roles (TenantUser.__init__ user tenant)
       {| store := st; log := lg |}).1 = Ok (rs, self')
    ∧ (∀ r, r ∈ rs ↔
            ∃ m, is_active_membership st user tenant m
                 ∧ r ∈ roles st ∧ (m_id m, r_id r) ∈ membership_roles st
                 ∧ r_is_active r = true)
    ∧ ((¬ ∃ m, is_active_membership st user tenant m) → rs = [])
    ∧ (∀ c, (∃ r, r ∈ rs ∧ c ∈ Role.get_permissions r st)
            ↔ ∃ m, is_active_membership st user tenant m ∧ active_role_grants st m c).
Proof.
  intros Hu.
  destruct (find_active_membership_events st lg user tenant Hu)
    as (found & evs & Hrun & _ & Hfound).
  assert (∃ rs self',
    (TenantUserOps.get_roles (TenantUser.__init__ user tenant)
       {| store := st; log := lg |}).1 = Ok (rs, self')
    ∧ rs = match found with
           | Some m => filter (λ r, r_is_active r = true) (roles_of st (m_id m))
           | None => []
           end) as (rs & self' & Hroles & Hrs).
  { unfold TenantUserOps.get_roles, TenantUser.membership, TenantUser._get_membership.
    simpl. rewrite !run_bind, Hrun. simpl. destruct found as [m|]; simpl.
    - eexists. eexists. split; reflexivity.
    - eexists. eexists. split; reflexivity. }
  assert (∀ r, r ∈ rs ↔
            ∃ m, is_active_membership st user tenant m
                 ∧ r ∈ roles st ∧ (m_id m, r_id r) ∈ membership_roles st
                 ∧ r_is_active r = true) as Hspec.
  { intros r. rewrite Hrs. destruct found as [m|].
    - rewrite !list_elem_of_filter. unfold roles_of. rewrite list_elem_of_filter. split.
      + intros (Hact & Hjoin & Hr). exists m. split; [by apply Hfound|done].
      + intros (m' & Hm' & Hr & Hjoin & Hact). apply Hfound in Hm'. by simplify_eq.
    - rewrite elem_of_nil. split; [done|].
      intros (m & Hm & _). apply Hfound in Hm. done. }
  exists rs, self'. split; [done|]. split; [done|]. split.
  - intros Hnone. rewrite Hrs. destruct found as [m|]; [|done].
    exfalso. apply Hnone. exists m. by apply Hfound.
  - intros c. split.
    + intros (r & (m & Hm & Hr & Hjoin & Hact)%Hspec & Hc). exists m. split; [done|].
      unfold Role.get_permissions in Hc.
      apply elem_of_list_to_set, list_elem_of_fmap in Hc as (p & -> & Hp).
      apply list_elem_of_filter in Hp as [Hpj Hp]. by exists r, p.
    + intros (m & Hm & r & p & Hr & Hjoin & Hact & Hp & Hpj & Hc).
      exists r. split; [apply Hspec; by exists m|].
      apply elem_of_list_to_set, list_elem_of_fmap. exists p. split; [done|].
      by apply list_elem_of_filter.
Qed.

(** ** Looking tenants up *)

Lemma filter_unique_field {A K} (f : A → option K) (k : K) (l : list A) (x : A)
    `{!EqDecision K} :
  NoDup (omap f l) → x ∈ l → f x = Some k →
  filter (λ y, f y = Some k) l = [x].
Proof.
  intros Hnd Hin Hx. induction l as [|a l IH]; [by apply elem_of_nil in Hin|].
  rewrite filter_cons. simpl in Hnd.
  apply elem_of_cons in Hin as [<- | Hin].
  - rewrite Hx in Hnd. apply NoDup_cons in Hnd as [Hnotin Hnd].
    rewrite decide_True by done. f_equal.
    apply elem_of_nil_inv. intros y [Hy Hyin]%list_elem_of_filter.
    apply Hnotin, list_elem_of_omap. by exists y.
  - destruct (f a) as [ka|] eqn:Ha.
    + apply NoDup_cons in Hnd as [Hnotin Hnd].
      rewrite decide_False; [by apply IH|].
      intros [= ->]. apply Hnotin, list_elem_of_omap. by exists x.
    + rewrite decide_False by done. by apply IH.
Qed.

Lemma omap_Some_fmap {A B} (f : A → B) (l : list A) : omap (λ x, Some (f x)) l = f <$> l.
Proof. induction l as [|a l IH]; [done|]. simpl. by f_equal. Qed.

(** X18: the lookups behind every resolver.  A slug (a domain) that no row
    carries, compared after lower-casing the argument, raises
    [TenantNotFoundError] with the identifier as it was given; the row that
    carries it is returned when it is active and reported through
    [TenantInactiveError] when it is not. *)
Theorem tenant_lookup (st : Store) (lg : list Event) :
  tenants_unique st →
  (∀ slug,
     (∀ t, t ∈ tenants st → t_slug t ≠ Str.lower slug) →
     (get_tenant_by_slug slug {| store := st; log := lg |}).1
     = Raise (TenantNotFoundError (Some slug)))
  ∧ (∀ slug t,
       t ∈ tenants st → t_slug t = Str.lower slug →
       (get_tenant_by_slug slug {| store := st; log := lg |}).1
       = if t_is_active t then Ok t else Raise (TenantInactiveError t))
  ∧ (∀ domain,
       (∀ t, t ∈ tenants st → t_domain t ≠ Some (Str.lower domain)) →
       (get_tenant_by_domain domain {| store := st; log := lg |}).1
       = Raise (TenantNotFoundError (Some domain)))
  ∧ (∀ domain t,
       t ∈ tenants st → t_domain t = Some (Str.lower domain) →
       (get_tenant_by_domain domain {| store := st; log := lg |}).1
       = if t_is_active t then Ok t else Raise (TenantInactiveError t)).
Proof.
  intros (_ & Hslug & Hdom). split; [|split; [|split]].
  - intros slug Hnone. unfold get_tenant_by_slug. unfold_M. simpl.
    assert (filter (λ t, t_slug t = Str.lower slug) (tenants st) = []) as ->; [|done].
    apply elem_of_nil_inv. intros t [Ht Hin]%list_elem_of_filter. by apply (Hnone t).
  - intros slug t Hin Ht. unfold get_tenant_by_slug. unfold_M. simpl.
    assert (filter (λ t, t_slug t = Str.lower slug) (tenants st) = [t]) as ->.
    { rewrite <- omap_Some_fmap in Hslug.
      pose proof (filter_unique_field (λ t, Some (t_slug t)) (Str.lower slug)
                    (tenants st) t Hslug Hin) as Hf.
      rewrite <- Hf by (by rewrite Ht). apply list_filter_iff. intros t'.
      split; [by intros ->|by intros [= ->]]. }
    simpl. by destruct (t_is_active t).
  - intros domain Hnone. unfold get_tenant_by_domain. unfold_M. simpl.
    assert (filter (λ t, t_domain t = Some (Str.lower domain)) (tenants st) = []) as ->;
      [|done].
    apply elem_of_nil_inv. intros t [Ht Hin]%list_elem_of_filter. by apply (Hnone t).
  - intros domain t Hin Ht. unfold get_tenant_by_domain. unfold_M. simpl.
    rewrite (filter_unique_field t_domain (Str.lower domain) (tenants st) t Hdom Hin Ht).
    simpl. by destruct (t_is_active t).
Qed.

Lemma get_tenant_by_slug_run (slug : string) (st : Store) (lg : list Event) :
  ∃ evs,
    get_tenant_by_slug slug {| store := st; log := lg |}
    = ((get_tenant_by_slug slug {| store := st; log := [] |}).1,
       {| store := st; log := lg ++ evs |})
    ∧ (evs = [] ∨ ∃ q, evs = [EvQuery q]).
Proof.
  unfold get_tenant_by_slug. unfold_M. simpl.
  destruct (objects_get _) as [t|e].
  - destruct (negb (t_is_active t)); eexists; (split; [reflexivity|right; by eexists]).
  - destruct e; eexists; (split; [reflexivity|right; by eexists]).
Qed.

Lemma get_tenant_by_domain_run (domain : string) (st : Store) (lg : list Event) :
  ∃ evs,
    get_tenant_by_domain domain {| store := st; log := lg |}
    = ((get_tenant_by_domain domain {| store := st; log := [] |}).1,
       {| store := st; log := lg ++ evs |})
    ∧ (evs = [] ∨ ∃ q, evs = [EvQuery q]).
Proof.
  unfold get_tenant_by_domain. unfold_M. simpl.
  destruct (objects_get _) as [t|e].
  - destruct (negb (t_is_active t)); eexists; (split; [reflexivity|right; by eexists]).
  - destruct e; eexists; (split; [reflexivity|right; by eexists]).
Qed.

(** A resolver reads the store and logs its query; what it returns does not
    depend on the log. *)
Lemma resolve_run {Pattern : Type}
    (re_match : Pattern → string → option (gmap string (option string)))
    (r : Resolver) (request : HttpRequest) (st : Store) (lg : list Event) :
  ∃ evs,
    resolve re_match r request {| store := st; log := lg |}
    = ((resolve re_match r request {| store := st; log := [] |}).1,
       {| store := st; log := lg ++ evs |})
    ∧ (evs = [] ∨ ∃ q, evs = [EvQuery q]).
Proof.
  assert (∀ {A} (e : exn), ∃ evs,
            (raise e : M A) {| store := st; log := lg |}
            = (((raise e : M A) {| store := st; log := [] |}).1,
               {| store := st; log := lg ++ evs |})
            ∧ (evs = [] ∨ ∃ q, evs = [EvQuery q])) as Hraise.
  { intros A e. exists []. rewrite app_nil_r. split; [done|by left]. }
  destruct r as [|base|pattern|key]; simpl.
  - apply get_tenant_by_domain_run.
  - destruct (_extract_subdomain _ _) as [s|]; [|apply Hraise].
    destruct (negb (Str.truthy s)); [apply Hraise|apply get_tenant_by_slug_run].
  - destruct (re_match pattern (req_path request)) as [groups|]; [|apply Hraise].
    destruct (groups !! _) as [[slug|]|];
      [apply get_tenant_by_slug_run|apply Hraise|apply Hraise].
  - destruct (req_META request !! key) as [slug|]; [|apply Hraise].
    destruct (negb (Str.truthy slug)); [apply Hraise|apply get_tenant_by_slug_run].
Qed.

Lemma get_tenant_by_slug_sound (slug : string) (st : Store) (lg : list Event) (t : Tenant) :
  (get_tenant_by_slug slug {| store := st; log := lg |}).1 = Ok t →
  t ∈ tenants st ∧ t_is_active t = true.
Proof.
  unfold get_tenant_by_slug. unfold_M. simpl.
  destruct (filter _ (tenants st)) as [|t0 [|t1 l]] eqn:E; simpl; [done| |done].
  destruct (t_is_active t0) eqn:Hact; simpl; [|done]. intros [= <-].
  assert (t0 ∈ filter (λ t, t_slug t = Str.lower slug) (tenants st)) as Hin
    by (rewrite E; left).
  apply list_elem_of_filter in Hin as [_ Hin]. done.
Qed.

Lemma get_tenant_by_domain_sound (domain : string) (st : Store) (lg : list Event)
    (t : Tenant) :
  (get_tenant_by_domain domain {| store := st; log := lg |}).1 = Ok t →
  t ∈ tenants st ∧ t_is_active t = true.
Proof.
  unfold get_tenant_by_domain. unfold_M. simpl.
  destruct (filter _ (tenants st)) as [|t0 [|t1 l]] eqn:E; simpl; [done| |done].
  destruct (t_is_active t0) eqn:Hact; simpl; [|done]. intros [= <-].
  assert (t0 ∈ filter (λ t, t_domain t = Some (Str.lower domain)) (tenants st)) as Hin
    by (rewrite E; left).
  apply list_elem_of_filter in Hin as [_ Hin]. done.
Qed.

Lemma resolve_sound {Pattern : Type}
    (re_match : Pattern → string → option (gmap string (option string)))
    (r : Resolver) (request : HttpRequest) (st : Store) (lg : list Event) (t : Tenant) :
  (resolve re_match r request {| store := st; log := lg |}).1 = Ok t →
  t ∈ tenants st ∧ t_is_active t = true.
Proof.
  destruct r as [|base|pattern|key]; simpl.
  - apply get_tenant_by_domain_sound.
  - destruct (_extract_subdomain _ _) as [s|]; [|done].
    destruct (negb (Str.truthy s)); [done|apply get_tenant_by_slug_sound].
  - destruct (re_match pattern (req_path request)) as [groups|]; [|done].
    destruct (groups !! _) as [[slug|]|]; [apply get_tenant_by_slug_sound|done|done].
  - destruct (req_META request !! key) as [slug|]; [|done].
    destruct (negb (Str.truthy slug)); [done|apply get_tenant_by_slug_sound].
Qed.

(** X19: whatever the strategy, a resolver that returns a tenant returns an
    active row of the tenant table; it never changes the store, and all it
    logs is at most one query. *)
Theorem resolve_returns_active_tenant {Pattern : Type}
    (re_match : Pattern → string → option (gmap string (option string)))
    (r : Resolver) (request : HttpRequest) (w : World) :
  store (resolve re_match r request w).2 = store w
  ∧ (emitted (resolve re_match r request) w = []
     ∨ ∃ q, emitted (resolve re_match r request) w = [EvQuery q])
  ∧ ∀ t, (resolve re_match r request w).1 = Ok t →
         t ∈ tenants (store w) ∧ t_is_active t = true.
Proof.
  destruct w as [st lg].
  destruct (resolve_run re_match r request st lg) as (evs & Hrun & Hev).
  assert (emitted (resolve re_match r request) {| store := st; log := lg |} = evs) as Hem.
  { apply emitted_app. by rewrite Hrun. }
  rewrite Hem. split; [by rewrite Hrun|]. split; [done|].
  intros t. apply resolve_sound.
Qed.

Lemma split_head_no_sep (c : ascii) (s : string) : Str.contains c (Str.split_head c s) = false.
Proof.
  induction s as [|a s IH]; [done|]. simpl.
  destruct (Ascii.eqb a c) eqn:E; [done|]. simpl. by rewrite E.
Qed.

Lemma strip_port_app (host port : string) :
  Str.contains ":" host = false → strip_port (host +:+ ":" +:+ port) = host.
Proof.
  intros Hno. unfold strip_port.
  rewrite contains_app, Hno. simpl.
  by rewrite str_app_cons, str_app_nil_l, split_head_app.
Qed.

(** X20: the port of the host never reaches the lookup: the stripped host
    has no colon, and the domain and the subdomain resolver treat
    [host:port] like [host]. *)
Theorem port_is_ignored {Pattern : Type}
    (re_match : Pattern → string → option (gmap string (option string))) :
  (∀ host, Str.contains ":" (strip_port host) = false)
  ∧ (∀ (r : Resolver) (request request' : HttpRequest) (host port : string),
       r = DomainTenantResolver ∨ (∃ base, r = SubdomainTenantResolver base) →
       Str.contains ":" host = false →
       req_host request = host +:+ ":" +:+ port →
       req_host request' = host →
       resolve re_match r request = resolve re_match r request').
Proof.
  split.
  - intros host. unfold strip_port.
    destruct (Str.contains ":" host) eqn:E; [apply split_head_no_sep|done].
  - intros r request request' host port Hr Hno Hreq Hreq'.
    assert (strip_port (req_host request) = strip_port (req_host request')) as Heq.
    { rewrite Hreq, Hreq', strip_port_app by done. unfold strip_port. by rewrite Hno. }
    destruct Hr as [-> | [base ->]]; simpl; by rewrite Heq.
Qed.

(** ** The outcomes of the resolution stage *)

Lemma run_try_except {A} (m : M A) (h : exn → M A) (w : World) :
  try_except m h w = match m w with
                     | (Ok a, w') => (Ok a, w')
                     | (Raise e, w') => h e w'
                     end.
Proof. reflexivity. Qed.

Lemma run_emit (ev : Event) (st : Store) (lg : list Event) :
  emit ev {| store := st; log := lg |} = (Ok (), {| store := st; log := lg ++ [ev] |}).
Proof. reflexivity. Qed.

Lemma resolver_available {Pattern : Type}
    (re_compile : string → result Pattern) (cfg : Settings)
    (self : TenantResolutionMiddleware) (r : Resolver) :
  _resolver self = Some r
  ∨ (_resolver self = None ∧ get_resolver re_compile cfg None = Ok r) →
  ∀ w, resolver re_compile cfg self w
       = (Ok (r, {| _resolver := Some r; _exempt_patterns := _exempt_patterns self |}), w).
Proof.
  intros Hr w. unfold resolver. destruct Hr as [Hr | [Hr Hget]]; rewrite Hr.
  - destruct self as [res pats]. simpl in *. by subst.
  - by rewrite Hget.
Qed.

(** ** The stage and its resolver *)

(** The stage when the resolver returns a tenant. *)
Lemma stage_resolved_run {Pattern : Type}
    (re_compile : string → result Pattern)
    (re_match : Pattern → string → option (gmap string (option string)))
    (cfg : Settings)
    (get_response : HttpRequest → Store → result HttpResponse * Store)
    (import_string : string → result Handler)
    (self : TenantResolutionMiddleware) (request : HttpRequest)
    (st : Store) (lg : list Event) (r : Resolver) (t : Tenant) :
  let stage := __call__ re_compile re_match cfg get_response import_string self request in
  let passed := set_tenant request None in
  let handed := set_tenant request (Some t) in
  let rec := {| a_level := INFO; a_event := "tenant_resolved"; a_success := true;
                a_user := (λ u, (u_pk u, u_username u, u_is_superuser u))
                            <$> req_user request;
                a_tenant := Some (t_id t, t_slug t); a_permission := None;
                a_path := Some (req_path request); a_identifier := None |} in
  ¬ Exists (λ pattern, is_Some (re_match pattern (req_path request)))
      (_exempt_patterns self) →
  _resolver self = Some r
  ∨ (_resolver self = None ∧ get_resolver re_compile cfg None = Ok r) →
  (resolve re_match r passed {| store := st; log := lg |}).1 = Ok t →
  ∃ evs,
    (evs = [] ∨ ∃ q, evs = [EvQuery q])
    ∧ stage {| store := st; log := lg |}
      = (match (get_response handed st).1 with
         | Ok response =>
             Ok (response,
                 {| _resolver := Some r; _exempt_patterns := _exempt_patterns self |})
         | Raise e => Raise e
         end,
         {| store := (get_response handed st).2;
            log := lg ++ [EvResolve passed] ++ evs
                   ++ (if AUDIT_ENABLED cfg then [EvAudit rec] else [])
                   ++ [EvGetResponse handed] |}).
Proof.
  intros stage passed handed rec Hnex Hr Hres.
  assert (_is_exempt re_match self (req_path request) = false) as Hne.
  { destruct (_is_exempt re_match self (req_path request)) eqn:E; [|done].
    by apply _is_exempt_spec in E. }
  destruct (resolve_run re_match r passed st (lg ++ [EvResolve passed]))
    as (evs & Hrun & Hev).
  destruct (resolve_run re_match r passed st lg) as (evs0 & Hrun0 & _).
  rewrite Hrun0 in Hres. simpl in Hres. rewrite Hres in Hrun.
  exists evs. split; [exact Hev|].
  unfold stage, __call__. simpl. rewrite Hne. fold passed.
  rewrite run_bind, (resolver_available re_compile cfg self r Hr). simpl.
  rewrite run_bind, run_try_except, run_bind. unfold call_resolve.
  rewrite run_bind, run_emit, Hrun. simpl.
  unfold audit_log. destruct (AUDIT_ENABLED cfg); simpl.
  - unfold call_get_response. unfold_M. simpl.
    change (set_tenant passed (Some t)) with handed.
    destruct (get_response handed st) as [[resp|e] st']; simpl;
      by rewrite <- !app_assoc.
  - unfold call_get_response. unfold_M. simpl.
    change (set_tenant passed (Some t)) with handed.
    destruct (get_response handed st) as [[resp|e] st']; simpl;
      by rewrite <- !app_assoc.
Qed.

(** The stage when the resolver raises: an error other than the two
    resolution failures passes through the stage; a resolution failure is
    audited, and nothing after that is. *)
Lemma stage_raised_run {Pattern : Type}
    (re_compile : string → result Pattern)
    (re_match : Pattern → string → option (gmap string (option string)))
    (cfg : Settings)
    (get_response : HttpRequest → Store → result HttpResponse * Store)
    (import_string : string → result Handler)
    (self : TenantResolutionMiddleware) (request : HttpRequest)
    (st : Store) (lg : list Event) (r : Resolver) (e : exn) :
  let stage := __call__ re_compile re_match cfg get_response import_string self request in
  let passed := set_tenant request None in
  let record :=
    {| a_level := WARNING; a_event := "tenant_resolution_failed"; a_success := false;
       a_user := (λ u, (u_pk u, u_username u, u_is_superuser u)) <$> req_user request;
       a_tenant := None; a_permission := None;
       a_path := Some (req_path request);
       a_identifier := Some (match e with
                             | TenantNotFoundError identifier => identifier
                             | _ => None
                             end) |} in
  ¬ Exists (λ pattern, is_Some (re_match pattern (req_path request)))
      (_exempt_patterns self) →
  _resolver self = Some r
  ∨ (_resolver self = None ∧ get_resolver re_compile cfg None = Ok r) →
  (resolve re_match r passed {| store := st; log := lg |}).1 = Raise e →
  ∃ evs,
    (evs = [] ∨ ∃ q, evs = [EvQuery q])
    ∧ match e with
      | TenantNotFoundError _ | TenantInactiveError _ =>
          ∃ rest,
            log (stage {| store := st; log := lg |}).2
            = lg ++ [EvResolve passed] ++ evs
              ++ (if AUDIT_ENABLED cfg then [EvAudit record] else []) ++ rest
            ∧ audit_events rest = []
      | _ =>
          stage {| store := st; log := lg |}
          = (Raise e, {| store := st; log := lg ++ [EvResolve passed] ++ evs |})
      end.
Proof.
  intros stage passed record Hnex Hr Hres.
  assert (_is_exempt re_match self (req_path request) = false) as Hne.
  { destruct (_is_exempt re_match self (req_path request)) eqn:E; [|done].
    by apply _is_exempt_spec in E. }
  destruct (resolve_run re_match r passed st (lg ++ [EvResolve passed]))
    as (evs & Hrun & Hev).
  destruct (resolve_run re_match r passed st lg) as (evs0 & Hrun0 & _).
  rewrite Hrun0 in Hres. simpl in Hres. rewrite Hres in Hrun.
  exists evs. split; [exact Hev|].
  set (aud := if AUDIT_ENABLED cfg then [EvAudit record] else []).
  assert (∀ lg', audit_log cfg "tenant_resolution_failed" (req_user passed) None None
                   false (Some passed)
                   (Some match e with
                         | TenantNotFoundError identifier => identifier
                         | _ => None
                         end) {| store := st; log := lg' |}
                 = (Ok (), {| store := st; log := lg' ++ aud |})) as Haudit.
  { intros lg'. unfold audit_log, aud. destruct (AUDIT_ENABLED cfg); simpl; [done|].
    by rewrite app_nil_r. }
  assert (stage {| store := st; log := lg |}
          = (outcome ← match e with
                       | TenantNotFoundError _ | TenantInactiveError _ =>
                           _ ← audit_log cfg "tenant_resolution_failed" (req_user passed)
                                 None None false (Some passed)
                                 (Some match e with
                                       | TenantNotFoundError identifier => identifier
                                       | _ => None
                                       end);
                           handler ← lift (_get_handler cfg import_string);
                           match handler with
                           | None => raise e
                           | Some handler =>
                               result ← call_handler handler passed e;
                               match result with
                               | HResponse response => mret (inr response)
                               | HValue v => mret (inl (set_tenant passed v))
                               end
                           end
                       | _ => raise e
                       end;
             match outcome with
             | inr response =>
                 mret (response,
                       {| _resolver := Some r;
                          _exempt_patterns := _exempt_patterns self |})
             | inl request' =>
                 response ← call_get_response get_response request';
                 mret (response,
                       {| _resolver := Some r;
                          _exempt_patterns := _exempt_patterns self |})
             end) {| store := st; log := lg ++ [EvResolve passed] ++ evs |}) as Hstage.
  { unfold stage, __call__. simpl. rewrite Hne. fold passed.
    rewrite run_bind, (resolver_available re_compile cfg self r Hr). simpl.
    rewrite run_bind, run_try_except, run_bind. unfold call_resolve.
    rewrite run_bind, run_emit, Hrun. rewrite <- app_assoc.
    rewrite run_bind. done. }
  rewrite Hstage.
  destruct e as [| | | | |identifier|t| | | |name]; try done.
  -
 rewrite run_bind, run_bind, Haudit.
    unfold call_handler, call_get_response. unfold_M. simpl.
    destruct (_get_handler cfg import_string) as [[handler|]|e']; simpl.
    + destruct (handler passed _ st) as [[[resp|v]|e'] st']; simpl.
      * exists [EvHandler passed (TenantNotFoundError identifier)].
        split; [by rewrite <- !app_assoc|done].
      * exists [EvHandler passed (TenantNotFoundError identifier); EvGetResponse (set_tenant passed v)].
        split; [|done].
        destruct (get_response (set_tenant passed v) st') as [[resp|e'] st'']; simpl;
          by rewrite <- !app_assoc.
      * exists [EvHandler passed (TenantNotFoundError identifier)].
        split; [by rewrite <- !app_assoc|done].
    + exists []. split; [by rewrite app_nil_r, <- !app_assoc|done].
    + exists []. split; [by rewrite app_nil_r, <- !app_assoc|done].
  -
 rewrite run_bind, run_bind, Haudit.
    unfold call_handler, call_get_response. unfold_M. simpl.
    destruct (_get_handler cfg import_string) as [[handler|]|e']; simpl.
    + destruct (handler passed _ st) as [[[resp|v]|e'] st']; simpl.
      * exists [EvHandler passed (TenantInactiveError t)].
        split; [by rewrite <- !app_assoc|done].
      * exists [EvHandler passed (TenantInactiveError t); EvGetResponse (set_tenant passed v)].
        split; [|done].
        destruct (get_response (set_tenant passed v) st') as [[resp|e'] st'']; simpl;
          by rewrite <- !app_assoc.
      * exists [EvHandler passed (TenantInactiveError t)].
        split; [by rewrite <- !app_assoc|done].
    + exists []. split; [by rewrite app_nil_r, <- !app_assoc|done].
    + exists []. split; [by rewrite app_nil_r, <- !app_assoc|done].
Qed.

(** C8: when the path matches an exemption pattern the stage does one
    thing: it hands the request, tenant slot [None], to the rest of the
    pipeline; the resolver is not invoked and nothing is audited.  When the
    path matches no exemption pattern and the stage has a resolver, or can
    build the configured one, that resolver is invoked exactly once, on
    that request, and the stage acts on what it returns: a tenant goes into
    the tenant slot of the one request that is passed on, a resolution
    failure is audited, any other error leaves the stage as it is and
    nothing is passed on.  When the configured resolver cannot be built the
    stage raises the error of the construction: no resolver is invoked and
    nothing is passed on. *)
Theorem exemption_short_circuit {Pattern : Type}
    (re_compile : string → result Pattern)
    (re_match : Pattern → string → option (gmap string (option string)))
    (cfg : Settings)
    (get_response : HttpRequest → Store → result HttpResponse * Store)
    (import_string : string → result Handler)
    (self : TenantResolutionMiddleware) (request : HttpRequest) (w : World) :
  let stage := __call__ re_compile re_match cfg get_response import_string self request in
  let passed := set_tenant request None in
  (Exists (λ pattern, is_Some (re_match pattern (req_path request)))
     (_exempt_patterns self) →
   emitted stage w = [EvGetResponse passed]
   ∧ resolver_calls (emitted stage w) = []
   ∧ stage w
     = (match (get_response passed (store w)).1 with
        | Ok response => Ok (response, self)
        | Raise e => Raise e
        end,
        {| store := (get_response passed (store w)).2;
           log := log w ++ [EvGetResponse passed] |}))
  ∧ (¬ Exists (λ pattern, is_Some (re_match pattern (req_path request)))
         (_exempt_patterns self) →
     (∀ r, _resolver self = Some r
           ∨ (_resolver self = None ∧ get_resolver re_compile cfg None = Ok r) →
        resolver_calls (emitted stage w) = [passed]
        ∧ (∀ t, (resolve re_match r passed w).1 = Ok t →
                view_calls (emitted stage w) = [set_tenant request (Some t)])
        ∧ (∀ e, (resolve re_match r passed w).1 = Raise e →
                match e with
                | TenantNotFoundError _ | TenantInactiveError _ =>
                    audit_events (emitted stage w)
                    = audited cfg
                        [{| a_level := WARNING; a_event := "tenant_resolution_failed";
                            a_success := false;
                            a_user := (λ u, (u_pk u, u_username u, u_is_superuser u))
                                        <$> req_user request;
                            a_tenant := None; a_permission := None;
                            a_path := Some (req_path request);
                            a_identifier :=
                              Some (match e with
                                    | TenantNotFoundError identifier => identifier
                                    | _ => None
                                    end) |}]
                | _ => (stage w).1 = Raise e ∧ view_calls (emitted stage w) = []
                end))
     ∧ (∀ e, _resolver self = None → get_resolver re_compile cfg None = Raise e →
             stage w = (Raise e, w)
             ∧ resolver_calls (emitted stage w) = []
             ∧ view_calls (emitted stage w) = [])).
Proof.
  intros stage passed. split.
  - intros Hex. apply (_is_exempt_spec re_match) in Hex.
    assert (stage w
            = (match (get_response passed (store w)).1 with
               | Ok response => Ok (response, self)
               | Raise e => Raise e
               end,
               {| store := (get_response passed (store w)).2;
                  log := log w ++ [EvGetResponse passed] |})) as Hrun.
    { unfold stage, __call__. simpl. rewrite Hex.
      unfold call_get_response. unfold_M. simpl. fold passed.
      by destruct (get_response passed (store w)) as [[resp|e] st']. }
    assert (emitted stage w = [EvGetResponse passed]) as Hem.
    { apply emitted_app. by rewrite Hrun. }
    rewrite Hem. done.
  - intros Hnex. split.
    + intros r Hr. split; [|split].
      * by apply (stage_invokes_resolver_once re_compile re_match cfg get_response
                    import_string self request w r).
      * destruct w as [st lg]. intros t Hres.
        destruct (stage_resolved_run re_compile re_match cfg get_response import_string
                    self request st lg r t Hnex Hr Hres) as (evs & Hev & Hstage).
        destruct (query_events evs Hev) as [Hv _].
        rewrite (emitted_app stage {| store := st; log := lg |} _)
          by (by fold stage in Hstage; rewrite Hstage).
        rewrite !view_calls_app, Hv. simpl. by destruct (AUDIT_ENABLED cfg).
      * destruct w as [st lg]. intros e Hres.
        destruct (stage_raised_run re_compile re_match cfg get_response import_string
                    self request st lg r e Hnex Hr Hres) as (evs & Hev & Hstage).
        destruct (query_events evs Hev) as [Hv Ha].
        fold stage passed in Hstage.
        destruct e as [| | | | |identifier|t| | | |name];
          try (rewrite (emitted_app stage {| store := st; log := lg |}
                          ([EvResolve passed] ++ evs)) by (by rewrite Hstage);
               rewrite Hstage, view_calls_app, Hv; done).
        -- destruct Hstage as (rest & Hlog & Hrest).
           rewrite (emitted_app stage {| store := st; log := lg |} _ Hlog).
           rewrite !audit_events_app, Ha, Hrest. unfold audited.
           by destruct (AUDIT_ENABLED cfg).
        -- destruct Hstage as (rest & Hlog & Hrest).
           rewrite (emitted_app stage {| store := st; log := lg |} _ Hlog).
           rewrite !audit_events_app, Ha, Hrest. unfold audited.
           by destruct (AUDIT_ENABLED cfg).
    + intros e Hnone Hget.
      assert (_is_exempt re_match self (req_path request) = false) as Hne.
      { destruct (_is_exempt re_match self (req_path request)) eqn:E; [|done].
        by apply _is_exempt_spec in E. }
      assert (stage w = (Raise e, w)) as Hrun.
      { unfold stage, __call__. simpl. rewrite Hne.
        unfold resolver. rewrite Hnone, Hget. by destruct w. }
      split; [exact Hrun|].
      rewrite (emitted_app stage w []) by (by rewrite Hrun, app_nil_r). done.
Qed.

(** X21: on a path that is not exempt, when the resolver returns a tenant,
    the stage writes one [tenant_resolved] audit record (when auditing is
    enabled) and calls the rest of the pipeline exactly once, with that
    tenant -- an active row of the tenant table -- in the tenant slot; what
    the pipeline returns is what the stage returns. *)
Theorem stage_resolved {Pattern : Type}
    (re_compile : string → result Pattern)
    (re_match : Pattern → string → option (gmap string (option string)))
    (cfg : Settings)
    (get_response : HttpRequest → Store → result HttpResponse * Store)
    (import_string : string → result Handler)
    (self : TenantResolutionMiddleware) (request : HttpRequest) (w : World)
    (r : Resolver) (t : Tenant) :
  let stage := __call__ re_compile re_match cfg get_response import_string self request in
  let passed := set_tenant request None in
  let handed := set_tenant request (Some t) in
  ¬ Exists (λ pattern, is_Some (re_match pattern (req_path request)))
      (_exempt_patterns self) →
  _resolver self = Some r
  ∨ (_resolver self = None ∧ get_resolver re_compile cfg None = Ok r) →
  (resolve re_match r passed w).1 = Ok t →
  view_calls (emitted stage w) = [handed]
  ∧ t ∈ tenants (store w) ∧ t_is_active t = true
  ∧ audit_events (emitted stage w)
    = audited cfg
        [{| a_level := INFO; a_event := "tenant_resolved"; a_success := true;
            a_user := (λ u, (u_pk u, u_username u, u_is_superuser u)) <$> req_user request;
            a_tenant := Some (t_id t, t_slug t); a_permission := None;
            a_path := Some (req_path request); a_identifier := None |}]
  ∧ (stage w).1
    = match (get_response handed (store w)).1 with
      | Ok response =>
          Ok (response,
              {| _resolver := Some r; _exempt_patterns := _exempt_patterns self |})
      | Raise e => Raise e
      end.
Proof.
  destruct w as [st lg]. intros stage passed handed Hnex Hr Hres.
  destruct (stage_resolved_run re_compile re_match cfg get_response import_string
              self request st lg r t Hnex Hr Hres) as (evs & Hev & Hstage).
  fold stage passed handed in Hstage.
  destruct (resolve_run re_match r passed st lg) as (evs0 & Hrun0 & _).
  rewrite Hrun0 in Hres. simpl in Hres.
  destruct (query_events evs Hev) as [Hv Ha].
  destruct (resolve_sound re_match r passed st [] t Hres) as [Hin Hact].
  rewrite (emitted_app stage {| store := st; log := lg |} _)
    by (by rewrite Hstage).
  rewrite Hstage. simpl.
  rewrite !view_calls_app, !audit_events_app, Hv, Ha. simpl.
  split; [by destruct (AUDIT_ENABLED cfg)|].
  split; [done|]. split; [done|]. split; [|done].
  unfold audited. by destruct (AUDIT_ENABLED cfg).
Qed.

(** X22: on a path that is not exempt, when the resolver fails with
    [TenantNotFoundError] or [TenantInactiveError], the stage writes one
    [tenant_resolution_failed] audit record with the identifier that was
    tried.  Under the handler setting [raise] the failure is raised again
    and the rest of the pipeline is not called; under [none] the pipeline
    is called once with an empty tenant slot and its result is returned. *)
Theorem stage_failure_policy {Pattern : Type}
    (re_compile : string → result Pattern)
    (re_match : Pattern → string → option (gmap string (option string)))
    (cfg : Settings)
    (get_response : HttpRequest → Store → result HttpResponse * Store)
    (import_string : string → result Handler)
    (self : TenantResolutionMiddleware) (request : HttpRequest) (w : World)
    (r : Resolver) (e : exn) :
  let stage := __call__ re_compile re_match cfg get_response import_string self request in
  let passed := set_tenant request None in
  let record :=
    {| a_level := WARNING; a_event := "tenant_resolution_failed"; a_success := false;
       a_user := (λ u, (u_pk u, u_username u, u_is_superuser u)) <$> req_user request;
       a_tenant := None; a_permission := None;
       a_path := Some (req_path request);
       a_identifier := Some (match e with
                             | TenantNotFoundError identifier => identifier
                             | _ => None
                             end) |} in
  ¬ Exists (λ pattern, is_Some (re_match pattern (req_path request)))
      (_exempt_patterns self) →
  _resolver self = Some r
  ∨ (_resolver self = None ∧ get_resolver re_compile cfg None = Ok r) →
  (resolve re_match r passed w).1 = Raise e →
  (∃ identifier, e = TenantNotFoundError identifier) ∨ (∃ t, e = TenantInactiveError t) →
  (TENANT_NOT_FOUND_HANDLER cfg = "raise" →
   (stage w).1 = Raise e
   ∧ view_calls (emitted stage w) = []
   ∧ audit_events (emitted stage w) = audited cfg [record])
  ∧ (TENANT_NOT_FOUND_HANDLER cfg = "none" →
     view_calls (emitted stage w) = [passed]
     ∧ audit_events (emitted stage w) = audited cfg [record]
     ∧ (stage w).1
       = match (get_response passed (store w)).1 with
         | Ok response =>
             Ok (response,
                 {| _resolver := Some r; _exempt_patterns := _exempt_patterns self |})
         | Raise e' => Raise e'
         end).
Proof.
  destruct w as [st lg]. intros stage passed record Hnex Hr Hres He.
  assert (_is_exempt re_match self (req_path request) = false) as Hne.
  { destruct (_is_exempt re_match self (req_path request)) eqn:E; [|done].
    by apply _is_exempt_spec in E. }
  destruct (resolve_run re_match r passed st (lg ++ [EvResolve passed]))
    as (evs & Hrun & Hev).
  destruct (resolve_run re_match r passed st lg) as (evs0 & Hrun0 & _).
  rewrite Hrun0 in Hres. simpl in Hres. rewrite Hres in Hrun.
  destruct (query_events evs Hev) as [Hv Ha].
  set (aud := if AUDIT_ENABLED cfg then [EvAudit record] else []).
  assert (audit_events aud = audited cfg [record]) as Haud.
  { unfold aud, audited. by destruct (AUDIT_ENABLED cfg). }
  assert (view_calls aud = []) as Hvaud.
  { unfold aud. by destruct (AUDIT_ENABLED cfg). }
  (* the stage up to the choice of the handler *)
  assert (∀ (k : M (HttpRequest + HttpResponse)),
    (∀ w', (handler ← lift (_get_handler cfg import_string);
            match handler with
            | None => raise e
            | Some handler =>
                result ← call_handler handler passed e;
                match result with
                | HResponse response => mret (inr response)
                | HValue v => mret (inl (set_tenant passed v))
                end
            end) w' = k w') →
    stage {| store := st; log := lg |}
    = match k {| store := st; log := lg ++ [EvResolve passed] ++ evs ++ aud |} with
      | (Ok (inl request'), w') =>
          (response ← call_get_response get_response request';
           mret (response,
                 {| _resolver := Some r; _exempt_patterns := _exempt_patterns self |})) w'
      | (Ok (inr response), w') =>
          (Ok (response,
               {| _resolver := Some r; _exempt_patterns := _exempt_patterns self |}), w')
      | (Raise e', w') => (Raise e', w')
      end) as Hstage.
  { intros k Hk. unfold stage, __call__. simpl. rewrite Hne. fold passed.
    rewrite run_bind, (resolver_available re_compile cfg self r Hr). simpl.
    rewrite run_bind, run_try_except, run_bind. unfold call_resolve.
    rewrite run_bind, run_emit, Hrun.
    assert (∀ w', audit_log cfg "tenant_resolution_failed" (req_user passed) None None
                    false (Some passed)
                    (Some match e with
                          | TenantNotFoundError identifier => identifier
                          | _ => None
                          end) {| store := st; log := w' |}
                  = (Ok (), {| store := st; log := w' ++ aud |})) as Haudit.
    { intros w'. unfold audit_log, aud. destruct (AUDIT_ENABLED cfg); simpl; [done|].
      by rewrite app_nil_r. }
    destruct He as [[identifier ->] | [t ->]].
    - rewrite run_bind, Haudit, Hk. rewrite <- !app_assoc.
      destruct (k _) as [[[req'|resp]|e'] w']; done.
    - rewrite run_bind, Haudit, Hk. rewrite <- !app_assoc.
      destruct (k _) as [[[req'|resp]|e'] w']; done. }
  split.
  - intros Hraise.
    rewrite (Hstage (raise e)).
    2:{ intros w'. unfold _get_handler. rewrite Hraise. by rewrite decide_True. }
    assert (emitted stage {| store := st; log := lg |}
            = [EvResolve passed] ++ evs ++ aud) as Hem.
    { apply emitted_app. rewrite (Hstage (raise e)); [done|].
      intros w'. unfold _get_handler. rewrite Hraise. by rewrite decide_True. }
    rewrite Hem. split; [done|].
    rewrite !view_calls_app, !audit_events_app, Hv, Ha, Hvaud, Haud. done.
  - intros Hnone.
    assert (∀ w', (handler ← lift (_get_handler cfg import_string);
                   match handler with
                   | None => raise e
                   | Some handler =>
                       result ← call_handler handler passed e;
                       match result with
                       | HResponse response => mret (inr response)
                       | HValue v => mret (inl (set_tenant passed v))
                       end
                   end) w'
                  = (_ ← emit (EvHandler passed e); mret (inl passed)) w') as Hk.
    { intros [st' lg']. unfold _get_handler. rewrite Hnone.
      rewrite decide_False by done. rewrite decide_True by done.
      unfold call_handler. unfold_M. simpl. done. }
    assert (stage {| store := st; log := lg |}
            = (match (get_response passed st).1 with
               | Ok response =>
                   Ok (response,
                       {| _resolver := Some r;
                          _exempt_patterns := _exempt_patterns self |})
               | Raise e' => Raise e'
               end,
               {| store := (get_response passed st).2;
                  log := lg ++ [EvResolve passed] ++ evs ++ aud
                         ++ [EvHandler passed e; EvGetResponse passed] |})) as Hfull.
    { rewrite (Hstage _ Hk). unfold call_get_response. unfold_M. simpl.
      destruct (get_response passed st) as [[resp|e'] st']; simpl;
        by rewrite <- !app_assoc; simpl; rewrite <- ?app_assoc. }
    assert (emitted stage {| store := st; log := lg |}
            = [EvResolve passed] ++ evs ++ aud
              ++ [EvHandler passed e; EvGetResponse passed]) as Hem.
    { apply emitted_app. by rewrite Hfull. }
    rewrite Hem, Hfull. simpl.
    rewrite !view_calls_app, !audit_events_app, Hv, Ha, Hvaud, Haud. simpl.
    by rewrite app_nil_r.
Qed.

(** ** Guards *)

Lemma call_get_response_run
    (view_func : HttpRequest → Store → result HttpResponse * Store)
    (request : HttpRequest) (st : Store) (lg : list Event) :
  call_get_response view_func request {| store := st; log := lg |}
  = ((view_func request st).1,
     {| store := (view_func request st).2; log := lg ++ [EvGetResponse request] |}).
Proof.
  unfold call_get_response. unfold_M. simpl. by destruct (view_func request st) as [[?|?] ?].
Qed.

Lemma active_memberships_nonempty (st : Store) (user : User) (tenant : Tenant) :
  active_memberships st (u_pk user) (Some (t_id tenant)) ≠ []
  ↔ ∃ m, is_active_membership st user (Some tenant) m.
Proof.
  split.
  - destruct (active_memberships _ _ _) as [|m l] eqn:E; [done|]. intros _.
    exists m. apply (active_memberships_spec st user (Some tenant)). simpl.
    rewrite E. left.
  - intros [m Hm%active_memberships_spec] Hnil. simpl in Hm. rewrite Hnil in Hm.
    by apply elem_of_nil in Hm.
Qed.

(** X23: the authentication backend's membership check passes exactly for
    a superuser -- whatever [SUPERUSER_BYPASS] says -- and for a user with
    an active membership in an active tenant.  A refusal writes one audit
    record (when auditing is enabled): the event [authentication_failed] at
    level WARNING, not a success, with the user, the tenant and the path of
    the request; a pass writes none.  The store is not changed. *)
Theorem verify_tenant_membership_spec (cfg : Settings) (user : User) (tenant : Tenant)
    (request : option HttpRequest) (st : Store) (lg : list Event) :
  let check := _verify_tenant_membership cfg user tenant request in
  ∃ b,
    (check {| store := st; log := lg |}).1 = Ok b
    ∧ store (check {| store := st; log := lg |}).2 = st
    ∧ (b = true ↔
       u_is_superuser user = true
       ∨ ((∃ m, is_active_membership st user (Some tenant) m)
          ∧ t_is_active tenant = true))
    ∧ audit_events (emitted check {| store := st; log := lg |})
      = if b then []
        else audited cfg
               [{| a_level := WARNING; a_event := "authentication_failed";
                   a_success := false;
                   a_user := Some (u_pk user, u_username user, u_is_superuser user);
                   a_tenant := Some (t_id tenant, t_slug tenant);
                   a_permission := None; a_path := req_path <$> request;
                   a_identifier := None |}].
Proof.
  intros check.
  destruct (audit_log_exact cfg "authentication_failed" (Some user) (Some tenant)
              false request st lg) as (evs & Haudit & _ & Hrec).
  simpl in Hrec.
  pose proof (active_memberships_nonempty st user tenant) as Hmem.
  assert (∃ b evs',
    check {| store := st; log := lg |} = (Ok b, {| store := st; log := lg ++ evs' |})
    ∧ (b = true ↔
       u_is_superuser user = true
       ∨ ((∃ m, is_active_membership st user (Some tenant) m)
          ∧ t_is_active tenant = true))
    ∧ audit_events evs' = if b then [] else audit_events evs)
    as (b & evs' & Hrun & Hb & Hcount).
  { unfold check, _verify_tenant_membership.
    destruct (u_is_superuser user) eqn:Hsuper.
    { exists true, []. rewrite app_nil_r. split; [done|].
      split; [|done]. split; [intros _; by left|done]. }
    rewrite run_bind. unfold get_store at 1. simpl.
    destruct (bool_decide (_ ≠ [])) eqn:Hbd; simpl.
    - apply bool_decide_eq_true in Hbd. apply Hmem in Hbd.
      destruct (t_is_active tenant) eqn:Hact; simpl.
      + exists true, []. rewrite app_nil_r. split; [done|].
        split; [|done]. split; [intros _; by right|done].
      + exists false, evs. rewrite run_bind, Haudit. split; [done|].
        split; [|done]. split; [done|by intros [? | [_ ?]]].
    - apply bool_decide_eq_false in Hbd.
      exists false, evs. rewrite run_bind, Haudit. split; [done|]. split; [|done].
      split; [done|]. intros [? | [Hm _]]; [done|]. by apply Hmem in Hm. }
  exists b. rewrite (emitted_app check _ evs') by (by rewrite Hrun).
  rewrite Hrun, Hcount, Hrec. done.
Qed.

(** X24: the wrapped view of [tenant_login_required] calls the view exactly
    when the user is authenticated, the request has a tenant, and the user
    is a superuser under the bypass or has an active membership in the
    tenant; the view is then called once, with the request, and its result
    is returned, with no audit record.  An unauthenticated user is
    redirected with nothing logged; every other refusal raises
    [PermissionDenied] after one audit record (when auditing is enabled):
    the event [access_denied] at level WARNING, not a success, with the
    user, the tenant of the request if it has one, and the path.  The
    [tenant_user] slot of the request is empty or holds an identity context
    of this user and tenant whose caches agree with the store. *)
Theorem tenant_login_required_guard (cfg : Settings)
    (view_func : HttpRequest → Store → result HttpResponse * Store)
    (redirect_to_login : string → string → string → HttpResponse)
    (build_absolute_uri : HttpRequest → string) (LOGIN_URL : string)
    (redirect_field_name : string) (login_url : option string)
    (request : HttpRequest) (slot : option TenantUser) (user : User)
    (st : Store) (lg : list Event) :
  let guard := tenant_login_required cfg view_func redirect_to_login build_absolute_uri
                 LOGIN_URL redirect_field_name login_url request slot in
  let w := {| store := st; log := lg |} in
  let passes :=
    u_is_authenticated user = true
    ∧ ∃ tenant, req_tenant request = Some tenant
                ∧ (SUPERUSER_BYPASS cfg && u_is_superuser user = true
                   ∨ ∃ m, is_active_membership st user (Some tenant) m) in
  req_user request = Some user →
  membership_unique st →
  (∀ tenant, req_tenant request = Some tenant → slot_agrees st user tenant slot) →
  (passes →
   view_calls (emitted guard w) = [request]
   ∧ (guard w).1 = (view_func request st).1
   ∧ audit_events (emitted guard w) = [])
  ∧ (¬ passes →
     view_calls (emitted guard w) = []
     ∧ store (guard w).2 = st
     ∧ if u_is_authenticated user
       then (guard w).1 = Raise (OtherError "PermissionDenied")
            ∧ audit_events (emitted guard w)
              = audited cfg
                  [{| a_level := WARNING; a_event := "access_denied";
                      a_success := false;
                      a_user := Some (u_pk user, u_username user, u_is_superuser user);
                      a_tenant := (λ t, (t_id t, t_slug t)) <$> req_tenant request;
                      a_permission := None; a_path := Some (req_path request);
                      a_identifier := None |}]
       else guard w
            = (Ok (redirect_to_login (build_absolute_uri request)
                     (login_url_or login_url LOGIN_URL) redirect_field_name), w)).
Proof.
  intros guard w passes Huser Hu Hslot.
  destruct (u_is_authenticated user) eqn:Hauth.
  2:{ assert (guard w
              = (Ok (redirect_to_login (build_absolute_uri request)
                       (login_url_or login_url LOGIN_URL) redirect_field_name), w)) as Hg.
      { unfold guard, tenant_login_required. by rewrite Huser, Hauth. }
      split; [by intros [? _]|]. intros _.
      rewrite (emitted_app guard w []) by (by rewrite Hg, app_nil_r).
      by rewrite Hg. }
  destruct (req_tenant request) as [tenant|] eqn:Htenant.
  2:{ destruct (audit_log_exact cfg "access_denied" (Some user) None false
                  (Some request) st lg) as (evs & Haudit & Hev & Hrec).
      assert (guard w = (Raise (OtherError "PermissionDenied"),
                         {| store := st; log := lg ++ evs |})) as Hg.
      { unfold guard, tenant_login_required, w. rewrite Huser, Hauth, Htenant. simpl.
        by rewrite run_bind, Haudit. }
      split; [by intros (_ & t & ? & _)|]. intros _.
      rewrite (emitted_app guard w evs) by (by rewrite Hg).
      rewrite Hg, Hev, Hrec. done. }
  destruct (SUPERUSER_BYPASS cfg && u_is_superuser user) eqn:Hbypass.
  { assert (guard w = call_get_response view_func request w) as Hg.
    { unfold guard, tenant_login_required. by rewrite Huser, Hauth, Htenant, Hbypass. }
    unfold w in Hg. rewrite call_get_response_run in Hg. split.
    - intros _. rewrite (emitted_app guard w [EvGetResponse request])
        by (by unfold w; rewrite Hg).
      unfold w. by rewrite Hg.
    - intros Hno. exfalso. apply Hno. split; [done|]. exists tenant. by split; [|left]. }
  set (tu := get_or_create_tenant_user slot user tenant).
  assert (tu_user tu = user ∧ tu_tenant tu = Some tenant ∧ caches_agree st tu)
    as (Htu_user & Htu_tenant & Hagree).
  { unfold tu, get_or_create_tenant_user. destruct slot as [s|].
    - by apply (Hslot tenant eq_refl s).
    - split; [done|]. split; [done|]. apply fresh_caches_agree. }
  destruct (is_member_result st lg tu Hu Hagree)
    as (b & tu' & evs & Hrun & Hev & Hb & _).
  rewrite Htu_user, Htu_tenant in Hb.
  destruct (query_events evs Hev) as [Hv Ha].
  destruct b.
  - assert (guard w = ((view_func request st).1,
                       {| store := (view_func request st).2;
                          log := lg ++ evs ++ [EvGetResponse request] |})) as Hg.
    { unfold guard, tenant_login_required, w. rewrite Huser, Hauth, Htenant, Hbypass.
      simpl. fold tu. rewrite run_bind, Hrun. simpl.
      by rewrite call_get_response_run, <- app_assoc. }
    split.
    + intros _. rewrite (emitted_app guard w (evs ++ [EvGetResponse request]))
        by (by rewrite Hg).
      rewrite Hg, view_calls_app, audit_events_app, Hv, Ha. done.
    + intros Hno. exfalso. apply Hno. split; [done|]. exists tenant. split; [done|].
      right. by apply Hb.
  - destruct (audit_log_exact cfg "access_denied" (Some user) (Some tenant) false
                (Some request) st (lg ++ evs)) as (evs' & Haudit & Hev' & Hrec).
    assert (guard w = (Raise (OtherError "PermissionDenied"),
                       {| store := st; log := lg ++ evs ++ evs' |})) as Hg.
    { unfold guard, tenant_login_required, w. rewrite Huser, Hauth, Htenant, Hbypass.
      simpl. fold tu. rewrite run_bind, Hrun. simpl.
      by rewrite run_bind, Haudit, <- app_assoc. }
    split.
    + intros (_ & t' & [= <-] & [? | Hm]); [done|]. apply Hb in Hm. done.
    + intros _. rewrite (emitted_app guard w (evs ++ evs')) by (by rewrite Hg).
      rewrite Hg, view_calls_app, audit_events_app, Hv, Ha, Hev', Hrec. done.
Qed.

(** The permission step of the guards, for a user without the bypass. *)
Lemma guard_perms_result (cfg : Settings) (st : Store) (lg : list Event)
    (self : TenantUser) (user : User) (tenant : Tenant) (require_all : bool)
    (perm_list : list string) :
  membership_unique st → caches_agree st self →
  tu_user self = user → tu_tenant self = Some tenant →
  SUPERUSER_BYPASS cfg && u_is_superuser user = false →
  ∃ b self' evs,
    (if require_all then TenantUser.has_perms cfg self perm_list
     else TenantUserOps.any_has_perm cfg self perm_list) {| store := st; log := lg |}
    = (Ok (b, self'), {| store := st; log := lg ++ evs |})
    ∧ engine_events evs
    ∧ (b = true ↔ perms_granted st user tenant require_all perm_list).
Proof.
  intros Hu Hagree Huser Htenant Hbypass.
  assert (∀ p, allowed cfg st user (Some tenant) p ↔ granted st user (Some tenant) p)
    as Hallowed.
  { intros p. unfold allowed. rewrite Hbypass. split; [by intros [?|?]|by right]. }
  destruct require_all; simpl.
  - destruct (has_perms_result cfg st perm_list Hu lg self Hagree)
      as (b & self' & evs & Hrun & Hev & Hb & _).
    exists b, self', evs. split; [done|]. split; [done|].
    rewrite Hb, Huser, Htenant. split; intros H p Hp; by apply Hallowed, H.
  - destruct (any_has_perm_result cfg st perm_list Hu lg self Hagree)
      as (b & self' & evs & Hrun & Hev & Hb & _).
    exists b, self', evs. split; [done|]. split; [done|].
    rewrite Hb, Huser, Htenant.
    split; intros (p & Hp & H); exists p; (split; [done|by apply Hallowed]).
Qed.

(** X25: the wrapped view of [tenant_permission_required] calls the view
    exactly when the user is authenticated, the request has a tenant, and
    the user is a superuser under the bypass or is an active member who is
    granted the codenames asked for (all of them, or one of them).  The
    view is then called once and its result returned.  Otherwise the view
    is not called and the store is unchanged; an authenticated user gets
    [PermissionDenied] when [raise_exception] is set, everyone else a
    redirect. *)
Theorem tenant_permission_required_guard (cfg : Settings)
    (view_func : HttpRequest → Store → result HttpResponse * Store)
    (redirect_to_login : string → string → string → HttpResponse)
    (build_absolute_uri : HttpRequest → string) (LOGIN_URL : string)
    (str_of_list : list string → string)
    (perm : string + list string)
    (redirect_field_name : string) (login_url : option string)
    (raise_exception require_all : bool)
    (request : HttpRequest) (slot : option TenantUser) (user : User)
    (st : Store) (lg : list Event) :
  let guard := tenant_permission_required cfg view_func redirect_to_login
                 build_absolute_uri LOGIN_URL str_of_list perm redirect_field_name
                 login_url raise_exception require_all request slot in
  let w := {| store := st; log := lg |} in
  let passes :=
    u_is_authenticated user = true
    ∧ ∃ tenant, req_tenant request = Some tenant
                ∧ (SUPERUSER_BYPASS cfg && u_is_superuser user = true
                   ∨ ((∃ m, is_active_membership st user (Some tenant) m)
                      ∧ perms_granted st user tenant require_all
                          (normalize_permission_list perm))) in
  req_user request = Some user →
  membership_unique st →
  (∀ tenant, req_tenant request = Some tenant → slot_agrees st user tenant slot) →
  (passes →
   view_calls (emitted guard w) = [request]
   ∧ (guard w).1 = (view_func request st).1)
  ∧ (¬ passes →
     view_calls (emitted guard w) = []
     ∧ store (guard w).2 = st
     ∧ if u_is_authenticated user && raise_exception
       then (guard w).1 = Raise (OtherError "PermissionDenied")
       else ∃ url, (guard w).1
                   = Ok (redirect_to_login (build_absolute_uri request) url
                           redirect_field_name)).
Proof.
  intros guard w passes Huser Hu Hslot.
  set (redirect url := redirect_to_login (build_absolute_uri request) url
                         redirect_field_name).
  (* every refusal has this shape *)
  assert (∀ evs resp,
    engine_events evs →
    guard w = ((if raise_exception then Raise (OtherError "PermissionDenied")
                else Ok (redirect resp)), {| store := st; log := lg ++ evs |}) →
    u_is_authenticated user = true →
    view_calls (emitted guard w) = []
    ∧ store (guard w).2 = st
    ∧ if u_is_authenticated user && raise_exception
      then (guard w).1 = Raise (OtherError "PermissionDenied")
      else ∃ url, (guard w).1 = Ok (redirect url)) as Hrefuse.
  { intros evs resp Hev Hg Hauth.
    rewrite (emitted_app guard w evs) by (by rewrite Hg).
    rewrite Hg, Hauth, (engine_events_no_view evs Hev). simpl.
    split; [done|]. split; [done|]. destruct raise_exception; [done|by exists resp]. }
  destruct (u_is_authenticated user) eqn:Hauth.
  2:{ assert (guard w = (Ok (redirect (login_url_or login_url LOGIN_URL)), w)) as Hg.
      { unfold guard, tenant_permission_required. by rewrite Huser, Hauth. }
      split; [by intros [? _]|]. intros _.
      rewrite (emitted_app guard w []) by (by rewrite Hg, app_nil_r).
      rewrite Hg. simpl. split; [done|]. split; [done|]. by eexists. }
  destruct (req_tenant request) as [tenant|] eqn:Htenant.
  2:{ split; [by intros (_ & t & ? & _)|]. intros _.
      apply (Hrefuse [] (login_url_or login_url LOGIN_URL)); [apply engine_events_nil| |done].
      unfold guard, tenant_permission_required, w.
      rewrite Huser, Hauth, Htenant, app_nil_r. simpl. by destruct raise_exception. }
  destruct (SUPERUSER_BYPASS cfg && u_is_superuser user) eqn:Hbypass.
  { assert (guard w = call_get_response view_func request w) as Hg.
    { unfold guard, tenant_permission_required.
      by rewrite Huser, Hauth, Htenant, Hbypass. }
    unfold w in Hg. rewrite call_get_response_run in Hg. split.
    - intros _. rewrite (emitted_app guard w [EvGetResponse request])
        by (by unfold w; rewrite Hg).
      unfold w. by rewrite Hg.
    - intros Hno. exfalso. apply Hno. split; [done|]. exists tenant. by split; [|left]. }
  set (tu := get_or_create_tenant_user slot user tenant).
  assert (tu_user tu = user ∧ tu_tenant tu = Some tenant ∧ caches_agree st tu)
    as (Htu_user & Htu_tenant & Hagree).
  { unfold tu, get_or_create_tenant_user. destruct slot as [s|].
    - by apply (Hslot tenant eq_refl s).
    - split; [done|]. split; [done|]. apply fresh_caches_agree. }
  destruct (is_member_result st lg tu Hu Hagree)
    as (b & tu' & evs & Hrun & Hev & Hb & Htu_user' & Htu_tenant' & Hagree').
  rewrite Htu_user, Htu_tenant in Hb. rewrite Htu_user in Htu_user'.
  rewrite Htu_tenant in Htu_tenant'.
  pose proof (query_events_engine evs Hev) as Hev_engine.
  destruct b.
  2:{ destruct (audit_log_events cfg "access_denied" (Some user) (Some tenant) None false
                  (Some request) None st (lg ++ evs)) as (evs' & Haudit & Hev' & _).
      split.
      - intros (_ & t' & [= <-] & [? | [Hm _]]); [done|]. by apply Hb in Hm.
      - intros _.
        apply (Hrefuse (evs ++ evs') (login_url_or login_url LOGIN_URL));
          [by apply engine_events_app| |done].
        unfold guard, tenant_permission_required, w.
        rewrite Huser, Hauth, Htenant, Hbypass. simpl. fold tu.
        rewrite run_bind, Hrun. simpl. rewrite run_bind, Haudit, <- app_assoc.
        by destruct raise_exception. }
  destruct (guard_perms_result cfg st (lg ++ evs) tu' user tenant require_all
              (normalize_permission_list perm) Hu Hagree' Htu_user' Htu_tenant' Hbypass)
    as (ok & tu'' & evs1 & Hperm & Hev1 & Hok).
  destruct ok.
  - assert (guard w = ((view_func request st).1,
                       {| store := (view_func request st).2;
                          log := lg ++ (evs ++ evs1) ++ [EvGetResponse request] |}))
      as Hg.
    { unfold guard, tenant_permission_required, w.
      rewrite Huser, Hauth, Htenant, Hbypass. simpl. fold tu.
      rewrite run_bind, Hrun. simpl. rewrite run_bind, Hperm. simpl.
      by rewrite call_get_response_run, <- !app_assoc. }
    split.
    + intros _. rewrite (emitted_app guard w ((evs ++ evs1) ++ [EvGetResponse request]))
        by (by rewrite Hg).
      rewrite Hg, view_calls_app,
        (engine_events_no_view (evs ++ evs1) (engine_events_app _ _ Hev_engine Hev1)).
      done.
    + intros Hno. exfalso. apply Hno. split; [done|]. exists tenant. split; [done|].
      right. split; [by apply Hb|by apply Hok].
  - destruct (audit_log_events cfg "access_denied" (Some user) (Some tenant)
                (Some (str_of_perm str_of_list perm)) false (Some request) None st
                ((lg ++ evs) ++ evs1)) as (evs' & Haudit & Hev' & _).
    split.
    + intros (_ & t' & [= <-] & [? | [_ Hp]]); [done|]. by apply Hok in Hp.
    + intros _.
      apply (Hrefuse ((evs ++ evs1) ++ evs') (login_url_or login_url "/permission-denied/"));
        [by repeat apply engine_events_app| |done].
      unfold guard, tenant_permission_required, w.
      rewrite Huser, Hauth, Htenant, Hbypass. simpl. fold tu.
      rewrite run_bind, Hrun. simpl. rewrite run_bind, Hperm. simpl.
      rewrite run_bind, Haudit, <- !app_assoc.
      by destruct raise_exception.
Qed.

(** X26: [IsTenantMember] lets a request through exactly when its user is
    authenticated, it has a tenant, and the user is a superuser -- whatever
    [SUPERUSER_BYPASS] says -- or has an active membership in the tenant.
    It always answers, changes nothing in the store, and writes an audit
    record only for an authenticated non-member. *)
Theorem is_tenant_member_permission (cfg : Settings) (request : HttpRequest)
    (slot : option TenantUser) (st : Store) (lg : list Event) :
  let check := IsTenantMember_has_permission cfg request slot in
  let w := {| store := st; log := lg |} in
  membership_unique st →
  (∀ user tenant, req_user request = Some user → req_tenant request = Some tenant →
                  slot_agrees st user tenant slot) →
  ∃ b,
    (check w).1 = Ok b
    ∧ store (check w).2 = st
    ∧ (b = true ↔
       ∃ user tenant,
         req_user request = Some user ∧ u_is_authenticated user = true
         ∧ req_tenant request = Some tenant
         ∧ (u_is_superuser user = true
            ∨ ∃ m, is_active_membership st user (Some tenant) m))
    ∧ (b = true → audit_events (emitted check w) = []).
Proof.
  intros check w Hu Hslot.
  assert (∃ b evs,
    check w = (Ok b, {| store := st; log := lg ++ evs |})
    ∧ (b = true ↔
       ∃ user tenant,
         req_user request = Some user ∧ u_is_authenticated user = true
         ∧ req_tenant request = Some tenant
         ∧ (u_is_superuser user = true
            ∨ ∃ m, is_active_membership st user (Some tenant) m))
    ∧ (b = true → audit_events evs = [])) as (b & evs & Hrun & Hb & Haud).
  { unfold check, IsTenantMember_has_permission, w.
    destruct (req_user request) as [user|] eqn:Huser.
    2:{ exists false, []. rewrite app_nil_r. split; [done|]. split; [|done].
        split; [done|]. by intros (? & ? & ? & _). }
    destruct (u_is_authenticated user) eqn:Hauth; simpl.
    2:{ exists false, []. rewrite app_nil_r. split; [done|]. split; [|done].
        split; [done|]. intros (? & ? & [= <-] & ? & _). congruence. }
    destruct (req_tenant request) as [tenant|] eqn:Htenant.
    2:{ exists false, []. rewrite app_nil_r. split; [done|]. split; [|done].
        split; [done|]. by intros (? & ? & _ & _ & ? & _). }
    destruct (u_is_superuser user) eqn:Hsuper.
    { exists true, []. rewrite app_nil_r. split; [done|]. split; [|done].
      split; [|done]. intros _. exists user, tenant. by repeat (split; [done|]); left. }
    set (tu := get_or_create_tenant_user slot user tenant).
    assert (tu_user tu = user ∧ tu_tenant tu = Some tenant ∧ caches_agree st tu)
      as (Htu_user & Htu_tenant & Hagree).
    { unfold tu, get_or_create_tenant_user. destruct slot as [s|].
      - by apply (Hslot user tenant eq_refl eq_refl s).
      - split; [done|]. split; [done|]. apply fresh_caches_agree. }
    destruct (is_member_result st lg tu Hu Hagree)
      as (b & tu' & evs & Hrun & Hev & Hb & _).
    rewrite Htu_user, Htu_tenant in Hb.
    destruct (query_events evs Hev) as [_ Ha].
    rewrite run_bind, Hrun. simpl. destruct b; simpl.
    - exists true, evs. rewrite run_bind, run_ret. split; [done|]. split; [|done].
      split; [|done]. intros _. exists user, tenant. repeat (split; [done|]).
      right. by apply Hb.
    - destruct (audit_log_events cfg "api_permission_denied" (Some user) (Some tenant)
                  None false None None st (lg ++ evs)) as (evs' & Haudit & _ & _).
      exists false, (evs ++ evs'). rewrite run_bind, Haudit, run_ret, <- app_assoc.
      split; [done|]. split; [|done]. split; [done|].
      intros (u' & t' & [= <-] & _ & [= <-] & [? | Hm]); [congruence|].
      by apply Hb in Hm. }
  exists b. rewrite (emitted_app check w evs) by (by rewrite Hrun).
  by rewrite Hrun.
Qed.

(** X27: [TenantPermission] lets a request through exactly when its user is
    authenticated, it has a tenant, and the user is a superuser, or is an
    active member and either no codename is required or the required ones
    are granted (all of them, or one of them).  The required codenames are
    the view's when it names some, the class's otherwise. *)
Theorem tenant_permission_permission (cfg : Settings)
    (str_of_list : list string → string)
    (required_permissions : list string) (require_all : bool)
    (view_perms : option (list string)) (request : HttpRequest)
    (slot : option TenantUser) (st : Store) (lg : list Event) :
  let check := TenantPermission_has_permission cfg str_of_list required_permissions
                 require_all view_perms request slot in
  let w := {| store := st; log := lg |} in
  let perms := match view_perms with
               | Some [] | None => required_permissions
               | Some named => named
               end in
  membership_unique st →
  (∀ user tenant, req_user request = Some user → req_tenant request = Some tenant →
                  slot_agrees st user tenant slot) →
  ∃ b,
    (check w).1 = Ok b
    ∧ store (check w).2 = st
    ∧ (b = true ↔
       ∃ user tenant,
         req_user request = Some user ∧ u_is_authenticated user = true
         ∧ req_tenant request = Some tenant
         ∧ (u_is_superuser user = true
            ∨ ((∃ m, is_active_membership st user (Some tenant) m)
               ∧ (perms = [] ∨ perms_granted st user tenant require_all perms)))).
Proof.
  intros check w perms Hu Hslot.
  assert (get_required_permissions required_permissions view_perms = perms) as Hperms.
  { unfold perms. by destruct view_perms as [[|? ?]|]. }
  clearbody perms.
  assert (∃ b evs,
    check w = (Ok b, {| store := st; log := lg ++ evs |})
    ∧ (b = true ↔
       ∃ user tenant,
         req_user request = Some user ∧ u_is_authenticated user = true
         ∧ req_tenant request = Some tenant
         ∧ (u_is_superuser user = true
            ∨ ((∃ m, is_active_membership st user (Some tenant) m)
               ∧ (perms = [] ∨ perms_granted st user tenant require_all perms)))))
    as (b & evs & Hrun & Hb).
  { unfold check, TenantPermission_has_permission, w.
    destruct (req_user request) as [user|] eqn:Huser.
    2:{ exists false, []. rewrite app_nil_r. split; [done|].
        split; [done|]. by intros (? & ? & ? & _). }
    destruct (u_is_authenticated user) eqn:Hauth; simpl.
    2:{ exists false, []. rewrite app_nil_r. split; [done|].
        split; [done|]. intros (? & ? & [= <-] & ? & _). congruence. }
    destruct (req_tenant request) as [tenant|] eqn:Htenant.
    2:{ exists false, []. rewrite app_nil_r. split; [done|].
        split; [done|]. by intros (? & ? & _ & _ & ? & _). }
    destruct (u_is_superuser user) eqn:Hsuper.
    { exists true, []. rewrite app_nil_r. split; [done|].
      split; [|done]. intros _. exists user, tenant. by repeat (split; [done|]); left. }
    set (tu := get_or_create_tenant_user slot user tenant).
    assert (tu_user tu = user ∧ tu_tenant tu = Some tenant ∧ caches_agree st tu)
      as (Htu_user & Htu_tenant & Hagree).
    { unfold tu, get_or_create_tenant_user. destruct slot as [s|].
      - by apply (Hslot user tenant eq_refl eq_refl s).
      - split; [done|]. split; [done|]. apply fresh_caches_agree. }
    destruct (is_member_result st lg tu Hu Hagree)
      as (b & tu' & evs & Hrun & Hev & Hb & Htu_user' & Htu_tenant' & Hagree').
    rewrite Htu_user, Htu_tenant in Hb. rewrite Htu_user in Htu_user'.
    rewrite Htu_tenant in Htu_tenant'.
    rewrite run_bind, Hrun. simpl. destruct b; simpl.
    2:{ exists false, evs. split; [done|]. split; [done|].
        intros (u' & t' & [= <-] & _ & [= <-] & [? | [Hm _]]); [congruence|].
        by apply Hb in Hm. }
    rewrite Hperms. destruct perms as [|p ps] eqn:Hps.
    { exists true, evs. split; [done|]. split; [|done]. intros _.
      exists user, tenant. repeat (split; [done|]). right. split; [by apply Hb|by left]. }
    rewrite <- Hps.
    assert (SUPERUSER_BYPASS cfg && u_is_superuser user = false) as Hbypass.
    { rewrite Hsuper. apply andb_false_r. }
    destruct (guard_perms_result cfg st (lg ++ evs) tu' user tenant require_all
                perms Hu Hagree' Htu_user' Htu_tenant' Hbypass)
      as (ok & tu'' & evs1 & Hperm & Hev1 & Hok).
    rewrite run_bind, Hperm. simpl. destruct ok; simpl.
    - exists true, (evs ++ evs1). rewrite run_bind, run_ret, <- app_assoc.
      split; [done|]. split; [|done]. intros _.
      exists user, tenant. repeat (split; [done|]). right.
      split; [by apply Hb|]. right. by apply Hok.
    - destruct (audit_log_events cfg "api_permission_denied" (Some user) (Some tenant)
                  (Some (str_of_list perms)) false None None st ((lg ++ evs) ++ evs1))
        as (evs' & Haudit & _ & _).
      exists false, ((evs ++ evs1) ++ evs').
      rewrite run_bind, Haudit, run_ret, <- !app_assoc.
      split; [done|]. split; [done|].
      intros (u' & t' & [= <-] & _ & [= <-] & [? | [_ [? | Hp]]]); [congruence| |].
      + congruence.
      + by apply Hok in Hp. }
  exists b. by rewrite Hrun.
Qed.

(** X28: under the (user, tenant) uniqueness, [Tenant.get_membership] never
    raises and changes nothing; it returns the membership of the user in the
    tenant whether it is active or not, so a suspended member is found here
    while the permission engine's lookup finds none. *)
Theorem get_membership_spec (self : Tenant) (user : User) (w : World) :
  membership_unique (store w) →
  ∃ found,
    TenantOps.get_membership self user w = (Ok found, w)
    ∧ (∀ m, found = Some m
            ↔ m ∈ memberships (store w) ∧ m_user_id m = u_pk user
              ∧ m_tenant_id m = t_id self)
    ∧ (∀ m, found = Some m → m_is_active m = false →
            (find_active_membership user (Some self) w).1 = Ok None).
Proof.
  destruct w as [st lg]. simpl. intros Hu.
  pose proof (filter_unique_key (λ m, (m_user_id m, m_tenant_id m)) (u_pk user, t_id self)
    (λ m, m_tenant_id m = t_id self ∧ m_user_id m = u_pk user) (memberships st) Hu)
    as Hlen.
  assert (∃ found,
    TenantOps.get_membership self user {| store := st; log := lg |}
    = (Ok found, {| store := st; log := lg |})
    ∧ ∀ m, found = Some m
           ↔ m ∈ memberships st ∧ m_user_id m = u_pk user ∧ m_tenant_id m = t_id self)
    as (found & Hrun & Hfound).
  { unfold TenantOps.get_membership. unfold_M. simpl.
    destruct (filter _ (memberships st)) as [|m0 [|m1 l]] eqn:E; simpl.
    - exists None. split; [done|]. intros m. split; [done|].
      intros (Hin & Huser & Htenant).
      assert (m ∈ filter (λ m0, m_tenant_id m0 = t_id self ∧ m_user_id m0 = u_pk user)
                    (memberships st)) as Hf by (by apply list_elem_of_filter).
      rewrite E in Hf. by apply elem_of_nil in Hf.
    - exists (Some m0). split; [done|]. intros m.
      assert (∀ x, x ∈ [m0] ↔ x ∈ memberships st ∧ m_user_id x = u_pk user
                                ∧ m_tenant_id x = t_id self) as Hin.
      { intros x. rewrite <- E, list_elem_of_filter. tauto. }
      rewrite <- Hin, list_elem_of_singleton. split; [by intros [= ->]|by intros ->].
    - exfalso. simpl in Hlen. cut (S (S (length l)) ≤ 1); [lia|].
      apply Hlen. by intros x [-> ->]. }
  exists found. split; [done|]. split; [done|].
  intros m Hm Hinactive. apply Hfound in Hm as (Hin & Huser & Htenant).
  destruct (find_active_membership_run st lg user (Some self) Hu) as (active & Hfind & Hl).
  rewrite Hfind. simpl. f_equal. destruct active as [m'|]; [|done]. exfalso.
  assert (is_active_membership st user (Some self) m') as (Hin' & Huser' & Htenant' & Hact).
  { apply active_memberships_spec. rewrite Hl. simpl. left. }
  simpl in Htenant'. injection Htenant' as Htenant'.
  assert (m' = m) as ->; [|congruence].
  assert (length (filter (λ m0, m_tenant_id m0 = t_id self ∧ m_user_id m0 = u_pk user)
                    (memberships st)) ≤ 1) as Hle by (apply Hlen; by intros x [-> ->]).
  assert (m' ∈ filter (λ m0, m_tenant_id m0 = t_id self ∧ m_user_id m0 = u_pk user)
                 (memberships st)) as H1 by (by apply list_elem_of_filter).
  assert (m ∈ filter (λ m0, m_tenant_id m0 = t_id self ∧ m_user_id m0 = u_pk user)
                (memberships st)) as H2 by (by apply list_elem_of_filter).
  destruct (filter _ (memberships st)) as [|x [|y l]]; simpl in Hle; [|  |lia].
  - by apply elem_of_nil in H1.
  - apply list_elem_of_singleton in H1, H2. congruence.
Qed.

(** ** The properties on the example data *)

Lemma demo_tenants_unique : tenants_unique demo_store.
Proof. repeat split; apply (bool_decide_unpack _); vm_compute; exact I. Qed.

Lemma alice_is_member : is_active_membership demo_store alice (Some acme) alice_at_acme.
Proof. repeat split. left. Qed.

Lemma alice_granted_view : granted demo_store alice (Some acme) "orders.view_order".
Proof.
  split; [by exists acme|]. exists alice_at_acme. split; [apply alice_is_member|].
  exists manager, view_order. repeat split; apply (bool_decide_unpack _); vm_compute; exact I.
Qed.

Lemma no_slot (st : Store) (user : User) (tenant : Tenant) :
  slot_agrees st user tenant None.
Proof. intros tenant_user Hslot. discriminate Hslot. Qed.

Lemma valid_codename_shape_witness :
  count_char "." "orders.view_order" = 1
  ∧ Str.lower "orders.view_order" = "orders.view_order".
Proof. apply (proj1 (valid_codename_shape "orders.view_order")). reflexivity. Defined.

Lemma boolean_validators_agree_witness :
  validate_permission_codename "orders.view_order" = Ok "orders.view_order".
Proof.
  apply (proj1 (proj2 (proj2 boolean_validators_agree)) "orders.view_order").
  reflexivity.
Defined.

Lemma add_role_assigns_witness :
  (∃ w',
     TenantMembership.add_role alice_at_acme auditor
       {| store := demo_store_with_auditor; log := [] |} = (Ok (), w')
     ∧ log w' = []
     ∧ (∀ pair, pair ∈ membership_roles (store w')
                ↔ pair = (10%N, 24%N) ∨ pair ∈ membership_roles demo_store)
     ∧ TenantMembership.add_role alice_at_acme auditor w' = (Ok (), w'))
  ∧ TenantMembership.add_role alice_at_acme auditor demo_world
    = (Raise IntegrityError, demo_world).
Proof.
  split.
  - destruct (proj1 (add_role_assigns alice_at_acme auditor
                       {| store := demo_store_with_auditor; log := [] |} eq_refl))
      as (w' & Hrun & Hlog & _ & Hpairs & _ & Hagain).
    + apply (bool_decide_unpack _). vm_compute. exact I.
    + apply (bool_decide_unpack _). vm_compute. exact I.
    + exists w'. split; [exact Hrun|]. split; [exact Hlog|].
      split; [exact Hpairs|exact Hagain].
  - apply (proj2 (add_role_assigns alice_at_acme auditor demo_world eq_refl)).
    + apply (bool_decide_unpack _). vm_compute. exact I.
    + apply (bool_decide_unpack _). vm_compute. exact I.
Defined.

Lemma add_permission_grants_witness :
  ∃ w',
    Role.add_permission intern delete_order demo_world = (Ok (), w')
    ∧ (TenantMembership.has_permission alice_at_acme "orders.delete_order" w').1 = Ok true
    ∧ "orders.delete_order" ∈ Role.get_permissions intern (store w')
    ∧ (∀ m' codename, active_role_grants (store demo_world) m' codename →
                      active_role_grants (store w') m' codename).
Proof.
  apply (add_permission_grants intern delete_order alice_at_acme demo_world).
  - reflexivity.
  - apply (bool_decide_unpack _). vm_compute. exact I.
  - reflexivity.
  - apply (bool_decide_unpack _). vm_compute. exact I.
  - apply (bool_decide_unpack _). vm_compute. exact I.
Defined.

Lemma add_member_creates_witness :
  ∃ w',
    TenantOps.add_member 11%N acme root [manager] true demo_world
    = (Ok {| m_id := 11%N; m_user_id := 2; m_tenant_id := 1%N; m_is_active := true |}, w')
    ∧ (11%N, 20%N) ∈ membership_roles (store w')
    ∧ (find_active_membership root (Some acme) w').1
      = Ok (Some {| m_id := 11%N; m_user_id := 2; m_tenant_id := 1%N;
                    m_is_active := true |}).
Proof.
  destruct (add_member_creates 11%N acme root [manager] true demo_world)
    as (w' & Hrun & _ & _ & _ & Hroles & Hfound).
  - intros (m' & Hin & Huser & _). apply list_elem_of_singleton in Hin as ->.
    discriminate Huser.
  - apply (bool_decide_unpack _). vm_compute. exact I.
  - apply (bool_decide_unpack _). vm_compute. exact I.
  - apply (bool_decide_unpack _). vm_compute. exact I.
  - exists w'. split; [exact Hrun|]. split.
    + apply (Hroles manager). left.
    + exact (Hfound eq_refl demo_store_unique).
Defined.

Lemma add_member_keeps_unique_witness :
  TenantOps.add_member 11%N acme alice [] true demo_world
  = (Raise ValidationError, demo_world).
Proof.
  apply (proj2 (add_member_keeps_unique 11%N acme alice [] true demo_world
                  demo_store_unique)).
  exists alice_at_acme. repeat split. left.
Defined.

Lemma clean_save_lookup_witness :
  ∃ w',
    Tenant.save (Tenant.clean initech) demo_world = (Ok (), w')
    ∧ (get_tenant_by_slug "INITECH" w').1 = Ok (Tenant.clean initech)
    ∧ (get_tenant_by_domain "initech.Com" w').1 = Ok (Tenant.clean initech).
Proof.
  destruct (clean_save_lookup initech demo_world) as (w' & Hsave & _ & Hslug & Hdomain).
  - intros t' Hin _.
    apply elem_of_cons in Hin as [-> | Hin];
      [|apply list_elem_of_singleton in Hin as ->];
      (split; [discriminate|intros _; discriminate]).
  - exists w'. split; [exact Hsave|]. split.
    + apply (Hslug "INITECH"). reflexivity.
    + apply (Hdomain "initech.Com" "Initech.COM"); reflexivity.
Defined.


Lemma any_all_permissions_witness :
  ∃ b_any b_all,
    (PermissionChecker.has_any_permission TENANT_AUTHX_DEFAULTS alice (Some acme)
       ["orders.delete_order"; "orders.view_order"] None demo_world).1 = Ok b_any
    ∧ (PermissionChecker.has_all_permissions TENANT_AUTHX_DEFAULTS alice (Some acme)
         ["orders.delete_order"; "orders.view_order"] None demo_world).1 = Ok b_all
    ∧ (b_any = true
       ↔ ∃ p, p ∈ ["orders.delete_order"; "orders.view_order"]
              ∧ allowed TENANT_AUTHX_DEFAULTS demo_store alice (Some acme) p)
    ∧ (b_all = true
       ↔ ∀ p, p ∈ ["orders.delete_order"; "orders.view_order"]
              → allowed TENANT_AUTHX_DEFAULTS demo_store alice (Some acme) p).
Proof.
  apply (any_all_permissions TENANT_AUTHX_DEFAULTS demo_store [] alice (Some acme)
           ["orders.delete_order"; "orders.view_order"] None demo_store_unique).
  intros m Hm. discriminate Hm.
Defined.

Lemma identity_context_checks_witness :
  ∃ b self',
    (TenantUser.has_perm TENANT_AUTHX_DEFAULTS (TenantUser.__init__ alice (Some acme))
       "orders.view_order" demo_world).1 = Ok (b, self')
    ∧ (b = true
       ↔ allowed TENANT_AUTHX_DEFAULTS demo_store alice (Some acme) "orders.view_order")
    ∧ caches_agree demo_store self'.
Proof.
  apply (proj1 (identity_context_checks TENANT_AUTHX_DEFAULTS demo_store []
                  (TenantUser.__init__ alice (Some acme)) demo_store_unique
                  (fresh_caches_agree demo_store alice (Some acme)))
           "orders.view_order").
Defined.

Lemma is_member_spec_witness :
  ∃ b self',
    (TenantUser.is_member (TenantUser.__init__ alice (Some acme)) demo_world).1
    = Ok (b, self')
    ∧ (b = true ↔ ∃ m, is_active_membership demo_store alice (Some acme) m).
Proof.
  apply (proj1 is_member_spec alice (Some acme) demo_store [] demo_store_unique).
Defined.

Lemma is_member_stale_has_perm_fresh_witness :
  ∃ self1 self2,
    (TenantUser.is_member (TenantUser.__init__ alice (Some acme))
       {| store := empty_store; log := [] |}).1 = Ok (false, self1)
    ∧ (TenantUser.is_member self1 demo_world).1 = Ok (false, self1)
    ∧ (TenantUser.has_perm TENANT_AUTHX_DEFAULTS self1 "orders.view_order" demo_world).1
      = Ok (true, self2).
Proof.
  apply (is_member_stale_has_perm_fresh TENANT_AUTHX_DEFAULTS alice (Some acme)
           empty_store demo_store [] [] "orders.view_order").
  - apply (bool_decide_unpack _). vm_compute. exact I.
  - exact demo_store_unique.
  - intros (m & Hin & _). vm_compute in Hin. by apply elem_of_nil in Hin.
  - exact alice_granted_view.
Defined.

Lemma granted_is_listed_witness :
  ∃ b ps,
    (PermissionChecker.check_permission TENANT_AUTHX_DEFAULTS alice (Some acme)
       "orders.view_order" None demo_world).1 = Ok b
    ∧ (PermissionChecker.get_user_permissions TENANT_AUTHX_DEFAULTS alice (Some acme)
         None demo_world).1 = Ok ps
    ∧ (b = true → "orders.view_order" ∈ ps)
    ∧ (tenant_present_and_active (Some acme) → "orders.view_order" ∈ ps → b = true)
    ∧ (¬ tenant_present_and_active (Some acme) → b = false).
Proof.
  apply (granted_is_listed TENANT_AUTHX_DEFAULTS demo_store [] [] alice (Some acme)
           "orders.view_order" demo_store_unique).
  reflexivity.
Defined.

Lemma get_roles_spec_witness :
  ∃ rs self',
    (TenantUserOps.get_roles (TenantUser.__init__ alice (Some acme)) demo_world).1
    = Ok (rs, self')
    ∧ (∀ r, r ∈ rs ↔
            ∃ m, is_active_membership demo_store alice (Some acme) m
                 ∧ r ∈ roles demo_store ∧ (m_id m, r_id r) ∈ membership_roles demo_store
                 ∧ r_is_active r = true).
Proof.
  destruct (get_roles_spec alice (Some acme) demo_store [] demo_store_unique)
    as (rs & self' & Hrun & Hrs & _).
  exists rs, self'. split; [exact Hrun|exact Hrs].
Defined.

Lemma tenant_lookup_witness :
  (get_tenant_by_slug "ACME" demo_world).1 = Ok acme
  ∧ (get_tenant_by_domain "Globex.com" demo_world).1 = Raise (TenantInactiveError globex)
  ∧ (get_tenant_by_slug "Initech" demo_world).1
    = Raise (TenantNotFoundError (Some "Initech"))
  ∧ (get_tenant_by_slug ("CAF" +:+ String "201" "") {| store := cafe_store; log := [] |}).1
    = Ok cafe.
Proof.
  destruct (tenant_lookup demo_store [] demo_tenants_unique)
    as (Hslug_none & Hslug & _ & Hdomain).
  split; [|split; [|split]].
  - apply (Hslug "ACME" acme); [left|reflexivity].
  - apply (Hdomain "Globex.com" globex); [right; left|reflexivity].
  - apply (Hslug_none "Initech"). intros t Hin.
    apply elem_of_cons in Hin as [-> | Hin];
      [|apply list_elem_of_singleton in Hin as ->]; discriminate.
  - refine (proj1 (proj2 (tenant_lookup cafe_store [] _)) _ cafe _ _).
    + repeat split; apply (bool_decide_unpack _); vm_compute; exact I.
    + apply (bool_decide_unpack _). vm_compute. exact I.
    + reflexivity.
Defined.

Lemma port_is_ignored_witness :
  resolve prefix_match DomainTenantResolver (demo_request "globex.com:8000" "/")
  = resolve prefix_match DomainTenantResolver (demo_request "globex.com" "/").
Proof.
  apply (proj2 (port_is_ignored prefix_match) DomainTenantResolver
           (demo_request "globex.com:8000" "/") (demo_request "globex.com" "/")
           "globex.com" "8000").
  - by left.
  - reflexivity.
  - reflexivity.
  - reflexivity.
Defined.

Lemma stage_resolved_witness :
  let stage := __call__ Ok prefix_match demo_settings demo_get_response
                 demo_import_string demo_middleware
                 (demo_request "acme.example.com" "/orders/") in
  view_calls (emitted stage demo_world)
  = [set_tenant (demo_request "acme.example.com" "/orders/") (Some acme)]
  ∧ acme ∈ tenants (store demo_world) ∧ t_is_active acme = true.
Proof.
  intros stage.
  destruct (stage_resolved Ok prefix_match demo_settings demo_get_response
              demo_import_string demo_middleware
              (demo_request "acme.example.com" "/orders/") demo_world
              (SubdomainTenantResolver "example.com") acme)
    as (Hcalls & Hin & Hactive & _).
  - apply (bool_decide_unpack _). vm_compute. exact I.
  - right. split; reflexivity.
  - reflexivity.
  - split; [exact Hcalls|]. split; [exact Hin|exact Hactive].
Defined.

Lemma stage_failure_policy_witness :
  let stage := __call__ Ok prefix_match demo_settings demo_get_response
                 demo_import_string demo_middleware
                 (demo_request "nobody.example.com" "/orders/") in
  view_calls (emitted stage demo_world)
  = [set_tenant (demo_request "nobody.example.com" "/orders/") None]
  ∧ length (audit_events (emitted stage demo_world)) = 1.
Proof.
  intros stage.
  destruct (stage_failure_policy Ok prefix_match demo_settings demo_get_response
              demo_import_string demo_middleware
              (demo_request "nobody.example.com" "/orders/") demo_world
              (SubdomainTenantResolver "example.com")
              (TenantNotFoundError (Some "nobody"))) as [_ Hnone].
  - apply (bool_decide_unpack _). vm_compute. exact I.
  - right. split; reflexivity.
  - reflexivity.
  - left. by eexists.
  - destruct (Hnone eq_refl) as (Hcalls & Haudit & _).
    split; [exact Hcalls|]. unfold stage. rewrite Haudit. reflexivity.
Defined.

Lemma tenant_login_required_guard_witness :
  let guard := tenant_login_required TENANT_AUTHX_DEFAULTS demo_get_response
                 demo_redirect_to_login req_path "/login/" "next" None acme_request
                 None in
  view_calls (emitted guard demo_world) = [acme_request]
  ∧ (guard demo_world).1 = (demo_get_response acme_request demo_store).1
  ∧ audit_events (emitted guard demo_world) = [].
Proof.
  intros guard.
  apply (proj1 (tenant_login_required_guard TENANT_AUTHX_DEFAULTS demo_get_response
                  demo_redirect_to_login req_path "/login/" "next" None acme_request
                  None alice demo_store [] eq_refl demo_store_unique
                  (λ tenant _, no_slot demo_store alice tenant))).
  split; [reflexivity|]. exists acme. split; [reflexivity|].
  right. exists alice_at_acme. exact alice_is_member.
Defined.

Lemma tenant_permission_required_guard_witness :
  let guard := tenant_permission_required TENANT_AUTHX_DEFAULTS demo_get_response
                 demo_redirect_to_login req_path "/login/" (λ _, "[...]")
                 (inl "orders.view_order") "next" None true true acme_request None in
  view_calls (emitted guard demo_world) = [acme_request]
  ∧ (guard demo_world).1 = (demo_get_response acme_request demo_store).1.
Proof.
  intros guard.
  apply (proj1 (tenant_permission_required_guard TENANT_AUTHX_DEFAULTS demo_get_response
                  demo_redirect_to_login req_path "/login/" (λ _, "[...]")
                  (inl "orders.view_order") "next" None true true acme_request
                  None alice demo_store [] eq_refl demo_store_unique
                  (λ tenant _, no_slot demo_store alice tenant))).
  split; [reflexivity|]. exists acme. split; [reflexivity|].
  right. split; [exists alice_at_acme; exact alice_is_member|].
  intros p Hp. apply list_elem_of_singleton in Hp as ->. exact alice_granted_view.
Defined.

Lemma is_tenant_member_permission_witness :
  ∃ b,
    (IsTenantMember_has_permission TENANT_AUTHX_DEFAULTS acme_request None demo_world).1
    = Ok b
    ∧ store (IsTenantMember_has_permission TENANT_AUTHX_DEFAULTS acme_request None
               demo_world).2 = demo_store.
Proof.
  destruct (is_tenant_member_permission TENANT_AUTHX_DEFAULTS acme_request None
              demo_store [] demo_store_unique
              (λ user tenant _ _, no_slot demo_store user tenant))
    as (b & Hrun & Hstore & _).
  exists b. split; [exact Hrun|exact Hstore].
Defined.

Lemma tenant_permission_permission_witness :
  ∃ b,
    (TenantPermission_has_permission TENANT_AUTHX_DEFAULTS (λ _, "[...]")
       ["orders.delete_order"] true (Some ["orders.view_order"]) acme_request None
       demo_world).1 = Ok b
    ∧ store (TenantPermission_has_permission TENANT_AUTHX_DEFAULTS (λ _, "[...]")
               ["orders.delete_order"] true (Some ["orders.view_order"]) acme_request
               None demo_world).2 = demo_store.
Proof.
  destruct (tenant_permission_permission TENANT_AUTHX_DEFAULTS (λ _, "[...]")
              ["orders.delete_order"] true (Some ["orders.view_order"]) acme_request
              None demo_store [] demo_store_unique
              (λ user tenant _ _, no_slot demo_store user tenant))
    as (b & Hrun & Hstore & _).
  exists b. split; [exact Hrun|exact Hstore].
Defined.

Lemma get_membership_spec_witness :
  ∃ found,
    TenantOps.get_membership acme alice demo_world = (Ok found, demo_world)
    ∧ (∀ m, found = Some m
            ↔ m ∈ memberships (store demo_world) ∧ m_user_id m = u_pk alice
              ∧ m_tenant_id m = t_id acme).
Proof.
  destruct (get_membership_spec acme alice demo_world demo_store_unique)
    as (found & Hrun & Hfound & _).
  exists found. split; [exact Hrun|exact Hfound].
Defined.

Lemma exemption_short_circuit_witness :
  let stage cfg path := __call__ Ok prefix_match cfg demo_get_response
                          demo_import_string demo_middleware
                          (demo_request "acme.example.com" path) in
  (emitted (stage demo_settings "/admin/login") demo_world
   = [EvGetResponse (set_tenant (demo_request "acme.example.com" "/admin/login") None)]
   ∧ resolver_calls (emitted (stage demo_settings "/admin/login") demo_world) = [])
  ∧ (resolver_calls (emitted (stage demo_settings "/orders/") demo_world)
     = [set_tenant (demo_request "acme.example.com" "/orders/") None]
     ∧ view_calls (emitted (stage demo_settings "/orders/") demo_world)
       = [set_tenant (demo_request "acme.example.com" "/orders/") (Some acme)])
  ∧ stage settings_without_base_domain "/orders/" demo_world
    = (Raise ValueError, demo_world).
Proof.
  intros stage. split; [|split].
  - pose proof (proj1 (exemption_short_circuit Ok prefix_match demo_settings
                         demo_get_response demo_import_string demo_middleware
                         (demo_request "acme.example.com" "/admin/login") demo_world))
      as Hexempt.
    destruct Hexempt as (Hem & Hres & _).
    + apply (bool_decide_unpack _). vm_compute. exact I.
    + split; [exact Hem|exact Hres].
  - destruct (proj2 (exemption_short_circuit Ok prefix_match demo_settings
                       demo_get_response demo_import_string demo_middleware
                       (demo_request "acme.example.com" "/orders/") demo_world))
      as [Hbuilt _].
    + apply (bool_decide_unpack _). vm_compute. exact I.
    + destruct (Hbuilt (SubdomainTenantResolver "example.com")) as (Honce & Hok & _).
      * right. split; reflexivity.
      * split; [exact Honce|]. apply (Hok acme). reflexivity.
  - destruct (proj2 (exemption_short_circuit Ok prefix_match
                       settings_without_base_domain
                       demo_get_response demo_import_string demo_middleware
                       (demo_request "acme.example.com" "/orders/") demo_world))
      as [_ Hnot_built].
    + apply (bool_decide_unpack _). vm_compute. exact I.
    + apply (Hnot_built ValueError); reflexivity.
Defined.

(** On a path that is not exempt, with the subdomain strategy and no base
    domain, no resolver is invoked: the stage raises [ValueError]. *)
Lemma stage_without_resolver :
  let stage := __call__ Ok prefix_match settings_without_base_domain demo_get_response
                 demo_import_string demo_middleware
                 (demo_request "acme.example.com" "/orders/") in
  _is_exempt prefix_match demo_middleware "/orders/" = false
  ∧ resolver_calls (emitted stage demo_world) = []
  ∧ (stage demo_world).1 = Raise ValueError.
Proof. intros stage. split; [|split]; reflexivity. Qed.
